(** * Enrichment pipelines of the lead-generation scripts

    A shallow embedding of the retrying, rate-limited enrichment pipelines
    found in [execution/validate_websites.py], [execution/check_gtm_adwords.py],
    [execution/analyze_pagespeed.py], [execution/find_emails.py] and
    [execution/outscraper_find_emails.py], with the conversions between
    leads and the rows of a sheet ([load_from_google_sheets],
    [execution/export_to_sheets.py]), together with the properties the
    specification states about them and further properties of the code.

    Conventions of the embedding:
    - a Python [str] is a [string] whose characters are the code points
      0..255 (Latin-1); [Py.strip] and [Py.lower] follow Python on that range;
    - a lead (a Python [dict]) is a [gmap string value];
    - the leads of a run are mutable objects shared between the lists the
      code builds; they live in a store (a list indexed by object number)
      and the lists hold object numbers;
    - the network, the clock and the thread pool are the environment: every
      function takes the outcome of each request as an oracle, the pool is
      the order in which [as_completed] hands back the futures;
    - times are in milliseconds; the clock moves in the pauses and while a
      request is out, by the stated amounts;
    - printing is left out, and so are the limits of the interpreter
      (recursion depth, memory). *)

From Stdlib Require Import ZArith Ascii String DecimalString Permutation Sorted.
From stdpp Require Import base list gmap strings sorting.
From Equations Require Import Equations.

Local Open Scope Z_scope.

(** ** Python primitives *)

Module Py.

(** [str.isspace] on the code points below 256. *)
Definition isspace (c : ascii) : bool :=
  let n := N_of_ascii c in
  ((9 <=? n) && (n <=? 13) || (28 <=? n) && (n <=? 32)
   || (n =? 133) || (n =? 160))%N.

Fixpoint lstrip (s : string) : string :=
  match s with
  | EmptyString => EmptyString
  | String c s' => if isspace c then lstrip s' else s
  end.

Definition rstrip (s : string) : string :=
  String.rev (lstrip (String.rev s)).

(** [s.strip()] *)
Definition strip (s : string) : string := rstrip (lstrip s).

(** [str.lower] on one code point below 256: A-Z and the accented capitals
    (192..222 without the multiplication sign) move up by 32. *)
Definition lower_char (c : ascii) : ascii :=
  let n := N_of_ascii c in
  if ((65 <=? n) && (n <=? 90)
      || (192 <=? n) && (n <=? 222) && negb (n =? 215))%N
  then ascii_of_N (n + 32) else c.

Fixpoint lower (s : string) : string :=
  match s with
  | EmptyString => EmptyString
  | String c s' => String (lower_char c) (lower s')
  end.

(** [str.upper] on the ASCII letters; this is all the code applies it to
    (the groups its regular expressions capture are [a-z0-9-]). *)
Definition upper_char (c : ascii) : ascii :=
  let n := N_of_ascii c in
  if ((97 <=? n) && (n <=? 122))%N then ascii_of_N (n - 32) else c.

Fixpoint upper (s : string) : string :=
  match s with
  | EmptyString => EmptyString
  | String c s' => String (upper_char c) (upper s')
  end.

(** [s.startswith(p)] *)
Definition startswith (p s : string) : bool := String.prefix p s.

Fixpoint drop (n : nat) (s : string) : string :=
  match n, s with
  | O, _ => s
  | S n', String _ s' => drop n' s'
  | S _, EmptyString => EmptyString
  end.

(** [s[:n]] for a non-negative [n]. *)
Fixpoint take (n : nat) (s : string) : string :=
  match n, s with
  | S n', String c s' => String c (take n' s')
  | _, _ => EmptyString
  end.

(** [needle in hay] *)
Fixpoint contains (needle hay : string) : bool :=
  String.prefix needle hay ||
  match hay with
  | EmptyString => false
  | String _ hay' => contains needle hay'
  end.

(** [s.replace(old, new)] for a non-empty [old]: scanning from the left,
    every occurrence of [old] that does not overlap an earlier one is
    replaced.  [skip] counts the characters of a match still to be
    dropped. *)
Fixpoint replace_go (old new : string) (skip : nat) (s : string) : string :=
  match s with
  | EmptyString => EmptyString
  | String c s' =>
      match skip with
      | S k => replace_go old new k s'
      | O =>
          if String.prefix old s
          then new +:+ replace_go old new (String.length old - 1) s'
          else String c (replace_go old new O s')
      end
  end.

Definition replace (old new s : string) : string := replace_go old new O s.

(** [s.split(sep)[0]] for a one-character separator. *)
Fixpoint before (sep : ascii) (s : string) : string :=
  match s with
  | EmptyString => EmptyString
  | String c s' => if Ascii.eqb c sep then EmptyString else String c (before sep s')
  end.

(** [sep in s] for a one-character separator. *)
Fixpoint has_char (sep : ascii) (s : string) : bool :=
  match s with
  | EmptyString => false
  | String c s' => Ascii.eqb c sep || has_char sep s'
  end.

(** [s.rstrip('/')] *)
Fixpoint lstrip_char (ch : ascii) (s : string) : string :=
  match s with
  | EmptyString => EmptyString
  | String c s' => if Ascii.eqb c ch then lstrip_char ch s' else s
  end.

Definition rstrip_char (ch : ascii) (s : string) : string :=
  String.rev (lstrip_char ch (String.rev s)).

(** [str(n)] for an [int]. *)
Definition str_of_Z (n : Z) : string := NilZero.string_of_int (Z.to_int n).

(** The values a lead holds: what a JSON document or a sheet cell gives,
    without floats and nested containers. *)
Inductive value :=
| VNone
| VBool (b : bool)
| VInt (n : Z)
| VStr (s : string).

(** Truth value of an object, as [if v:] and [or] test it. *)
Definition truthy (v : value) : bool :=
  match v with
  | VNone => false
  | VBool b => b
  | VInt n => negb (n =? 0)
  | VStr s => negb (String.eqb s "")
  end.

(** [str(v)] *)
Definition str (v : value) : string :=
  match v with
  | VNone => "None"
  | VBool true => "True"
  | VBool false => "False"
  | VInt n => str_of_Z n
  | VStr s => s
  end.

(** [d.get(k)] *)
Definition get (d : gmap string value) (k : string) : value :=
  default VNone (d !! k).

(** [k in d and d[k]] used as a condition. *)
Definition has_truthy (d : gmap string value) (k : string) : bool :=
  match d !! k with
  | Some v => truthy v
  | None => false
  end.

(** [a or b] *)
Definition or_ (a b : value) : value := if truthy a then a else b.

(** [l[:n]] for any integer [n]: a negative bound counts from the end. *)
Definition slice_to {A} (n : Z) (l : list A) : list A :=
  if n <? 0 then List.firstn (Z.to_nat (Z.of_nat (length l) + n)) l
  else List.firstn (Z.to_nat n) l.

End Py.

Export Py(value(..)).

Global Instance value_eq_dec : EqDecision value.
Proof. solve_decision. Defined.

Abbreviation lead := (gmap string value).

(** ** What the [requests] library hands back *)

(** The exception classes the handlers tell apart, each with its [str(e)].
    [Timeout] stands for every [requests.exceptions.Timeout],
    [ConnectionError] for a connection error that is neither an SSL error
    nor a timeout, [RequestException] for any other exception of the
    library and [OtherException] for any other [Exception]. *)
Inductive exn :=
| SSLError (msg : string)
| Timeout (msg : string)
| ConnectionError (msg : string)
| RequestException (msg : string)
| OtherException (msg : string).

Definition exn_str (e : exn) : string :=
  match e with
  | SSLError m | Timeout m | ConnectionError m
  | RequestException m | OtherException m => m
  end.

(** A response, with the observations the code makes of its headers:
    [headers.get('Server')] and ['cf-ray' in headers]. *)
Record response := {
  status_code : Z;
  reason : string;
  text : string;
  server : option string;
  cf_ray : bool
}.

(** A request either raises or returns a response. *)
Definition http_result : Set := (exn + response)%type.

(** What a call does to the outside world, in order. *)
Inductive http_event :=
| Request (method url : string)
| Sleep (milliseconds : Z).

(** Number of requests in a log whose method is [m]. *)
Definition is_method (m : string) (e : http_event) : bool :=
  match e with
  | Request m' _ => String.eqb m' m
  | Sleep _ => false
  end.

Definition count_method (m : string) (log : list http_event) : nat :=
  length (List.filter (is_method m) log).

(** [sorted(l, key=...)]: a stable sort on a natural-number key, written
    as insertion from the right so that equal keys keep their order. *)
Fixpoint insert_by_key {A} (key : A → nat) (x : A) (l : list A) : list A :=
  match l with
  | [] => [x]
  | y :: l' =>
      if (key x <=? key y)%nat then x :: l
      else y :: insert_by_key key x l'
  end.

Fixpoint sorted_by_key {A} (key : A → nat) (l : list A) : list A :=
  match l with
  | [] => []
  | x :: l' => insert_by_key key x (sorted_by_key key l')
  end.

(** ** [execution/validate_websites.py] *)

Module ValidateWebsites.

Definition DEFAULT_MAX_WORKERS : Z := 10.
Definition DEFAULT_TIMEOUT : Z := 10.

Definition website_keys : list string :=
  ["companyWebsite"; "company_website"; "website"; "companyDomain";
   "company_domain"; "domain"; "Company Website"; "Company Domain"].

(** [get_website_url]: the [or] chain over the alias keys, ending in [''],
    then [str(...).strip()], [http://] turned into [https://], and
    [https://] put in front of a non-empty value that does not start with
    [http]. *)
Definition get_website_url (l : lead) : string :=
  let website :=
    Py.or_ (Py.get l "companyWebsite")
   (Py.or_ (Py.get l "company_website")
   (Py.or_ (Py.get l "website")
   (Py.or_ (Py.get l "companyDomain")
   (Py.or_ (Py.get l "company_domain")
   (Py.or_ (Py.get l "domain")
   (Py.or_ (Py.get l "Company Website")
   (Py.or_ (Py.get l "Company Domain")
           (VStr "")))))))) in
  let website := Py.strip (Py.str website) in
  let website :=
    if Py.startswith "http://" website
    then "https://" +:+ Py.drop 7 website
    else website in
  if negb (String.eqb website "") && negb (Py.startswith "http" website)
  then "https://" +:+ website
  else website.

(** [f'{actual_timeout:.0f}'] where [actual_timeout] is
    [timeout * (1 + retry_count * 0.5)]: the argument is twice that value,
    an integer; a half is rounded to the even neighbour, as the float
    formatting does. *)
Definition format_half_0f (x2 : Z) : string :=
  let k := x2 / 2 in
  if x2 mod 2 =? 0 then Py.str_of_Z k
  else
    let e := if Z.even k then k else k + 1 in
    if (e =? 0) && (x2 <? 0) then "-0" else Py.str_of_Z e.

Section Network.

(** What [requests.head] and [requests.get] do at the attempt numbered
    [retry_count]. *)
Variable http_head : Z → http_result.
Variable http_get : Z → http_result.

(** The first two statements of the [try] block: a HEAD request, and a
    GET request when the answer is 405. *)
Definition fetch (url : string) (retry_count : Z)
  : list http_event * http_result :=
  match http_head retry_count with
  | inl e => ([Request "HEAD" url], inl e)
  | inr r =>
      if status_code r =? 405
      then ([Request "HEAD" url; Request "GET" url], http_get retry_count)
      else ([Request "HEAD" url], inr r)
  end.

(** The delay before a retry. *)
Definition backoff (retry_count : Z) : list http_event :=
  if 0 <? retry_count then [Sleep (retry_count * 2 * 1000)] else [].

Definition retried (retry_count : Z) : string :=
  "(retried " +:+ Py.str_of_Z retry_count +:+ "x)".

(** [validate_website(url, timeout, retry_count, max_retries)]: the
    events it causes and the [(status, status_message)] it returns. *)
Equations? validate_website (url : string) (timeout retry_count max_retries : Z)
  : list http_event * (string * string)
  by wf (Z.to_nat (max_retries - retry_count)) lt :=
validate_website url timeout retry_count max_retries :=
  if String.eqb url "" then ([], ("no_url", "No website URL found"))
  else
    let '(reqs, res) := fetch url retry_count in
    let log := backoff retry_count ++ reqs in
    match res with
    | inr response =>
        if (200 <=? status_code response) && (status_code response <? 300)
        then
          let retry_msg :=
            if 0 <? retry_count
            then " (retry " +:+ Py.str_of_Z retry_count +:+ ")" else "" in
          (log, ("valid",
                 Py.str_of_Z (status_code response) +:+ " OK" +:+ retry_msg))
        else
          let response_text := Py.lower (text response) in
          let server_header := Py.lower (default "" (server response)) in
          let is_cloudflare :=
            Py.contains "cloudflare" response_text
            || Py.contains "cloudflare" server_header
            || cf_ray response in
          let is_cloudfront :=
            Py.contains "cloudfront" response_text
            || Py.contains "cloudfront" server_header in
          if (is_cloudflare || is_cloudfront)
             && ((status_code response =? 403) || (status_code response =? 429))
          then
            match Z_lt_dec retry_count max_retries with
            | left _ =>
                let '(log', r) :=
                  validate_website url timeout (retry_count + 1) max_retries in
                (log ++ log', r)
            | right _ =>
                let service :=
                  if is_cloudflare then "Cloudflare" else "CloudFront" in
                if status_code response =? 403
                then (log, ("blocked",
                            Py.str_of_Z (status_code response)
                            +:+ " Forbidden - " +:+ service
                            +:+ " block detected " +:+ retried retry_count))
                else (log, ("blocked",
                            Py.str_of_Z (status_code response)
                            +:+ " Too Many Requests - " +:+ service
                            +:+ " rate limit " +:+ retried retry_count))
            end
          else
            (log, ("invalid",
                   Py.str_of_Z (status_code response) +:+ " "
                   +:+ reason response))
    | inl (SSLError error_msg) =>
        if Py.contains "certificate verify failed" (Py.lower error_msg)
        then (log, ("ssl_error", "SSL Certificate verification failed"))
        else (log, ("ssl_error", "SSL Error: " +:+ Py.take 100 error_msg))
    | inl (Timeout _) =>
        match Z_lt_dec retry_count max_retries with
        | left _ =>
            let '(log', r) :=
              validate_website url timeout (retry_count + 1) max_retries in
            (log ++ log', r)
        | right _ =>
            (log, ("timeout",
                   "Request timeout ("
                   +:+ format_half_0f (timeout * (2 + retry_count))
                   +:+ "s, retried " +:+ Py.str_of_Z retry_count +:+ "x)"))
        end
    | inl (ConnectionError error_msg)
    | inl (RequestException error_msg) =>
        if Py.contains "cloudflare" (Py.lower error_msg)
        then
          match Z_lt_dec retry_count max_retries with
          | left _ =>
              let '(log', r) :=
                validate_website url timeout (retry_count + 1) max_retries in
              (log ++ log', r)
          | right _ =>
              (log, ("blocked",
                     "Cloudflare block: " +:+ Py.take 80 error_msg
                     +:+ " " +:+ retried retry_count))
          end
        else if Py.contains "cloudfront" (Py.lower error_msg)
        then
          match Z_lt_dec retry_count max_retries with
          | left _ =>
              let '(log', r) :=
                validate_website url timeout (retry_count + 1) max_retries in
              (log ++ log', r)
          | right _ =>
              (log, ("blocked",
                     "CloudFront block: " +:+ Py.take 80 error_msg
                     +:+ " " +:+ retried retry_count))
          end
        else
          match Z_lt_dec retry_count max_retries with
          | left _ =>
              let '(log', r) :=
                validate_website url timeout (retry_count + 1) max_retries in
              (log ++ log', r)
          | right _ =>
              (log, ("unknown",
                     "Error: " +:+ Py.take 80 error_msg
                     +:+ " " +:+ retried retry_count))
          end
    | inl (OtherException error_msg) =>
        match Z_lt_dec retry_count max_retries with
        | left _ =>
            let '(log', r) :=
              validate_website url timeout (retry_count + 1) max_retries in
            (log ++ log', r)
        | right _ =>
            (log, ("unknown",
                   "Unknown error: " +:+ Py.take 80 error_msg
                   +:+ " " +:+ retried retry_count))
        end
    end.
Proof. all: lia. Qed.

End Network.

(** *** The batch *)

(** [url_lead_pairs]: index, URL and lead of every input record; the lead
    is the object numbered by its position in the input. *)
Definition url_lead_pairs (leads : list lead) : list (nat * string * nat) :=
  imap (λ i l, (i, get_website_url l, i)) leads.

(** The tasks handed to the executor, one per entry of [url_lead_pairs]. *)
Definition submitted (leads : list lead) : list (nat * string) :=
  (λ p, (p.1.1, p.1.2)) <$> url_lead_pairs leads.

(** [lead['website_status'] = status; lead['website_status_message'] = ...] *)
Definition annotate (status status_message : string) (l : lead) : lead :=
  <["website_status_message" := VStr status_message]>
    (<["website_status" := VStr status]> l).

Section Pool.

(** What [future.result()] does for the task numbered [k], submitted as
    [validate_website(url, timeout)]: it returns the value or raises. *)
Variable future_result : nat → string → Z → exn + (string * string).

(** [try: status, status_message = future.result()] with its
    [except Exception] branch. *)
Definition result_or_unknown (k : nat) (url : string) (timeout : Z)
  : string * string :=
  match future_result k url timeout with
  | inr r => r
  | inl e => ("unknown", "Validation error: " +:+ Py.take 100 (exn_str e))
  end.

(** One turn of the [as_completed] loop, for the future numbered [k]. *)
Definition complete (timeout : Z) (pairs : list (nat * string * nat))
    (store : list lead) (k : nat) : list lead :=
  match pairs !! k with
  | None => store
  | Some (idx, url, ref) =>
      let '(status, status_message) := result_or_unknown k url timeout in
      alter (annotate status status_message) ref store
  end.

(** [validate_websites_batch] over any worker; [order] is the order in
    which [as_completed] yields the futures.  [max_workers] does not
    appear: it bounds how many tasks run at a time, not what they return. *)
Definition validate_websites_batch_with (leads : list lead) (timeout : Z)
    (order : list nat) : list lead :=
  let pairs := url_lead_pairs leads in
  let store := foldl (complete timeout pairs) leads order in
  omap (λ p, store !! p.2) (sorted_by_key (λ p, p.1.1) pairs).

End Pool.

(** The worker the code submits: [validate_website] with its default
    [retry_count=0] and [max_retries=3]; [http_head k] and [http_get k]
    are what the network does for the task numbered [k]. *)
Definition worker (http_head http_get : nat → Z → http_result)
    (k : nat) (url : string) (timeout : Z) : exn + (string * string) :=
  inr (validate_website (http_head k) (http_get k) url timeout 0 3).2.

(** [validate_websites_batch(leads, max_workers, timeout)] *)
Definition validate_websites_batch (http_head http_get : nat → Z → http_result)
    (leads : list lead) (timeout : Z) (order : list nat) : list lead :=
  validate_websites_batch_with (worker http_head http_get) leads timeout order.

End ValidateWebsites.

(** ** [execution/check_gtm_adwords.py] *)

Module CheckGtmAdwords.

Definition website_fields : list string :=
  ["companyWebsite"; "company_website"; "website"; "companyDomain";
   "company_domain"; "domain"; "Company Website"].

(** The body of the loop of [get_website_from_lead], over the fields still
    to try: a field counts when it is present and truthy and its text is
    non-empty after [strip()]; the value returned gets [https://] in front
    unless it has a scheme, and loses its trailing slashes. *)
Fixpoint first_website (fields : list string) (l : lead) : option string :=
  match fields with
  | [] => None
  | field :: rest =>
      if Py.has_truthy l field then
        let website := Py.strip (Py.str (Py.get l field)) in
        if negb (String.eqb website "") then
          let website :=
            if negb (Py.startswith "http://" website
                     || Py.startswith "https://" website)
            then "https://" +:+ website else website in
          Some (Py.rstrip_char "/" website)
        else first_website rest l
      else first_website rest l
  end.

Definition get_website_from_lead (l : lead) : option string :=
  first_website website_fields l.

(** The dictionary [detect_gtm_and_ads] returns. *)
Record detection := {
  gtm_installed : bool;
  gtm_container_id : option string;
  google_ads_detected : bool;
  google_ads_account_id : option string;
  conversion_tracking : bool;
  remarketing_tag : bool;
  status : string
}.

Definition initial_result : detection := {|
  gtm_installed := false;
  gtm_container_id := None;
  google_ads_detected := false;
  google_ads_account_id := None;
  conversion_tracking := false;
  remarketing_tag := false;
  status := "failed"
|}.

(** The regular expressions of the detector, by name. *)
Inductive pattern :=
| GtmJs              (* googletagmanager\.com/gtm\.js\?id=(gtm-[a-z0-9]+) *)
| GtmNs              (* googletagmanager\.com/ns\.html\?id=(gtm-[a-z0-9]+) *)
| AdsConfig          (* gtag\(['"]config['"],\s*['"]+(aw-\d+)['"] *)
| LegacyConversionId (* google_conversion_id *)
| GtagJs             (* googletagmanager\.com/gtag/js\?id=aw- *)
| GtagJsId           (* googletagmanager\.com/gtag/js\?id=(aw-\d+) *)
| ConversionEvent    (* gtag\(['"]event['"],\s*['"]conversion['"] *)
| PageViewSendTo     (* gtag\(['"]event['"],\s*['"]page_view['"].*send_to.*aw- *)
| TrackConversion    (* google_trackconversion *)
| TagParams          (* google_tag_params *)
| RemarketingOnly.   (* google_remarketing_only\s*=\s*true *)

Definition MAX_RETRIES : nat := 2.

Section Detector.

(** [re.search(pattern, html)]: [None] without a match, else the text of
    group 1 (of the whole match for a pattern without a group). *)
Variable re_search : pattern → string → option string.

(** [requests.get(url, ...)] at the attempt numbered [attempt]. *)
Variable http_get : nat → string → http_result.

(** [for pattern in patterns: if re.search(...): ...; break] used as a
    test. *)
Definition any_match (patterns : list pattern) (html : string) : bool :=
  existsb (λ p, bool_decide (is_Some (re_search p html))) patterns.

(** The first pattern of the list that matches, with its group. *)
Fixpoint first_match (patterns : list pattern) (html : string)
  : option string :=
  match patterns with
  | [] => None
  | p :: rest =>
      match re_search p html with
      | Some g => Some g
      | None => first_match rest html
      end
  end.

Definition truthy_id (id : option string) : bool :=
  match id with
  | Some s => negb (String.eqb s "")
  | None => false
  end.

(** The detection on the page text, from the GTM section down to
    [result['status'] = 'analyzed']. *)
Definition analyze_html (result : detection) (html : string) : detection :=
  (* GTM *)
  let result :=
    match first_match [GtmJs; GtmNs] html with
    | Some g =>
        {| gtm_installed := true;
           gtm_container_id := Some (Py.upper g);
           google_ads_detected := google_ads_detected result;
           google_ads_account_id := google_ads_account_id result;
           conversion_tracking := conversion_tracking result;
           remarketing_tag := remarketing_tag result;
           status := status result |}
    | None => result
    end in
  (* Pattern 1: gtag config with the account id *)
  let result :=
    match re_search AdsConfig html with
    | Some g =>
        {| gtm_installed := gtm_installed result;
           gtm_container_id := gtm_container_id result;
           google_ads_detected := true;
           google_ads_account_id := Some (Py.upper g);
           conversion_tracking := conversion_tracking result;
           remarketing_tag := remarketing_tag result;
           status := status result |}
    | None => result
    end in
  (* Pattern 2: legacy conversion id *)
  let result :=
    match re_search LegacyConversionId html with
    | Some _ =>
        {| gtm_installed := gtm_installed result;
           gtm_container_id := gtm_container_id result;
           google_ads_detected := true;
           google_ads_account_id := google_ads_account_id result;
           conversion_tracking := conversion_tracking result;
           remarketing_tag := remarketing_tag result;
           status := status result |}
    | None => result
    end in
  (* Pattern 3: gtag.js script *)
  let result :=
    match re_search GtagJs html with
    | Some _ =>
        {| gtm_installed := gtm_installed result;
           gtm_container_id := gtm_container_id result;
           google_ads_detected := true;
           google_ads_account_id :=
             match re_search GtagJsId html with
             | Some g =>
                 if negb (truthy_id (google_ads_account_id result))
                 then Some (Py.upper g)
                 else google_ads_account_id result
             | None => google_ads_account_id result
             end;
           conversion_tracking := conversion_tracking result;
           remarketing_tag := remarketing_tag result;
           status := status result |}
    | None => result
    end in
  {| gtm_installed := gtm_installed result;
     gtm_container_id := gtm_container_id result;
     google_ads_detected := google_ads_detected result;
     google_ads_account_id := google_ads_account_id result;
     conversion_tracking :=
       if any_match [ConversionEvent; PageViewSendTo; TrackConversion] html
       then true else conversion_tracking result;
     remarketing_tag :=
       if any_match [TagParams; RemarketingOnly] html
       then true else remarketing_tag result;
     status := "analyzed" |}.

Definition set_analyzed (result : detection) : detection :=
  {| gtm_installed := gtm_installed result;
     gtm_container_id := gtm_container_id result;
     google_ads_detected := google_ads_detected result;
     google_ads_account_id := google_ads_account_id result;
     conversion_tracking := conversion_tracking result;
     remarketing_tag := remarketing_tag result;
     status := "analyzed" |}.

(** The [for attempt in range(max_retries)] loop over the attempts still
    to make, and the [return result] after it.  A response other than
    200 and a timeout go on to the next attempt, an SSL error tries the
    plain-HTTP address once and then goes on, any other exception leaves
    the loop. *)
Fixpoint attempt_loop (url : string) (attempts : list nat)
    (result : detection) : list http_event * detection :=
  match attempts with
  | [] => ([], result)
  | attempt :: rest =>
      match http_get attempt url with
      | inr response =>
          if negb (status_code response =? 200) then
            let '(log, r) := attempt_loop url rest result in
            (Request "GET" url :: log, r)
          else
            ([Request "GET" url],
             analyze_html result (Py.lower (text response)))
      | inl (SSLError _) =>
          let http_url := Py.replace "https://" "http://" url in
          match http_get attempt http_url with
          | inr response =>
              if status_code response =? 200 then
                ([Request "GET" url; Request "GET" http_url],
                 set_analyzed result)
              else
                let '(log, r) := attempt_loop url rest result in
                (Request "GET" url :: Request "GET" http_url :: log, r)
          | inl _ =>
              let '(log, r) := attempt_loop url rest result in
              (Request "GET" url :: Request "GET" http_url :: log, r)
          end
      | inl (Timeout _) =>
          let pause :=
            if (attempt <? MAX_RETRIES - 1)%nat then [Sleep 1000] else [] in
          let '(log, r) := attempt_loop url rest result in
          (Request "GET" url :: pause ++ log, r)
      | inl (ConnectionError _) => ([Request "GET" url], result)
      | inl (RequestException _)
      | inl (OtherException _) => ([Request "GET" url], result)
      end
  end.

(** [detect_gtm_and_ads(url, timeout, verbose)] *)
Definition detect_gtm_and_ads (url : string)
  : list http_event * detection :=
  attempt_loop url (seq 0 MAX_RETRIES) initial_result.

End Detector.

(** *** The batch *)

(** The fields written on a lead without a website. *)
Definition mark_no_website (l : lead) : lead :=
  <["tracking_analysis_status" := VStr "no_website"]>
 (<["remarketing_tag" := VStr ""]>
 (<["conversion_tracking" := VStr ""]>
 (<["google_ads_account_id" := VStr ""]>
 (<["google_ads_detected" := VStr ""]>
 (<["gtm_container_id" := VStr ""]>
 (<["gtm_installed" := VStr ""]> l)))))).

Definition flag (b : bool) : value := VStr (if b then "TRUE" else "FALSE").

(** [id or ''] *)
Definition id_or_empty (id : option string) : value :=
  match id with
  | Some s => VStr s
  | None => VStr ""
  end.

(** The fields written on a lead from the result of its task. *)
Definition annotate (result : detection) (l : lead) : lead :=
  <["tracking_analysis_status" := VStr (status result)]>
 (<["remarketing_tag" := flag (remarketing_tag result)]>
 (<["conversion_tracking" := flag (conversion_tracking result)]>
 (<["google_ads_account_id" := id_or_empty (google_ads_account_id result)]>
 (<["google_ads_detected" := flag (google_ads_detected result)]>
 (<["gtm_container_id" := id_or_empty (gtm_container_id result)]>
 (<["gtm_installed" := flag (gtm_installed result)]> l)))))).

(** [if website:] on what [get_website_from_lead] returns. *)
Definition has_website (l : lead) : bool :=
  match get_website_from_lead l with
  | Some website => negb (String.eqb website "")
  | None => false
  end.

(** The state of the first loop of [analyze_leads]: [url_lead_pairs],
    [no_website_leads] and the lead objects. *)
Record partition := {
  url_lead_pairs : list (nat * string * nat);
  no_website_leads : list (nat * nat);
  objects : list lead
}.

(** One turn of that loop, for the lead [l] at index [i]. *)
Definition scan_step (st : partition) (il : nat * lead) : partition :=
  let '(i, l) := il in
  match get_website_from_lead l with
  | Some website =>
      if negb (String.eqb website "") then
        {| url_lead_pairs := url_lead_pairs st ++ [(i, website, i)];
           no_website_leads := no_website_leads st;
           objects := objects st |}
      else
        {| url_lead_pairs := url_lead_pairs st;
           no_website_leads := no_website_leads st ++ [(i, i)];
           objects := alter mark_no_website i (objects st) |}
  | None =>
      {| url_lead_pairs := url_lead_pairs st;
         no_website_leads := no_website_leads st ++ [(i, i)];
         objects := alter mark_no_website i (objects st) |}
  end.

Definition scan (leads : list lead) : partition :=
  foldl scan_step
    {| url_lead_pairs := []; no_website_leads := []; objects := leads |}
    (imap (λ i l, (i, l)) leads).

(** The tasks handed to the executor. *)
Definition submitted (leads : list lead) : list (nat * string) :=
  (λ p, (p.1.1, p.1.2)) <$> url_lead_pairs (scan leads).

Section Pool.

(** What [future.result()] does for the task numbered [k], submitted as
    [detect_gtm_and_ads(url, timeout, False)]. *)
Variable future_result : nat → string → Z → exn + detection.

Definition failed_result : detection := {|
  gtm_installed := false;
  gtm_container_id := None;
  google_ads_detected := false;
  google_ads_account_id := None;
  conversion_tracking := false;
  remarketing_tag := false;
  status := "failed"
|}.

(** [try: result = future.result()] with its [except Exception]
    branch. *)
Definition result_or_failed (k : nat) (url : string) (timeout : Z)
  : detection :=
  match future_result k url timeout with
  | inr r => r
  | inl _ => failed_result
  end.

(** One turn of the [as_completed] loop, for the future numbered [k]. *)
Definition complete (timeout : Z) (pairs : list (nat * string * nat))
    (store : list lead) (k : nat) : list lead :=
  match pairs !! k with
  | None => store
  | Some (idx, url, ref) =>
      alter (annotate (result_or_failed k url timeout)) ref store
  end.

(** [analyze_leads] over any worker; [order] is the order in which
    [as_completed] yields the futures. *)
Definition analyze_leads_with (leads : list lead) (timeout : Z)
    (order : list nat) : list lead :=
  let st := scan leads in
  if (length (url_lead_pairs st) =? 0)%nat then objects st
  else
    let store := foldl (complete timeout (url_lead_pairs st)) (objects st) order in
    omap (λ p, store !! p.2)
      (sorted_by_key fst
         (((λ p, (p.1.1, p.2)) <$> url_lead_pairs st) ++ no_website_leads st)).

End Pool.

(** The worker the code submits; [http_get k] is what the network does
    for the task numbered [k]. *)
Definition worker (re_search : pattern → string → option string)
    (http_get : nat → nat → string → http_result)
    (k : nat) (url : string) (timeout : Z) : exn + detection :=
  inr (detect_gtm_and_ads re_search (http_get k) url).2.

(** [analyze_leads(leads, max_workers, timeout, verbose)] *)
Definition analyze_leads (re_search : pattern → string → option string)
    (http_get : nat → nat → string → http_result)
    (leads : list lead) (timeout : Z) (order : list nat) : list lead :=
  analyze_leads_with (worker re_search http_get) leads timeout order.

End CheckGtmAdwords.

(** ** [execution/analyze_pagespeed.py] *)

Module AnalyzePagespeed.

(** The same text as in [check_gtm_adwords.py]. *)
Definition get_website_from_lead (l : lead) : option string :=
  CheckGtmAdwords.first_website CheckGtmAdwords.website_fields l.

(** [if website:] on what [get_website_from_lead] returns. *)
Definition has_website (l : lead) : bool :=
  match get_website_from_lead l with
  | Some website => negb (String.eqb website "")
  | None => false
  end.

(** The dictionary [analyze_pagespeed] returns. *)
Record result := {
  performance_score : option Z;
  seo_score : option Z;
  status : string
}.

Definition failed : result :=
  {| performance_score := None; seo_score := None; status := "failed" |}.

(** What one request to the API does: it raises, or answers with a status
    code and a body.  The body is [None] when it cannot be read as the
    expected JSON document, else the two category scores, each already
    taken through [int(score * 100)]. *)
Inductive reply :=
| Raised (e : exn)
| Answer (code : Z) (body : option (option Z * option Z)).

(** Events of a call: the request, the time it took, the pauses.  Times are
    in milliseconds. *)
Inductive event :=
| Get (url : string) (took : Z)
| Pause (milliseconds : Z).

Definition is_get (e : event) : bool :=
  match e with Get _ _ => true | Pause _ => false end.

(** Time a log of events takes. *)
Definition duration (log : list event) : Z :=
  foldr (λ e acc, match e with Get _ t | Pause t => t + acc end) 0 log.

Definition MAX_RETRIES : nat := 3.
Definition RETRY_DELAY : Z := 2.

Section Api.

(** The request of the attempt numbered [attempt]: the time it takes and
    what it does. *)
Variable api : nat → Z * reply.

(** The [for attempt in range(max_retries)] loop over the attempts still
    to make, and the [return] after it. *)
Fixpoint attempt_loop (url : string) (attempts : list nat)
  : list event * result :=
  match attempts with
  | [] => ([], failed)
  | attempt :: rest =>
      let '(took, r) := api attempt in
      match r with
      | Answer code body =>
          if code =? 429 then
            let wait_time := RETRY_DELAY * 2 ^ Z.of_nat attempt in
            let '(log, res) := attempt_loop url rest in
            (Get url took :: Pause (wait_time * 1000) :: log, res)
          else if negb (code =? 200) then ([Get url took], failed)
          else
            match body with
            | Some (performance, seo) =>
                ([Get url took],
                 {| performance_score := performance;
                    seo_score := seo;
                    status := "analyzed" |})
            | None => ([Get url took], failed)
            end
      | Raised (Timeout _) =>
          let pause :=
            if (attempt <? MAX_RETRIES - 1)%nat
            then [Pause (RETRY_DELAY * 1000)] else [] in
          let '(log, res) := attempt_loop url rest in
          (Get url took :: pause ++ log, res)
      | Raised _ => ([Get url took], failed)
      end
  end.

(** [analyze_pagespeed(url, verbose)] *)
Definition analyze_pagespeed (url : string) : list event * result :=
  attempt_loop url (seq 0 MAX_RETRIES).

End Api.

(** *** The loop over the leads and its rate window *)

Definition MAX_REQUESTS_PER_100_SEC : Z := 400.
Definition SAFE_DELAY : Z := 670.
Definition WINDOW : Z := 100000.

(** The variables of the loop of [analyze_leads], with the clock.
    [dispatched] is not in the code: it keeps, for every call made, the
    time at which it was started and the time appended to
    [request_times] on its return. *)
Record state := {
  clock : Z;
  request_times : list Z;
  analyzed_leads : list lead;
  dispatched : list (Z * Z)
}.

Definition score_or_empty (s : option Z) : value :=
  match s with
  | Some n => VInt n
  | None => VStr ""
  end.

Definition annotate (r : result) (l : lead) : lead :=
  <["pagespeed_status" := VStr (status r)]>
 (<["seo_score" := score_or_empty (seo_score r)]>
 (<["performance_score" := score_or_empty (performance_score r)]> l)).

Definition mark_no_website (l : lead) : lead :=
  <["pagespeed_status" := VStr "no_website"]>
 (<["seo_score" := VStr ""]>
 (<["performance_score" := VStr ""]> l)).

Section Run.

(** The API as the lead numbered [i] (from 1) meets it. *)
Variable api : nat → nat → Z * reply.

(** The input list, for the look at the next lead after a call. *)
Variable leads : list lead.

(** The pruning and the check made before a call: the entries younger
    than the window are kept; with 390 of them or more the loop sleeps
    until the oldest is a second out of the window, and forgets them
    all. *)
Definition throttle (current_time : Z) (times : list Z) : Z * list Z :=
  let times := filter (λ t, current_time - t < WINDOW) times in
  if (MAX_REQUESTS_PER_100_SEC - 10 <=? Z.of_nat (length times)) then
    let wait_time :=
      WINDOW - (current_time - default current_time (head times)) + 1000 in
    (current_time + wait_time, [])
  else (current_time, times).

(** One turn of [for i, lead in enumerate(leads, 1)]. *)
Definition step (st : state) (il : nat * lead) : state :=
  let '(i, l) := il in
  match get_website_from_lead l with
  | Some website =>
      if negb (String.eqb website "") then
        let '(started, times) := throttle (clock st) (request_times st) in
        let '(log, r) := analyze_pagespeed (api i) website in
        let returned := started + duration log in
        let next_has_website :=
          (i <? length leads)%nat
          && match leads !! i with
             | Some next => has_website next
             | None => false
             end in
        {| clock := if next_has_website then returned + SAFE_DELAY else returned;
           request_times := times ++ [returned];
           analyzed_leads := analyzed_leads st ++ [annotate r l];
           dispatched := dispatched st ++ [(started, returned)] |}
      else
        {| clock := clock st;
           request_times := request_times st;
           analyzed_leads := analyzed_leads st ++ [mark_no_website l];
           dispatched := dispatched st |}
  | None =>
      {| clock := clock st;
         request_times := request_times st;
         analyzed_leads := analyzed_leads st ++ [mark_no_website l];
         dispatched := dispatched st |}
  end.

(** The loop, from the clock value [start]. *)
Definition run (start : Z) : state :=
  foldl step
    {| clock := start; request_times := [];
       analyzed_leads := []; dispatched := [] |}
    (imap (λ i l, (S i, l)) leads).

(** [analyze_leads(leads, batch_size, verbose)] *)
Definition analyze_leads (start : Z) : list lead :=
  analyzed_leads (run start).

End Run.

(** Number of calls started in the [WINDOW] milliseconds that end at
    [now], the bound [now - t < WINDOW] being the one the code prunes
    with. *)
Definition started_in_window (now : Z) (calls : list (Z * Z)) : nat :=
  length (filter (λ c, c.1 ≤ now ∧ now - c.1 < WINDOW) calls).

(** The same count on the times the code records. *)
Definition recorded_in_window (now : Z) (calls : list (Z * Z)) : nat :=
  length (filter (λ c, c.2 ≤ now ∧ now - c.2 < WINDOW) calls).

End AnalyzePagespeed.

(** ** Scripts that exit: traces of a run *)

(** What a paid-API script does to the outside world. *)
Inductive action :=
| Prompt                              (* [input("Continue? (yes/no): ")] *)
| ApiCall (key : string)              (* one call of the paid API *)
| Save (leads : list lead).           (* the output file or sheet is written *)

(** A computation that may end the process: its trace so far and either the
    exit code of [sys.exit] or its value. *)
Definition script (A : Type) : Type := list action * (Z + A).

Global Instance script_ret : MRet script := λ A a, ([], inr a).

Global Instance script_bind : MBind script := λ A B f m,
  match m with
  | (t, inl code) => (t, inl code)
  | (t, inr a) => let '(t', r) := f a in (t ++ t', r)
  end.

Definition emit (a : action) : script unit := ([a], inr tt).

Definition sys_exit {A} (code : Z) : script A := ([], inl code).

(** [for x in l: body], the loop state passed along. *)
Fixpoint for_each {A S} (l : list A) (body : S → A → script S) (s : S)
  : script S :=
  match l with
  | [] => mret s
  | x :: l' => s' ← body s x; for_each l' body s'
  end.

Definition is_api_call (a : action) : bool :=
  match a with ApiCall _ => true | _ => false end.

Definition is_save (a : action) : bool :=
  match a with Save _ => true | _ => false end.

(** ** [execution/find_emails.py] *)

Module FindEmails.

(** [extract_domain(url)] *)
Definition extract_domain (url : string) : string :=
  if String.eqb url "" then ""
  else
    let url := Py.lower (Py.strip url) in
    let url :=
      Py.replace "www." ""
        (Py.replace "https://" "" (Py.replace "http://" "" url)) in
    let url := if Py.has_char "/" url then Py.before "/" url else url in
    if Py.has_char "?" url then Py.before "?" url else url.

(** [get_field_value(lead, *possible_keys)] *)
Fixpoint get_field_value (l : lead) (possible_keys : list string) : string :=
  match possible_keys with
  | [] => ""
  | key :: rest =>
      if Py.has_truthy l key then Py.strip (Py.str (Py.get l key))
      else get_field_value l rest
  end.

(** What the request to AnyMailFinder does: it raises, or answers with a
    status code and a JSON object. *)
Inductive reply :=
| Raised (e : exn)
| Answer (code : Z) (data : gmap string value).

(** [d.get(k, dflt)] *)
Definition get_default (d : gmap string value) (k : string) (dflt : value)
  : value := default dflt (d !! k).

(** [find_email_anymailfinder]: [(email, confidence, verified)], or three
    [None] when nothing was found, the status is an error status
    ([raise_for_status]) or the request raised. *)
Definition find_email_anymailfinder (r : reply) : value * value * value :=
  match r with
  | Raised _ => (VNone, VNone, VNone)
  | Answer code data =>
      if (400 <=? code) && (code <? 600) then (VNone, VNone, VNone)
      else if Py.truthy (Py.get data "success") && Py.truthy (Py.get data "email")
      then (Py.get data "email",
            get_default data "confidence" (VInt 0),
            get_default data "verified" (VBool false))
      else (VNone, VNone, VNone)
  end.

Record stats := {
  total : nat;
  processed : nat;
  skipped_existing : nat;
  skipped_missing_fields : nat;
  emails_found : nat;
  emails_not_found : nat
}.

Section Run.

(** [os.getenv('ANYMAILFINDER_API_KEY')] *)
Variable api_key : option string.

(** The API as the lead numbered [i] (from 1) meets it. *)
Variable api : nat → reply.

(** What the user types at the prompt. *)
Variable typed : string.

(** One turn of the loop of [enrich_leads]; the progress output and the
    half-second pause after a call are left out. *)
Definition enrich_step (skip_existing : bool) (st : list lead * stats)
    (il : nat * lead) : script (list lead * stats) :=
  let '(enriched_leads, s) := st in
  let '(i, l) := il in
  let first_name :=
    get_field_value l ["firstName"; "first_name"; "personFirstName"] in
  let last_name :=
    get_field_value l ["lastName"; "last_name"; "personLastName"] in
  let domain :=
    get_field_value l ["companyWebsite"; "company_website"; "website";
                       "companyDomain"; "company_domain"; "domain"] in
  let domain := extract_domain domain in
  let existing_email :=
    get_field_value l ["email"; "personEmail"; "person_email"] in
  if skip_existing && negb (String.eqb existing_email "") then
    mret (enriched_leads ++ [l],
         {| total := total s; processed := processed s;
            skipped_existing := S (skipped_existing s);
            skipped_missing_fields := skipped_missing_fields s;
            emails_found := emails_found s;
            emails_not_found := emails_not_found s |})
  else if String.eqb first_name "" || String.eqb last_name ""
          || String.eqb domain "" then
    mret (enriched_leads ++ [l],
         {| total := total s; processed := processed s;
            skipped_existing := skipped_existing s;
            skipped_missing_fields := S (skipped_missing_fields s);
            emails_found := emails_found s;
            emails_not_found := emails_not_found s |})
  else
    emit (ApiCall domain) ;;
    let '(email, confidence, verified) := find_email_anymailfinder (api i) in
    if Py.truthy email then
      mret (enriched_leads
             ++ [<["email_verified" := verified]>
                   (<["email_confidence" := confidence]>
                      (<["email" := email]> l))],
           {| total := total s; processed := S (processed s);
              skipped_existing := skipped_existing s;
              skipped_missing_fields := skipped_missing_fields s;
              emails_found := S (emails_found s);
              emails_not_found := emails_not_found s |})
    else
      mret (enriched_leads ++ [l],
           {| total := total s; processed := S (processed s);
              skipped_existing := skipped_existing s;
              skipped_missing_fields := skipped_missing_fields s;
              emails_found := emails_found s;
              emails_not_found := S (emails_not_found s) |}).

(** [enrich_leads(leads, max_leads, skip_existing, verbose)] *)
Definition enrich_leads (leads : list lead) (max_leads : Z)
    (skip_existing : bool) : script (list lead * stats) :=
  match api_key with
  | None => sys_exit 1
  | Some key =>
      if String.eqb key "" then sys_exit 1
      else
        let leads_to_process := Py.slice_to max_leads leads in
        for_each (imap (λ i l, (S i, l)) leads_to_process)
          (enrich_step skip_existing)
          ([], {| total := length leads; processed := 0;
                  skipped_existing := 0; skipped_missing_fields := 0;
                  emails_found := 0; emails_not_found := 0 |})
  end.

(** [ask_permission(leads, max_leads, skip_existing)]: the summary is
    printed (its count of leads without an address is left out), the
    answer read, and anything but [yes] or [y] ends the process with
    code 0. *)
Definition ask_permission (leads : list lead) (max_leads : Z)
    (skip_existing : bool) : script unit :=
  emit Prompt ;;
  let response := Py.lower (Py.strip typed) in
  if negb (bool_decide (response ∈ ["yes"; "y"])) then sys_exit 0
  else mret tt.

(** [main()], from the loaded leads on. *)
Definition main (leads : list lead) (max_leads : Z) (include_existing : bool)
  : script unit :=
  if bool_decide (leads = []) then sys_exit 1
  else
    let skip_existing := negb include_existing in
    ask_permission leads max_leads skip_existing ;;
    r ← enrich_leads leads max_leads skip_existing;
    emit (Save r.1).

End Run.

End FindEmails.

(** ** [execution/outscraper_find_emails.py] *)

Module OutscraperFindEmails.

(** The same text as in [find_emails.py]. *)
Definition extract_domain : string → string := FindEmails.extract_domain.
Definition get_field_value : lead → list string → string :=
  FindEmails.get_field_value.

Record stats := {
  total : nat;
  processed : nat;
  skipped_no_domain : nat;
  contacts_found : nat;
  contacts_not_found : nat
}.

Section Run.

(** The dictionary the Outscraper client returns for one domain, the
    fields the loop writes on a lead from it, and whether its [emails]
    list is non-empty. *)
Variable payload : Type.
Variable merge : payload → lead → lead.
Variable has_emails : payload → bool.

(** [OUTSCRAPER_AVAILABLE] and [os.getenv('OUTSCRAPER_API')] *)
Variable library_available : bool.
Variable api_key : option string.

(** [enrich_with_outscraper] for the task numbered [k]: [None] on an
    error or an empty answer. *)
Variable api : nat → option payload.

(** What the user types at the prompt, and the order in which
    [as_completed] yields the futures. *)
Variable typed : string.
Variable order : list nat.

(** [leads_with_domains]: object number and domain of the leads that
    have one. *)
Definition leads_with_domains (leads : list lead) : list (nat * string) :=
  omap (λ il : nat * lead,
          let domain :=
            extract_domain
              (get_field_value il.2
                 ["companyWebsite"; "website"; "companyDomain"; "domain";
                  "company_website"; "company_domain"]) in
          if negb (String.eqb domain "") then Some (il.1, domain) else None)
       (imap (λ i l, (i, l)) leads).

(** The variables of the [as_completed] loop. *)
Record pool_state := {
  objects : list lead;
  enriched_leads : list nat;
  counters : stats
}.

(** One turn of the [as_completed] loop, for the future numbered [k]. *)
Definition complete (leads_to_process : list (nat * string))
    (st : pool_state) (k : nat) : pool_state :=
  match leads_to_process !! k with
  | None => st
  | Some (ref, domain) =>
      let s := counters st in
      match api k with
      | Some data =>
          {| objects := alter (merge data) ref (objects st);
             enriched_leads := enriched_leads st ++ [ref];
             counters :=
               {| total := total s; processed := S (processed s);
                  skipped_no_domain := skipped_no_domain s;
                  contacts_found :=
                    if has_emails data then S (contacts_found s)
                    else contacts_found s;
                  contacts_not_found :=
                    if has_emails data then contacts_not_found s
                    else S (contacts_not_found s) |} |}
      | None =>
          {| objects := objects st;
             enriched_leads := enriched_leads st ++ [ref];
             counters :=
               {| total := total s; processed := S (processed s);
                  skipped_no_domain := skipped_no_domain s;
                  contacts_found := contacts_found s;
                  contacts_not_found := S (contacts_not_found s) |} |}
      end
  end.

(** [for lead in leads: if lead not in enriched_leads: append]: the
    membership test of a list compares the dictionaries by value. *)
Definition add_skipped (store : list lead)
    (enriched : list nat) (n : nat) : list nat :=
  foldl (λ acc i,
           match store !! i with
           | Some l =>
               if bool_decide (l ∈ omap (λ r, store !! r) acc) then acc
               else acc ++ [i]
           | None => acc
           end)
        enriched (seq 0 n).

(** [enrich_leads(leads, max_leads, verbose)]; the calls of the pool are
    listed in the order the tasks are submitted. *)
Definition enrich_leads (leads : list lead) (max_leads : Z)
  : script (list lead * stats) :=
  if negb library_available then sys_exit 1
  else
    match api_key with
    | None => sys_exit 1
    | Some key =>
        if String.eqb key "" then sys_exit 1
        else
          let with_domains := leads_with_domains leads in
          let leads_to_process := Py.slice_to max_leads with_domains in
          emit Prompt ;;
          let response := Py.lower (Py.strip typed) in
          if negb (String.eqb response "yes") then sys_exit 0
          else
            for_each leads_to_process
              (λ _ p, emit (ApiCall p.2)) tt ;;
            let st :=
              foldl (complete leads_to_process)
                {| objects := leads; enriched_leads := [];
                   counters :=
                     {| total := length leads; processed := 0;
                        skipped_no_domain :=
                          length leads - length with_domains;
                        contacts_found := 0;
                        contacts_not_found := 0 |} |}
                order in
            let refs :=
              add_skipped (objects st) (enriched_leads st) (length leads) in
            mret (omap (λ r, objects st !! r) refs, counters st)
    end.

(** [main()], from the loaded leads on. *)
Definition main (leads : list lead) (max_leads : Z) : script unit :=
  if bool_decide (leads = []) then sys_exit 1
  else
    r ← enrich_leads leads max_leads;
    emit (Save r.1).

End Run.

End OutscraperFindEmails.

(** * Notions used in the statements *)

(** Order on the keys the sort compares. *)
Definition key_le {A} (key : A → nat) (x y : A) : Prop := (key x ≤ key y)%nat.

(** ** Field resolvers *)

(** The first key of [keys] whose value in [l] is present and truthy. *)
Fixpoint first_truthy (l : lead) (keys : list string) : option string :=
  match keys with
  | [] => None
  | k :: rest => if Py.has_truthy l k then Some k else first_truthy l rest
  end.

(** The trimmed text of the value at [k]. *)
Definition trimmed (l : lead) (k : string) : string :=
  Py.strip (Py.str (Py.get l k)).

(** Following the specification: the trimmed value of the first key whose
    value is non-empty after trimming. *)
Fixpoint first_non_blank (l : lead) (keys : list string) : option string :=
  match keys with
  | [] => None
  | k :: rest =>
      if Py.has_truthy l k && negb (String.eqb (trimmed l k) "")
      then Some (trimmed l k)
      else first_non_blank l rest
  end.

(** The scheme and slash handling of [get_website_from_lead]. *)
Definition with_scheme (website : string) : string :=
  Py.rstrip_char "/"
    (if negb (Py.startswith "http://" website || Py.startswith "https://" website)
     then "https://" +:+ website else website).

(** The scheme handling of [get_website_url]. *)
Definition as_https (website : string) : string :=
  let website :=
    if Py.startswith "http://" website
    then "https://" +:+ Py.drop 7 website else website in
  if negb (String.eqb website "") && negb (Py.startswith "http" website)
  then "https://" +:+ website else website.

(** ** Calls *)


(** The test [is_cloudflare or is_cloudfront] of [validate_website]. *)
Definition behind_cdn (r : response) : bool :=
  (Py.contains "cloudflare" (Py.lower (text r))
   || Py.contains "cloudflare" (Py.lower (default "" (server r)))
   || cf_ray r)
  || (Py.contains "cloudfront" (Py.lower (text r))
      || Py.contains "cloudfront" (Py.lower (default "" (server r)))).

(** What every result of the tag detector satisfies. *)
Definition well_formed (r : CheckGtmAdwords.detection) : Prop :=
  CheckGtmAdwords.status r ∈ ["analyzed"; "failed"]
  ∧ (CheckGtmAdwords.gtm_container_id r ≠ None →
     CheckGtmAdwords.gtm_installed r = true)
  ∧ (CheckGtmAdwords.google_ads_account_id r ≠ None →
     CheckGtmAdwords.google_ads_detected r = true).

(** ** Batches *)

(** The two fields the task of the lead [l] at index [i] gives, in the
    batch of [validate_websites.py] run over the worker [future_result]. *)
Definition stamp (future_result : nat → string → Z → exn + (string * string))
    (timeout : Z) (i : nat) (l : lead) : lead → lead :=
  let r := ValidateWebsites.result_or_unknown future_result i
             (ValidateWebsites.get_website_url l) timeout in
  ValidateWebsites.annotate r.1 r.2.

(** The lead [l] at index [i], with the two fields its task gives. *)
Definition validated (future_result : nat → string → Z → exn + (string * string))
    (timeout : Z) (i : nat) (l : lead) : lead :=
  stamp future_result timeout i l l.

(** The leads with their indices. *)
Definition indexed (leads : list lead) : list (nat * lead) :=
  imap (λ i l, (i, l)) leads.

Definition with_site (il : nat * lead) : Prop :=
  CheckGtmAdwords.has_website il.2 = true.

Definition site_pair (il : nat * lead) : nat * string * nat :=
  (il.1, default "" (CheckGtmAdwords.get_website_from_lead il.2), il.1).

Definition diag (il : nat * lead) : nat * nat := (il.1, il.1).

(** A lead after the first loop of [analyze_leads]. *)
Definition marked (l : lead) : lead :=
  if CheckGtmAdwords.has_website l then l else CheckGtmAdwords.mark_no_website l.

(** The tasks of a run of [analyze_leads], as its first loop builds them. *)
Definition tasks (leads : list lead) : list (nat * string * nat) :=
  site_pair <$> filter with_site (indexed leads).

(** Number of the task of the lead at index [i]: the leads with a website
    before it. *)
Definition task_of (leads : list lead) (i : nat) : nat :=
  length (filter with_site (take i (indexed leads))).

(** The lead [l] at index [i] as a run of [analyze_leads] over the worker
    [future_result] leaves it. *)
Definition analyzed (future_result : nat → string → Z → exn + CheckGtmAdwords.detection)
    (timeout : Z) (leads : list lead) (i : nat) (l : lead) : lead :=
  if CheckGtmAdwords.has_website l
  then CheckGtmAdwords.annotate
         (CheckGtmAdwords.result_or_failed future_result (task_of leads i)
            (default "" (CheckGtmAdwords.get_website_from_lead l)) timeout) l
  else CheckGtmAdwords.mark_no_website l.


(** The fields [analyze_leads] writes. *)
Definition gtm_fields : list string :=
  ["gtm_installed"; "gtm_container_id"; "google_ads_detected";
   "google_ads_account_id"; "conversion_tracking"; "remarketing_tag";
   "tracking_analysis_status"].

(** A lead as it leaves the loop of [enrich_leads]: untouched, or with the
    three fields of a found address. *)
Definition enriched (l l' : lead) : Prop :=
  l' = l
  ∨ ∃ email confidence verified,
      l' = <["email_verified" := verified]>
             (<["email_confidence" := confidence]> (<["email" := email]> l)).

(** ** The confirmation gate *)

(** The three shapes of a gated run: it ends before the prompt; it shows
    the prompt, is declined and exits with code 0; it shows the prompt and
    is confirmed. *)
Definition gated (confirmed : Prop) (run : script unit) : Prop :=
  (run.1 = [] ∧ ∃ code, run.2 = inl code)
  ∨ (run.1 = [Prompt] ∧ run.2 = inl 0 ∧ ¬ confirmed)
  ∨ (∃ t, run.1 = Prompt :: t ∧ confirmed).

(** ** A run that overruns the rate window *)

(** 806 leads, every other one with a website, so that no pause separates
    two calls.  The first call fails after 5 ms, the second times out three
    times (30 s each, 2 s apart), every later call fails after 5 ms. *)
Definition site_lead : lead := <["website" := VStr "acme.com"]> ∅.
Definition bare_lead : lead := <["name" := VStr "nobody"]> ∅.

Definition burst_leads : list lead :=
  concat (replicate 403 [site_lead; bare_lead]).

Definition burst_api (i attempt : nat) : Z * AnalyzePagespeed.reply :=
  if (i =? 3)%nat
  then (30000, AnalyzePagespeed.Raised (Timeout "read timed out"))
  else (5, AnalyzePagespeed.Raised (ConnectionError "connection reset")).

(** ** Measures of a log *)

(** Time spent in the pauses of a log, in milliseconds. *)
Definition sleep_total (log : list http_event) : Z :=
  foldr (λ e acc, match e with Sleep ms => ms + acc | Request _ _ => acc end)
    0 log.

(** [s.endswith(ch)] for one character. *)
Definition ends_with_char (ch : ascii) (s : string) : bool :=
  match String.rev s with
  | String c _ => Ascii.eqb c ch
  | EmptyString => false
  end.

(** Number of requests and time spent in the pauses of a log of
    [analyze_pagespeed], the latter in milliseconds. *)
Definition gets (log : list AnalyzePagespeed.event) : nat :=
  length (List.filter AnalyzePagespeed.is_get log).

Definition pause_total (log : list AnalyzePagespeed.event) : Z :=
  foldr (λ e acc,
           match e with
           | AnalyzePagespeed.Pause ms => ms + acc
           | AnalyzePagespeed.Get _ _ => acc
           end) 0 log.

(** Two calls of which the second starts at least [SAFE_DELAY] after the
    first. *)
Definition spaced (c d : Z * Z) : Prop :=
  c.1 + AnalyzePagespeed.SAFE_DELAY ≤ d.1.

(** The fields [analyze_leads] of [analyze_pagespeed.py] writes. *)
Definition pagespeed_fields : list string :=
  ["performance_score"; "seo_score"; "pagespeed_status"].

(** The lead [l], numbered [i] from 1, as its turn of the loop of
    [analyze_pagespeed.py] leaves it. *)
Definition scored (api : nat → nat → Z * AnalyzePagespeed.reply)
    (i : nat) (l : lead) : lead :=
  match AnalyzePagespeed.get_website_from_lead l with
  | Some website =>
      if negb (String.eqb website "")
      then AnalyzePagespeed.annotate
             (AnalyzePagespeed.analyze_pagespeed (api i) website).2 l
      else AnalyzePagespeed.mark_no_website l
  | None => AnalyzePagespeed.mark_no_website l
  end.

(** ** The cost of a run of [find_emails.py] *)

(** Number of calls of the paid API in a trace. *)
Definition api_calls (t : list action) : nat :=
  length (List.filter is_api_call t).

(** [get_field_value(lead, 'email', 'personEmail', 'person_email')] is
    empty. *)
Definition without_email (l : lead) : Prop :=
  FindEmails.get_field_value l ["email"; "personEmail"; "person_email"] = "".

(** The count [leads_without_email] of [ask_permission], and the estimate
    [will_process] it shows before the prompt. *)
Definition leads_without_email (leads : list lead) (max_leads : Z) : nat :=
  length (filter without_email (Py.slice_to max_leads leads)).

Definition will_process (leads : list lead) (max_leads : Z)
    (skip_existing : bool) : Z :=
  if skip_existing then Z.of_nat (leads_without_email leads max_leads)
  else Z.min (Z.of_nat (length leads)) max_leads.

(** The keys [enrich_leads] of [find_emails.py] reads the domain from. *)
Definition domain_fields : list string :=
  ["companyWebsite"; "company_website"; "website"; "companyDomain";
   "company_domain"; "domain"].

(** ** [load_from_google_sheets]: from the rows of a sheet to the leads *)

Module Sheets.

(** [row + [''] * (len(headers) - len(row))]: a repetition count below
    zero gives the empty list. *)
Definition pad (headers row : list string) : list string :=
  row ++ replicate (length headers - length row) "".

(** [dict(zip(headers, row))], and [{headers[i]: row[i] for i in
    range(len(headers))}] on a row as long as the headers: the pairs are
    entered from the left, a later one replacing an earlier one with the
    same key. *)
Definition dict_of (pairs : list (string * string)) : lead :=
  foldl (λ d p, <[p.1 := VStr p.2]> d) ∅ pairs.

Definition lead_of_row (headers row : list string) : lead :=
  dict_of (zip headers (pad headers row)).

(** The conversion of [rows], the value of [result.get('values', [])]:
    no lead without rows, else the first row is that of the headers. *)
Definition leads_of_rows (rows : list (list string)) : list lead :=
  match rows with
  | [] => []
  | headers :: rest => lead_of_row headers <$> rest
  end.

End Sheets.

(** ** The counters of [analyze_leads] of [check_gtm_adwords.py] *)

Module GtmStats.
Import CheckGtmAdwords.

(** The dictionary [stats]. *)
Record stats := {
  success_count : nat;
  failed_count : nat;
  gtm_count : nat;
  ads_count : nat;
  conversion_count : nat;
  remarketing_count : nat;
  gtm_only : nat;
  ads_no_conversion : nat;
  no_tracking : nat;
  full_setup : nat
}.

Definition initial_stats : stats := {|
  success_count := 0; failed_count := 0; gtm_count := 0; ads_count := 0;
  conversion_count := 0; remarketing_count := 0; gtm_only := 0;
  ads_no_conversion := 0; no_tracking := 0; full_setup := 0
|}.

(** [stats[k] += 1] under a condition. *)
Definition bump (condition : bool) (n : nat) : nat :=
  if condition then S n else n.

(** The update of [stats] from the result of a task.  The four tests of
    the opportunity breakdown form an [if]/[elif] chain: a test counts
    when the tests before it have failed. *)
Definition update_stats (result : detection) (s : stats) : stats :=
  if String.eqb (status result) "analyzed" then
    let gtm := gtm_installed result in
    let ads := google_ads_detected result in
    let conversion := conversion_tracking result in
    let first := gtm && negb ads in
    let second := ads && negb conversion in
    let third := negb gtm && negb ads in
    let fourth := gtm && conversion in
    {| success_count := S (success_count s);
       failed_count := failed_count s;
       gtm_count := bump gtm (gtm_count s);
       ads_count := bump ads (ads_count s);
       conversion_count := bump conversion (conversion_count s);
       remarketing_count := bump (remarketing_tag result) (remarketing_count s);
       gtm_only := bump first (gtm_only s);
       ads_no_conversion := bump (negb first && second) (ads_no_conversion s);
       no_tracking :=
         bump (negb first && negb second && third) (no_tracking s);
       full_setup :=
         bump (negb first && negb second && negb third && fourth)
           (full_setup s) |}
  else
    {| success_count := success_count s;
       failed_count := S (failed_count s);
       gtm_count := gtm_count s;
       ads_count := ads_count s;
       conversion_count := conversion_count s;
       remarketing_count := remarketing_count s;
       gtm_only := gtm_only s;
       ads_no_conversion := ads_no_conversion s;
       no_tracking := no_tracking s;
       full_setup := full_setup s |}.

Section Pool.

Variable future_result : nat → string → Z → exn + detection.

(** The result the loop has in hand for the future numbered [k]. *)
Definition outcome (timeout : Z) (pairs : list (nat * string * nat))
    (k : nat) : option detection :=
  match pairs !! k with
  | Some (idx, url, ref) => Some (result_or_failed future_result k url timeout)
  | None => None
  end.

(** What one turn of the [as_completed] loop does to [stats]. *)
Definition complete_stats (timeout : Z) (pairs : list (nat * string * nat))
    (s : stats) (k : nat) : stats :=
  match outcome timeout pairs k with
  | Some result => update_stats result s
  | None => s
  end.

(** [stats] at the end of [analyze_leads]. *)
Definition final_stats (leads : list lead) (timeout : Z) (order : list nat)
  : stats :=
  foldl (complete_stats timeout (url_lead_pairs (scan leads)))
    initial_stats order.

End Pool.

(** An analysed site with Google Ads and conversion tracking but without
    GTM: none of the four tests of the breakdown holds for it. *)
Definition left_out (result : detection) : bool :=
  String.eqb (status result) "analyzed"
  && negb (gtm_installed result)
  && google_ads_detected result
  && conversion_tracking result.

(** The tasks of [order] whose result is left out of the breakdown. *)
Definition missed (future_result : nat → string → Z → exn + detection)
    (timeout : Z) (pairs : list (nat * string * nat)) (order : list nat)
  : nat :=
  length
    (filter (λ k, from_option left_out false
                    (outcome future_result timeout pairs k) = true) order).

End GtmStats.


(** ** [export_data_to_sheets] and [save_to_google_sheets]: from the leads
    to the rows of a sheet *)

Module ExportToSheets.

Section Keys.

(** [list(d.keys())]: the keys of a dictionary in the order of their
    insertion, which the embedding of a dictionary does not keep. *)
Variable keys : lead → list string.

(** [str(item.get(k, ""))] *)
Definition cell (item : lead) (k : string) : string :=
  Py.str (default (VStr "") (item !! k)).

(** The rows written, [None] when there is nothing to export: the keys of
    the first item are the headers, and each item gives the row of its
    values under them. *)
Definition rows_of (data : list lead) : option (list (list string)) :=
  match data with
  | [] => None
  | first :: _ =>
      let headers := keys first in
      Some (headers :: ((λ item, cell item <$> headers) <$> data))
  end.

End Keys.

End ExportToSheets.

(** A lead all of whose values are texts, and two leads with the same
    keys. *)
Definition all_text (l : lead) : Prop :=
  ∀ k v, l !! k = Some v → ∃ s, v = VStr s.

Definition same_keys (l first : lead) : Prop :=
  ∀ k, is_Some (l !! k) ↔ is_Some (first !! k).

(** Leads as a sheet gives them: each has the keys of [first], with texts
    under them. *)
Definition uniform (first : lead) (leads : list lead) : Prop :=
  ∀ l, l ∈ leads → same_keys l first ∧ all_text l.

(** * Properties *)

(** ** Sorting on a key *)

Section SortedByKey.
Context {A : Type} (key : A → nat).

Lemma insert_by_key_perm x (l : list A) : insert_by_key key x l ≡ₚ x :: l.
Proof.
  induction l as [|y l IH]; simpl; [done|].
  destruct (key x <=? key y)%nat; [done|].
  rewrite IH. apply Permutation_swap.
Qed.

Lemma sorted_by_key_perm (l : list A) : sorted_by_key key l ≡ₚ l.
Proof.
  induction l as [|x l IH]; simpl; [done|].
  by rewrite insert_by_key_perm, IH.
Qed.

Lemma insert_by_key_sorted x (l : list A) :
  StronglySorted (key_le key) l →
  StronglySorted (key_le key) (insert_by_key key x l).
Proof.
  induction 1 as [|y l Hl IH Hy]; simpl.
  { repeat constructor. }
  destruct (Nat.leb_spec (key x) (key y)) as [Hxy|Hxy].
  - constructor; [by constructor|].
    constructor; [done|].
    eapply Forall_impl; [exact Hy|]. unfold key_le. intros; simpl in *; lia.
  - constructor; [done|].
    rewrite insert_by_key_perm. constructor; [|done].
    unfold key_le. lia.
Qed.

Lemma sorted_by_key_sorted (l : list A) :
  StronglySorted (key_le key) (sorted_by_key key l).
Proof.
  induction l; simpl; [constructor|by apply insert_by_key_sorted].
Qed.

(** A list that is a rearrangement of a list with strictly increasing
    keys is sorted into that list. *)
Lemma sorted_by_key_unique (l l' : list A) :
  l ≡ₚ l' →
  StronglySorted (λ x y, key x < key y)%nat l' →
  sorted_by_key key l = l'.
Proof.
  intros Hperm Hs.
  apply (StronglySorted_unique_strong (key_le key)).
  - intros x1 x2 H1 H2 Hle Hge.
    rewrite sorted_by_key_perm, Hperm in H1.
    assert (key x1 = key x2) as Hk by (unfold key_le in *; lia).
    clear Hle Hge Hperm. induction Hs as [|z l' Hs IH Hz]; [by inv H1|].
    rewrite Forall_forall in Hz.
    inv H1; inv H2; try done.
    + match goal with H : _ ∈ l' |- _ => apply Hz in H; lia end.
    + match goal with H : _ ∈ l' |- _ => apply Hz in H; lia end.
    + auto.
  - apply sorted_by_key_sorted.
  - clear Hperm. induction Hs as [|z l' Hs IH Hz]; constructor; [done|].
    eapply Forall_impl; [exact Hz|]. unfold key_le. intros; simpl in *; lia.
  - by rewrite sorted_by_key_perm.
Qed.

End SortedByKey.

(** The list [(0, f 0 x0), (1, f 1 x1), ...] has strictly increasing first
    components. *)
Lemma imap_strictly_sorted {A B} (key : B → nat) (f : nat → A → B)
    (l : list A) :
  (∀ i x, key (f i x) = i) →
  StronglySorted (λ x y, key x < key y)%nat (imap f l).
Proof.
  intros Hkey.
  assert (∀ k (g : nat → A → B), (∀ i x, key (g i x) = k + i)%nat →
            StronglySorted (λ x y, key x < key y)%nat (imap g l)) as Hgen.
  { induction l as [|x l IH]; intros k g Hg; simpl; constructor.
    - apply (IH (S k)). intros i y. unfold compose. rewrite Hg. lia.
    - apply Forall_forall. intros y Hy.
      apply list_elem_of_lookup in Hy as [j Hj].
      rewrite list_lookup_imap in Hj.
      destruct (l !! j) as [z|]; simplify_eq/=.
      unfold compose. rewrite !Hg. lia. }
  apply (Hgen 0%nat). intros. by rewrite Hkey.
Qed.

(** Reading the objects [0 .. n-1] of a store of [n] objects gives the
    store. *)
Lemma omap_lookup_refs {A B C} (s junk : list A) (F : nat → B → C)
    (ref : C → nat) (l : list B) :
  (∀ i x, ref (F i x) = length junk + i)%nat →
  length l = length s →
  omap (λ p, (junk ++ s) !! ref p) (imap F l) = s.
Proof.
  revert s junk F. induction l as [|x l IH]; intros [|y s] junk F HF Hlen;
    simplify_eq/=; [done|].
  rewrite HF, Nat.add_0_r, list_lookup_middle by done. simpl. f_equal.
  replace (junk ++ y :: s) with ((junk ++ [y]) ++ s) by by rewrite <-app_assoc.
  apply IH; [|done].
  intros i z. unfold compose. rewrite HF, length_app. simpl. lia.
Qed.

(** ** The batch of [validate_websites.py] *)

Section ValidateBatch.
Import ValidateWebsites.
Variable future_result : nat → string → Z → exn + (string * string).
Variable timeout : Z.

Lemma url_lead_pairs_sorted (leads : list lead) :
  sorted_by_key (λ p, p.1.1) (url_lead_pairs leads) = url_lead_pairs leads.
Proof.
  apply sorted_by_key_unique; [done|].
  apply (imap_strictly_sorted (λ p : nat * string * nat, p.1.1)). done.
Qed.

Lemma complete_lookup (leads store : list lead) (k i : nat) :
  complete future_result timeout (url_lead_pairs leads) store k !! i
  = match leads !! k with
    | Some l => if decide (i = k) then stamp future_result timeout k l <$> store !! i else store !! i
    | None => store !! i
    end.
Proof.
  unfold complete, url_lead_pairs. rewrite list_lookup_imap.
  destruct (leads !! k) as [l|]; simpl; [|done].
  unfold stamp. destruct (result_or_unknown _ _ _ _) as [st msg]; simpl.
  destruct (decide (i = k)) as [->|Hne].
  - by rewrite list_lookup_alter_eq.
  - by rewrite list_lookup_alter_ne.
Qed.

Lemma complete_all (leads : list lead) (order : list nat) :
  NoDup order →
  ∀ (store : list lead) i,
    foldl (complete future_result timeout (url_lead_pairs leads)) store order !! i
    = match leads !! i with
      | Some l => if decide (i ∈ order) then stamp future_result timeout i l <$> store !! i
                  else store !! i
      | None => store !! i
      end.
Proof.
  induction 1 as [|k order Hk Hnd IH]; intros store i; simpl.
  { by destruct (leads !! i). }
  rewrite IH, complete_lookup.
  destruct (decide (i = k)) as [->|Hne].
  - destruct (leads !! k) as [l|] eqn:Hl; simpl; [|done].
    rewrite decide_False by done. rewrite decide_True; [done|].
    by apply elem_of_cons; left.
  - assert (match leads !! k with
            | Some _ => store !! i
            | None => store !! i
            end = store !! i) as -> by by destruct (leads !! k).
    destruct (leads !! i); [|done].
    destruct (decide (i ∈ order)) as [Hin|Hin].
    + rewrite decide_True; [done|]. by apply elem_of_cons; right.
    + rewrite decide_False; [done|]. by intros [?|?]%elem_of_cons.
Qed.

(** Whatever the order of completion, the batch returns the input leads,
    each with the fields of its own task. *)
Lemma validate_websites_batch_with_spec (leads : list lead) (order : list nat) :
  order ≡ₚ seq 0 (length leads) →
  validate_websites_batch_with future_result leads timeout order
  = imap (validated future_result timeout) leads.
Proof.
  intros Hperm. unfold validate_websites_batch_with.
  rewrite url_lead_pairs_sorted.
  assert (foldl (complete future_result timeout (url_lead_pairs leads)) leads order
          = imap (validated future_result timeout) leads) as ->.
  { apply list_eq. intros i.
    rewrite complete_all by (rewrite Hperm; apply NoDup_seq).
    rewrite list_lookup_imap.
    destruct (leads !! i) as [l|] eqn:Hl; [|done].
    rewrite decide_True; [done|].
    rewrite Hperm, elem_of_seq. apply lookup_lt_Some in Hl. lia. }
  apply (omap_lookup_refs (imap (validated future_result timeout) leads) []
           (λ i l, (i, get_website_url l, i)) snd leads);
    [done|by rewrite length_imap].
Qed.

End ValidateBatch.

(** ** The batch of [check_gtm_adwords.py] *)

Section GtmBatch.
Import CheckGtmAdwords.

Lemma scan_step_cases (st : partition) (i : nat) (l : lead) :
  scan_step st (i, l)
  = if has_website l
    then {| url_lead_pairs := url_lead_pairs st ++ [site_pair (i, l)];
            no_website_leads := no_website_leads st;
            objects := objects st |}
    else {| url_lead_pairs := url_lead_pairs st;
            no_website_leads := no_website_leads st ++ [(i, i)];
            objects := alter mark_no_website i (objects st) |}.
Proof.
  unfold scan_step, has_website, site_pair. simpl.
  destruct (get_website_from_lead l) as [w|]; [|done].
  by destruct (negb (w =? "")%string).
Qed.

Lemma scan_from (rest pre : list lead) (g : nat → nat) (st : partition) :
  (∀ i, g i = length pre + i)%nat →
  objects st = pre ++ rest →
  foldl scan_step st (imap (λ i l, (g i, l)) rest)
  = {| url_lead_pairs :=
         url_lead_pairs st
         ++ (site_pair <$> filter with_site (imap (λ i l, (g i, l)) rest));
       no_website_leads :=
         no_website_leads st
         ++ (diag <$> filter (λ il, ¬ with_site il) (imap (λ i l, (g i, l)) rest));
       objects := pre ++ (marked <$> rest) |}.
Proof.
  revert pre g st. induction rest as [|l rest IH]; intros pre g st Hg Hobj.
  { simpl. rewrite !app_nil_r. destruct st; simpl in *. by rewrite Hobj, app_nil_r. }
  rewrite imap_cons. cbn [foldl]. cbv beta.
  rewrite (IH (pre ++ [marked l]) (g ∘ S)).
  - rewrite scan_step_cases. unfold marked at 2, with_site.
    rewrite !filter_cons. simpl.
    destruct (has_website l) eqn:Hw; simpl.
    + f_equal; by rewrite <-?app_assoc.
    + f_equal; by rewrite <-?app_assoc.
  - intros i. unfold compose. rewrite Hg, length_app. simpl. lia.
  - rewrite scan_step_cases. unfold marked.
    destruct (has_website l); simpl; rewrite Hobj.
    + by rewrite <-app_assoc.
    + rewrite Hg, alter_app_r. by rewrite <-app_assoc.
Qed.

Lemma scan_spec (leads : list lead) :
  scan leads
  = {| url_lead_pairs := site_pair <$> filter with_site (indexed leads);
       no_website_leads := diag <$> filter (λ il, ¬ with_site il) (indexed leads);
       objects := marked <$> leads |}.
Proof. unfold scan. by rewrite (scan_from leads [] id). Qed.

Lemma indexed_lookup (leads : list lead) (i : nat) :
  indexed leads !! i = (λ l, (i, l)) <$> leads !! i.
Proof. unfold indexed. by rewrite list_lookup_imap. Qed.

Lemma elem_of_indexed (leads : list lead) (il : nat * lead) :
  il ∈ indexed leads ↔ leads !! il.1 = Some il.2.
Proof.
  destruct il as [i l]. rewrite list_elem_of_lookup. simpl. split.
  - intros [j Hj]. rewrite indexed_lookup in Hj.
    destruct (leads !! j) eqn:E; simplify_eq/=. done.
  - intros H. exists i. by rewrite indexed_lookup, H.
Qed.

Lemma indexed_fst (leads : list lead) :
  fst <$> indexed leads = seq 0 (length leads).
Proof.
  unfold indexed. rewrite fmap_imap.
  rewrite <-(list_fmap_id (seq 0 (length leads))).
  apply (imap_seq_0 leads id).
Qed.

Lemma NoDup_indexed (leads : list lead) : NoDup (indexed leads).
Proof.
  apply (NoDup_fmap_1 fst). rewrite indexed_fst. apply NoDup_seq.
Qed.

Lemma tasks_refs_NoDup (leads : list lead) : NoDup (snd <$> tasks leads).
Proof.
  unfold tasks. rewrite <-list_fmap_compose.
  apply NoDup_fmap_2_strong.
  - intros [i l] [j l'] Hx Hy Heq. simpl in Heq. subst j.
    apply list_elem_of_filter in Hx as [_ Hx], Hy as [_ Hy].
    apply elem_of_indexed in Hx, Hy. simpl in *. congruence.
  - apply NoDup_filter, NoDup_indexed.
Qed.

Lemma tasks_lookup (leads : list lead) (i : nat) (l : lead) :
  leads !! i = Some l → has_website l = true →
  tasks leads !! task_of leads i = Some (site_pair (i, l)).
Proof.
  intros Hl Hw. unfold tasks, task_of.
  assert (indexed leads !! i = Some (i, l)) as Hi
    by by rewrite indexed_lookup, Hl.
  set (n := length (filter with_site (take i (indexed leads)))).
  rewrite <-(take_drop_middle _ _ _ Hi).
  rewrite filter_app, filter_cons_True by done.
  rewrite fmap_app, fmap_cons. subst n.
  rewrite <-(length_fmap site_pair). by apply list_lookup_middle.
Qed.

Lemma tasks_elem (leads : list lead) (p : nat * string * nat) :
  p ∈ tasks leads →
  ∃ l, leads !! p.2 = Some l ∧ has_website l = true ∧ p = site_pair (p.2, l).
Proof.
  unfold tasks. intros ([i l] & -> & Hin)%list_elem_of_fmap.
  apply list_elem_of_filter in Hin as [Hw Hin].
  apply elem_of_indexed in Hin. exists l. done.
Qed.

Section Completion.
Variable future_result : nat → string → Z → exn + detection.
Variable timeout : Z.
Variable pairs : list (nat * string * nat).
Hypothesis refs_NoDup : NoDup (snd <$> pairs).

Lemma gtm_complete_lookup (store : list lead) (k j : nat) :
  complete future_result timeout pairs store k !! j
  = match pairs !! k with
    | Some p =>
        if decide (j = p.2)
        then annotate (result_or_failed future_result k p.1.2 timeout)
               <$> store !! j
        else store !! j
    | None => store !! j
    end.
Proof.
  unfold complete. destruct (pairs !! k) as [[[idx url] ref]|]; [|done].
  simpl. destruct (decide (j = ref)) as [->|Hne].
  - by rewrite list_lookup_alter_eq.
  - by rewrite list_lookup_alter_ne.
Qed.

Lemma gtm_complete_other (order : list nat) (store : list lead) (j : nat) :
  (∀ k p, k ∈ order → pairs !! k = Some p → p.2 ≠ j) →
  foldl (complete future_result timeout pairs) store order !! j = store !! j.
Proof.
  revert store. induction order as [|k order IH]; intros store Hno; [done|].
  simpl. rewrite IH by (intros; eapply Hno; [by right|done]).
  rewrite gtm_complete_lookup.
  destruct (pairs !! k) as [p|] eqn:Hp; [|done].
  rewrite decide_False; [done|].
  intros ->. by eapply (Hno k p); [left|..].
Qed.

Lemma gtm_complete_hit (order : list nat) (store : list lead)
    (k : nat) (p : nat * string * nat) :
  NoDup order → k ∈ order → pairs !! k = Some p →
  foldl (complete future_result timeout pairs) store order !! p.2
  = annotate (result_or_failed future_result k p.1.2 timeout)
      <$> store !! p.2.
Proof.
  intros Hnd. revert store.
  induction Hnd as [|k' order Hk' Hnd IH]; intros store Hin Hp.
  { by apply elem_of_nil in Hin. }
  simpl. apply elem_of_cons in Hin as [->|Hin].
  - rewrite gtm_complete_other.
    + by rewrite gtm_complete_lookup, Hp, decide_True.
    + intros k'' p' Hk'' Hp' Heq.
      assert (k'' = k'); [|by subst].
      eapply NoDup_alt; [exact refs_NoDup|..];
        rewrite list_lookup_fmap; [by rewrite Hp'|by rewrite Hp, Heq].
  - rewrite IH by done. rewrite gtm_complete_lookup.
    destruct (pairs !! k') as [p'|] eqn:Hp'; [|done].
    rewrite decide_False; [done|].
    intros Heq. assert (k = k'); [|by subst].
    eapply NoDup_alt; [exact refs_NoDup|..];
      rewrite list_lookup_fmap; [by rewrite Hp|by rewrite Hp', Heq].
Qed.

End Completion.

Lemma merged_sorted (leads : list lead) :
  sorted_by_key fst
    (((λ p : nat * string * nat, (p.1.1, p.2)) <$> tasks leads)
     ++ (diag <$> filter (λ il, ¬ with_site il) (indexed leads)))
  = imap (λ i _, (i, i)) leads.
Proof.
  apply sorted_by_key_unique.
  - unfold tasks. rewrite <-list_fmap_compose.
    change ((λ p : nat * string * nat, (p.1.1, p.2)) ∘ site_pair) with diag.
    rewrite <-fmap_app, filter_app_complement.
    unfold indexed. by rewrite fmap_imap.
  - by apply (imap_strictly_sorted fst).
Qed.

Section Spec.
Variable future_result : nat → string → Z → exn + detection.
Variable timeout : Z.

(** Whatever the order of completion, the run returns the input leads,
    each with the fields of its own task or marked as without website. *)
Lemma analyze_leads_with_spec (leads : list lead) (order : list nat) :
  order ≡ₚ seq 0 (length (tasks leads)) →
  analyze_leads_with future_result leads timeout order
  = imap (analyzed future_result timeout leads) leads.
Proof.
  intros Hperm. unfold analyze_leads_with. rewrite scan_spec.
  cbn [url_lead_pairs no_website_leads objects]. fold (tasks leads).
  destruct (Nat.eqb_spec (length (tasks leads)) 0) as [Hnone|Hsome].
  - apply list_eq. intros i. rewrite list_lookup_fmap, list_lookup_imap.
    destruct (leads !! i) as [l|] eqn:Hl; [|done]. simpl. f_equal.
    unfold marked, analyzed.
    destruct (has_website l) eqn:Hw; [|done].
    apply (tasks_lookup _ _ _ Hl) in Hw.
    apply lookup_lt_Some in Hw. lia.
  - rewrite merged_sorted.
    assert (foldl (complete future_result timeout (tasks leads))
              (marked <$> leads) order = imap (analyzed future_result timeout leads) leads) as ->.
    { apply list_eq. intros i. rewrite list_lookup_imap.
      destruct (leads !! i) as [l|] eqn:Hl.
      - unfold analyzed. destruct (has_website l) eqn:Hw.
        + pose proof (tasks_lookup _ _ _ Hl Hw) as Hk.
          rewrite (gtm_complete_hit future_result timeout (tasks leads)
                     (tasks_refs_NoDup leads) order (marked <$> leads)
                     (task_of leads i) (site_pair (i, l)));
            [| rewrite Hperm; apply NoDup_seq
             | rewrite Hperm, elem_of_seq; apply lookup_lt_Some in Hk; lia
             | done].
          simpl. rewrite list_lookup_fmap, Hl. simpl.
          unfold marked. by rewrite Hw.
        + rewrite gtm_complete_other.
          * rewrite list_lookup_fmap, Hl. simpl. unfold marked. by rewrite Hw.
          * intros k p _ Hp Heq.
            apply list_elem_of_lookup_2, tasks_elem in Hp as (l' & Hl' & Hw' & _).
            rewrite Heq in Hl'. congruence.
      - rewrite gtm_complete_other.
        + by rewrite list_lookup_fmap, Hl.
        + intros k p _ Hp Heq.
          apply list_elem_of_lookup_2, tasks_elem in Hp as (l' & Hl' & _).
          rewrite Heq in Hl'. congruence. }
    apply (omap_lookup_refs (imap (analyzed future_result timeout leads) leads) []
             (λ i _, (i, i)) snd leads); [done|by rewrite length_imap].
Qed.

End Spec.

End GtmBatch.

(** ** The retry loop of [validate_website] *)

Section ValidateWebsite.
Import ValidateWebsites.
Variable http_head http_get : Z → http_result.

Lemma count_method_app (m : string) (l1 l2 : list http_event) :
  count_method m (l1 ++ l2) = (count_method m l1 + count_method m l2)%nat.
Proof. unfold count_method. by rewrite List.filter_app, length_app. Qed.

Lemma count_head_backoff (rc : Z) : count_method "HEAD" (backoff rc) = 0%nat.
Proof. unfold backoff. by destruct (0 <? rc). Qed.

Lemma count_head_fetch (url : string) (rc : Z) :
  count_method "HEAD" (fetch http_head http_get url rc).1 = 1%nat.
Proof.
  unfold fetch. destruct (http_head rc) as [e|r]; [done|].
  by destruct (status_code r =? 405).
Qed.

(** Induction along the retries: a property of the call at [retry_count]
    may use the property of the call at [retry_count + 1] when
    [retry_count < max_retries]. *)
Lemma retry_ind (max_retries : Z) (P : Z → Prop) :
  (∀ rc, (rc < max_retries → P (rc + 1)) → P rc) → ∀ rc, P rc.
Proof.
  intros Hstep rc.
  remember (Z.to_nat (max_retries - rc)) as n eqn:Hn.
  revert rc Hn. induction n as [|n IH]; intros rc Hn; apply Hstep; intros Hlt.
  - lia.
  - apply IH. lia.
Qed.

Ltac vw_cases :=
  rewrite validate_website_equation_1; cbv zeta;
  repeat match goal with
    | |- context [match fetch ?a ?b ?c ?d with _ => _ end] =>
        let E := fresh "Hfetch" in
        destruct (fetch a b c d) as [? [[]|]] eqn:E
    | |- context [match Z_lt_dec ?a ?b with _ => _ end] =>
        destruct (Z_lt_dec a b)
    | |- context [let '(_, _) := validate_website ?a ?b ?c ?d ?e ?f in _] =>
        let E := fresh "Hrec" in
        destruct (validate_website a b c d e f) as [? [? ?]] eqn:E
    | |- context [if ?b then _ else _] => destruct b eqn:?
    end.



(** No call makes more than [max_retries - retry_count + 1] attempts. *)
Lemma validate_website_attempts_le (url : string) (timeout rc mr : Z) :
  (count_method "HEAD" (validate_website http_head http_get url timeout rc mr).1
   ≤ Z.to_nat (mr - rc) + 1)%nat.
Proof.
  revert rc. apply (retry_ind mr). intros rc IH.
  pose proof (count_head_fetch url rc) as Hf.
  pose proof (count_head_backoff rc) as Hb.
  vw_cases; simpl; try specialize (IH ltac:(lia));
    rewrite ?count_method_app; simpl in *;
    first [lia | change (count_method "HEAD" []) with 0%nat; lia].
Qed.




End ValidateWebsite.

(** ** The field resolvers *)


Lemma or_chain_first_truthy (l : lead) (keys : list string) :
  foldr (λ k acc, Py.or_ (Py.get l k) acc) (VStr "") keys
  = from_option (Py.get l) (VStr "") (first_truthy l keys).
Proof.
  induction keys as [|k keys IH]; simpl; [done|].
  unfold Py.or_, Py.has_truthy, Py.get at 1 3.
  destruct (l !! k) as [v|]; simpl; [|done].
  by destruct (Py.truthy v).
Qed.

Lemma get_website_url_first_truthy (l : lead) :
  ValidateWebsites.get_website_url l
  = as_https (Py.strip (Py.str (from_option (Py.get l) (VStr "")
                                  (first_truthy l ValidateWebsites.website_keys)))).
Proof.
  rewrite <-or_chain_first_truthy. reflexivity.
Qed.

Lemma first_website_first_non_blank (l : lead) (fields : list string) :
  CheckGtmAdwords.first_website fields l
  = with_scheme <$> first_non_blank l fields.
Proof.
  induction fields as [|k fields IH]; simpl; [done|].
  fold (trimmed l k).
  destruct (Py.has_truthy l k); simpl; [|done].
  by destruct (negb (trimmed l k =? "")%string).
Qed.

(** ** The tag detector *)

Section Detection.
Import CheckGtmAdwords.
Variable re_search : pattern → string → option string.
Variable http_get : nat → string → http_result.

Lemma initial_result_well_formed : well_formed initial_result.
Proof.
  split; [|split]; simpl; [|done..].
  apply elem_of_cons; right. apply elem_of_cons; by left.
Qed.

Lemma analyze_html_well_formed (r : detection) (html : string) :
  well_formed r → well_formed (analyze_html re_search r html).
Proof.
  intros (_ & Hgtm & Hads). unfold analyze_html.
  destruct (re_search GtagJs html), (re_search LegacyConversionId html),
    (re_search AdsConfig html), (first_match re_search [GtmJs; GtmNs] html);
    (split; [|split]); cbn [status gtm_container_id gtm_installed
                            google_ads_account_id google_ads_detected];
    auto; apply elem_of_cons; by left.
Qed.

Lemma set_analyzed_well_formed (r : detection) :
  well_formed r → well_formed (set_analyzed r).
Proof.
  intros (_ & Hgtm & Hads). split; [|split]; simpl; [|done..].
  apply elem_of_cons; by left.
Qed.

Lemma attempt_loop_well_formed (url : string) (attempts : list nat)
    (r : detection) :
  well_formed r →
  well_formed (attempt_loop re_search http_get url attempts r).2.
Proof.
  intros Hr. induction attempts as [|a attempts IH]; simpl; [done|].
  destruct (http_get a url) as [[]|resp].
  - destruct (http_get a _) as [e|resp].
    + by destruct (attempt_loop _ _ _ _ _).
    + destruct (status_code resp =? 200); simpl.
      * by apply set_analyzed_well_formed.
      * by destruct (attempt_loop _ _ _ _ _).
  - by destruct (attempt_loop _ _ _ _ _).
  - done.
  - done.
  - done.
  - destruct (negb (status_code resp =? 200)); simpl.
    + by destruct (attempt_loop _ _ _ _ _).
    + by apply analyze_html_well_formed.
Qed.

End Detection.

(** * The claims of the specification *)

(** C10.  Every result of [detect_gtm_and_ads] has the status ["analyzed"]
    or ["failed"]; it carries a GTM container id only when GTM is reported
    installed, and a Google Ads account id only when Google Ads is reported
    detected.  This holds for every page text, every behaviour of the
    regular-expression engine and every behaviour of the network. *)
Theorem C10_detect_result_well_formed
    (re_search : CheckGtmAdwords.pattern → string → option string)
    (http_get : nat → string → http_result) (url : string) :
  let r := (CheckGtmAdwords.detect_gtm_and_ads re_search http_get url).2 in
  CheckGtmAdwords.status r ∈ ["analyzed"; "failed"]
  ∧ (CheckGtmAdwords.gtm_container_id r = None
     ∨ CheckGtmAdwords.gtm_installed r = true)
  ∧ (CheckGtmAdwords.google_ads_account_id r = None
     ∨ CheckGtmAdwords.google_ads_detected r = true).
Proof.
  intros r.
  destruct (attempt_loop_well_formed re_search http_get url
              (seq 0 CheckGtmAdwords.MAX_RETRIES) CheckGtmAdwords.initial_result
              initial_result_well_formed) as (Hst & Hgtm & Hads).
  fold (CheckGtmAdwords.detect_gtm_and_ads re_search http_get url) in Hst, Hgtm, Hads.
  fold r in Hst, Hgtm, Hads.
  split; [exact Hst|split].
  - destruct (CheckGtmAdwords.gtm_container_id r); [right; by apply Hgtm|by left].
  - destruct (CheckGtmAdwords.google_ads_account_id r); [right; by apply Hads|by left].
Qed.






(** A response that is neither a success nor a block of a CDN is recorded
    as invalid at once. *)
Lemma validate_website_invalid (http_head http_get : Z → http_result)
    (url : string) (timeout rc mr : Z) (reqs : list http_event) (resp : response) :
  url ≠ "" →
  ValidateWebsites.fetch http_head http_get url rc = (reqs, inr resp) →
  (200 <=? status_code resp) && (status_code resp <? 300) = false →
  behind_cdn resp
  && ((status_code resp =? 403) || (status_code resp =? 429)) = false →
  ValidateWebsites.validate_website http_head http_get url timeout rc mr
  = (ValidateWebsites.backoff rc ++ reqs,
     ("invalid", Py.str_of_Z (status_code resp) +:+ " " +:+ reason resp)).
Proof.
  intros Hurl Hfetch Hok Hcdn.
  rewrite ValidateWebsites.validate_website_equation_1.
  apply String.eqb_neq in Hurl. rewrite Hurl, Hfetch. cbv zeta.
  rewrite Hok. unfold behind_cdn in Hcdn. by rewrite Hcdn.
Qed.

(** A 403 from behind a CDN is retried while the budget lasts. *)
Lemma validate_website_cdn_403 (http_head http_get : Z → http_result)
    (url : string) (timeout rc mr : Z) (reqs : list http_event) (resp : response) :
  url ≠ "" → rc < mr →
  ValidateWebsites.fetch http_head http_get url rc = (reqs, inr resp) →
  status_code resp = 403 → behind_cdn resp = true →
  ValidateWebsites.validate_website http_head http_get url timeout rc mr
  = ((ValidateWebsites.backoff rc ++ reqs)
       ++ (ValidateWebsites.validate_website http_head http_get url timeout
             (rc + 1) mr).1,
     (ValidateWebsites.validate_website http_head http_get url timeout
        (rc + 1) mr).2).
Proof.
  intros Hurl Hlt Hfetch Hcode Hcdn.
  rewrite ValidateWebsites.validate_website_equation_1 at 1.
  apply String.eqb_neq in Hurl. rewrite Hurl, Hfetch. cbv zeta.
  rewrite Hcode. simpl ((200 <=? 403) && (403 <? 300)). cbv iota.
  unfold behind_cdn in Hcdn. rewrite Hcdn. simpl (true && _). cbv iota.
  destruct (Z_lt_dec rc mr); [|lia].
  by destruct (ValidateWebsites.validate_website _ _ _ _ (rc + 1) _).
Qed.

(** C6, counterexample.  Every request is answered 404: the tag detector
    makes its two attempts and returns ["failed"]; it does not stop at the
    first answer and has no ["invalid"] status. *)
Lemma C6_detector_retries_404 :
  let resp := {| status_code := 404; reason := "Not Found"; text := "";
                 server := None; cf_ray := false |} in
  let r := CheckGtmAdwords.detect_gtm_and_ads
             (λ _ _, None) (λ _ _, inr resp) "https://acme.com" in
  count_method "GET" r.1 = 2%nat
  ∧ count_method "GET" r.1 ≠ 1%nat
  ∧ CheckGtmAdwords.status r.2 = "failed"
  ∧ CheckGtmAdwords.status r.2 ≠ "invalid".
Proof. vm_compute. repeat split; congruence. Qed.

(** C6, amended.  In [validate_website] a 4xx answer other than 429 is
    recorded at once as ["invalid"], with no further attempt, unless it is a
    403 from behind Cloudflare or CloudFront, which is retried while the
    retry budget lasts (the answer meant is the one to the GET request when
    the HEAD request was answered 405).  In [detect_gtm_and_ads] every answer
    other than 200, a 4xx included, goes on to the next attempt, and after
    the two attempts the result is ["failed"]. *)
Theorem C6_client_errors (http_head http_get : Z → http_result)
    (re_search : CheckGtmAdwords.pattern → string → option string)
    (url : string) (timeout rc mr : Z)
    (reqs : list http_event) (resp : response) :
  url ≠ "" →
  ValidateWebsites.fetch http_head http_get url rc = (reqs, inr resp) →
  400 ≤ status_code resp < 500 → status_code resp ≠ 429 →
  let validate := ValidateWebsites.validate_website http_head http_get url timeout in
  let detect := CheckGtmAdwords.detect_gtm_and_ads re_search (λ _ _, inr resp) url in
  (behind_cdn resp = false ∨ status_code resp ≠ 403 →
   validate rc mr
   = (ValidateWebsites.backoff rc ++ reqs,
      ("invalid", Py.str_of_Z (status_code resp) +:+ " " +:+ reason resp)))
  ∧ (behind_cdn resp = true ∧ status_code resp = 403 ∧ rc < mr →
     validate rc mr
     = ((ValidateWebsites.backoff rc ++ reqs) ++ (validate (rc + 1) mr).1,
        (validate (rc + 1) mr).2))
  ∧ count_method "GET" detect.1 = 2%nat
  ∧ CheckGtmAdwords.status detect.2 = "failed".
Proof.
  intros Hurl Hfetch Hrange Hne validate detect. split; [|split].
  - intros Hcdn. apply (validate_website_invalid _ _ _ _ _ _ reqs resp); [done..| |].
    + apply andb_false_iff. right. lia.
    + destruct Hcdn as [->|H403]; [done|].
      apply andb_false_iff. right. apply orb_false_iff. lia.
  - intros (Hcdn & Hcode & Hlt).
    by apply (validate_website_cdn_403 _ _ _ _ _ _ reqs resp).
  - subst detect. unfold CheckGtmAdwords.detect_gtm_and_ads. simpl.
    assert ((status_code resp =? 200) = false) as -> by lia. simpl.
    unfold count_method. simpl. done.
Qed.

(** C6 at an address that answers 404. *)
Lemma C6_client_errors_witness :
  let resp := {| status_code := 404; reason := "Not Found"; text := "";
                 server := None; cf_ray := false |} in
  ValidateWebsites.validate_website (λ _, inr resp) (λ _, inr resp)
    "https://acme.com" 10 0 3
  = ([Request "HEAD" "https://acme.com"], ("invalid", "404 Not Found")).
Proof.
  intros resp.
  refine (proj1 (C6_client_errors (λ _, inr resp) (λ _, inr resp) (λ _ _, None)
                   "https://acme.com" 10 0 3
                   [Request "HEAD" "https://acme.com"] resp
                   _ _ _ _) _).
  - done.
  - reflexivity.
  - simpl. lia.
  - simpl. lia.
  - left. reflexivity.
Defined.


(** ** The claims on the batches *)








(** C7, counterexample.  A lead without any website field:
    [validate_websites_batch] hands it to the executor like every other
    lead, with an empty URL. *)
Lemma C7_record_without_url_is_submitted :
  let l : lead := <["name" := VStr "nobody"]> ∅ in
  ValidateWebsites.get_website_url l = ""
  ∧ ValidateWebsites.submitted [l] = [(0%nat, "")]
  ∧ ValidateWebsites.submitted [l] ≠ [].
Proof. vm_compute. repeat split; congruence. Qed.

Lemma gtm_submitted_spec (leads : list lead) :
  CheckGtmAdwords.submitted leads
  = (λ p : nat * string * nat, (p.1.1, p.1.2)) <$> tasks leads.
Proof. unfold CheckGtmAdwords.submitted. by rewrite scan_spec. Qed.

(** C7, amended.  A record from which no website can be resolved causes no
    external call and receives the ineligible status.  [analyze_leads] marks
    it ["no_website"] in its first loop and never hands it to the executor.
    [validate_websites_batch] hands every record to the executor, this one
    with an empty URL; the task then returns ["no_url"] before any request
    is made, and that status is written on the record. *)
Theorem C7_ineligible_records
    (http_head http_get : nat → Z → http_result)
    (re_search : CheckGtmAdwords.pattern → string → option string)
    (gtm_get : nat → nat → string → http_result)
    (leads : list lead) (timeout : Z) (order order' : list nat)
    (i : nat) (l : lead) :
  order ≡ₚ seq 0 (length leads) →
  order' ≡ₚ seq 0 (length (CheckGtmAdwords.url_lead_pairs
                              (CheckGtmAdwords.scan leads))) →
  leads !! i = Some l →
  (CheckGtmAdwords.has_website l = false →
   (i ∉ (fst <$> CheckGtmAdwords.submitted leads))
   ∧ CheckGtmAdwords.analyze_leads re_search gtm_get leads timeout order' !! i
     = Some (CheckGtmAdwords.mark_no_website l)
   ∧ CheckGtmAdwords.mark_no_website l !! "tracking_analysis_status"
     = Some (VStr "no_website"))
  ∧ (ValidateWebsites.get_website_url l = "" →
     (i, "") ∈ ValidateWebsites.submitted leads
     ∧ (∀ rc mr, ValidateWebsites.validate_website
                   (http_head i) (http_get i) "" timeout rc mr
                 = ([], ("no_url", "No website URL found")))
     ∧ ValidateWebsites.validate_websites_batch
         http_head http_get leads timeout order !! i
       = Some (ValidateWebsites.annotate "no_url" "No website URL found" l)).
Proof.
  intros Hperm Hperm' Hl.
  rewrite scan_spec in Hperm'. simpl in Hperm'. fold (tasks leads) in Hperm'.
  split.
  - intros Hw. split; [|split].
    + rewrite gtm_submitted_spec, <-list_fmap_compose.
      intros (p & Hi & Hp)%list_elem_of_fmap.
      apply tasks_elem in Hp as (l' & Hl' & Hw' & Hpeq).
      rewrite Hpeq in Hi. simpl in Hi. subst i.
      rewrite Hpeq in Hl'. simpl in Hl'. congruence.
    + unfold CheckGtmAdwords.analyze_leads.
      rewrite analyze_leads_with_spec by done.
      rewrite list_lookup_imap, Hl. simpl. unfold analyzed. by rewrite Hw.
    + unfold CheckGtmAdwords.mark_no_website. by rewrite lookup_insert_eq.
  - intros Hurl. split; [|split].
    + unfold ValidateWebsites.submitted, ValidateWebsites.url_lead_pairs.
      apply list_elem_of_fmap. exists (i, "", i). split; [done|].
      rewrite <-Hurl.
      by apply (elem_of_lookup_imap_2
                  (λ i l, (i, ValidateWebsites.get_website_url l, i)) leads l i).
    + intros rc mr. by rewrite ValidateWebsites.validate_website_equation_1.
    + unfold ValidateWebsites.validate_websites_batch.
      rewrite validate_websites_batch_with_spec by done.
      rewrite list_lookup_imap, Hl. simpl. f_equal.
      unfold validated, stamp, ValidateWebsites.result_or_unknown,
        ValidateWebsites.worker.
      rewrite Hurl. by rewrite ValidateWebsites.validate_website_equation_1.
Qed.

(** C7 on two leads, the second without a website. *)
Lemma C7_ineligible_records_witness :
  let a : lead := <["website" := VStr "acme.com"]> ∅ in
  let b : lead := <["name" := VStr "nobody"]> ∅ in
  let ok := {| status_code := 200; reason := "OK"; text := "";
               server := None; cf_ray := false |} in
  (1%nat, "") ∈ ValidateWebsites.submitted [a; b].
Proof.
  intros a b ok.
  refine (proj1 (proj2 (C7_ineligible_records
                   (λ _ _, inr ok) (λ _ _, inr ok) (λ _ _, None)
                   (λ _ _ _, inr ok) [a; b] 10 [1; 0]%nat [0]%nat 1 b _ _ _) _)).
  - simpl. apply Permutation_swap.
  - vm_compute. reflexivity.
  - reflexivity.
  - reflexivity.
Defined.


(** ** The sequential loop of [analyze_pagespeed.py] *)




(** ** The sequential enrichment of [find_emails.py] *)

Section Enrich.
Import FindEmails.
Variable api : nat → reply.
Variable skip_existing : bool.

Lemma enrich_step_spec (acc : list lead) (s : stats) (i : nat) (l : lead) :
  ∃ t l' s',
    enrich_step api skip_existing (acc, s) (i, l) = (t, inr (acc ++ [l'], s'))
    ∧ enriched l l'.
Proof.
  unfold enrich_step.
  destruct (skip_existing && _).
  { eexists _, l, _. split; [reflexivity|by left]. }
  destruct (_ || _).
  { eexists _, l, _. split; [reflexivity|by left]. }
  unfold mbind, script_bind, emit. simpl.
  destruct (find_email_anymailfinder (api i)) as [[email confidence] verified].
  destruct (Py.truthy email).
  - eexists _, _, _. split; [reflexivity|]. right. by eexists _, _, _.
  - eexists _, l, _. split; [reflexivity|by left].
Qed.


End Enrich.




(** ** The rate window of [analyze_pagespeed.py] *)

(** What the check before a call leaves in [request_times]: fewer than 390
    entries. *)
Lemma throttle_bound (current_time : Z) (times : list Z) :
  Z.of_nat (length (AnalyzePagespeed.throttle current_time times).2)
  < AnalyzePagespeed.MAX_REQUESTS_PER_100_SEC - 10.
Proof.
  unfold AnalyzePagespeed.throttle.
  destruct (Z.leb_spec (AnalyzePagespeed.MAX_REQUESTS_PER_100_SEC - 10)
              (Z.of_nat (length (filter (λ t, current_time - t < AnalyzePagespeed.WINDOW)
                                   times)))); simpl.
  - unfold AnalyzePagespeed.MAX_REQUESTS_PER_100_SEC. lia.
  - done.
Qed.

(** The list the code keeps never holds more than 390 times. *)
Lemma request_times_bounded (api : nat → nat → Z * AnalyzePagespeed.reply)
    (leads : list lead) (start : Z) :
  (length (AnalyzePagespeed.request_times (AnalyzePagespeed.run api leads start))
   ≤ 390)%nat.
Proof.
  unfold AnalyzePagespeed.run.
  generalize (imap (λ i l, (S i, l)) leads) as items.
  assert (∀ items st,
            (length (AnalyzePagespeed.request_times st) ≤ 390)%nat →
            (length (AnalyzePagespeed.request_times
                       (foldl (AnalyzePagespeed.step api leads) st items))
             ≤ 390)%nat) as Hinv.
  { induction items as [|[i l] items IH]; intros st Hst; [done|].
    simpl. apply IH. unfold AnalyzePagespeed.step.
    pose proof (throttle_bound (AnalyzePagespeed.clock st)
                  (AnalyzePagespeed.request_times st)) as Hb.
    destruct (AnalyzePagespeed.get_website_from_lead l) as [w|]; [|done].
    destruct (negb (w =? "")%string); [|done].
    destruct (AnalyzePagespeed.throttle _ _) as [started times].
    destruct (AnalyzePagespeed.analyze_pagespeed _ _) as [log r]. simpl in *.
    rewrite length_app. simpl.
    unfold AnalyzePagespeed.MAX_REQUESTS_PER_100_SEC in Hb. lia. }
  intros items. by apply Hinv; simpl; lia.
Qed.

(** C4, the run that breaks it.  On [burst_leads] the 390 times kept by the
    code reach back to the first call when the 391st is due; the loop
    sleeps until that one time has left the window and then forgets all
    390.  The calls 3 to 390, started between 94.0 s and 96.0 s, are still
    inside the window when the calls 391 to 403 start: at 101.065 s the
    last 100 s hold 401 started calls (and as many recorded times), above
    the limit of 400, while the list of the code holds 13 at the end. *)
Theorem C4_rate_window_overrun :
  let final := AnalyzePagespeed.run burst_api burst_leads 0 in
  AnalyzePagespeed.started_in_window 101065 (AnalyzePagespeed.dispatched final)
  = 401%nat
  ∧ (Z.to_nat AnalyzePagespeed.MAX_REQUESTS_PER_100_SEC
     < AnalyzePagespeed.started_in_window 101065
         (AnalyzePagespeed.dispatched final))%nat
  ∧ AnalyzePagespeed.recorded_in_window 101065 (AnalyzePagespeed.dispatched final)
    = 401%nat
  ∧ AnalyzePagespeed.dispatched final !! 402%nat = Some (101065, 101070)
  ∧ length (AnalyzePagespeed.request_times final) = 13%nat.
Proof.
  vm_compute. split; [reflexivity|].
  split; [apply Nat.leb_le; reflexivity|]. repeat split.
Qed.

(** ** The confirmation gate of the paid pipelines *)

Lemma gated_calls_after_prompt (confirmed : Prop) (run : script unit)
    (pre post : list action) (key : string) :
  gated confirmed run →
  run.1 = pre ++ ApiCall key :: post →
  Prompt ∈ pre ∧ confirmed.
Proof.
  intros [[Ht _]|[[Ht _]|(t & Ht & Hok)]] Hsplit; rewrite Ht in Hsplit.
  - by destruct pre.
  - destruct pre as [|a [|b pre]]; simplify_eq/=.
  - destruct pre as [|a pre]; simplify_eq/=. split; [by left|done].
Qed.

Lemma gated_declined (confirmed : Prop) (run : script unit) :
  gated confirmed run → ¬ confirmed →
  Forall (λ a, is_api_call a = false ∧ is_save a = false) run.1
  ∧ ∃ code, run.2 = inl code.
Proof.
  intros [[Ht Hc]|[(Ht & Hc & _)|(t & _ & Hok)]] Hno; [| |done]; rewrite Ht.
  - split; [constructor|done].
  - split; [by repeat constructor|by exists 0].
Qed.

Lemma find_emails_gated (api_key : option string) (api : nat → FindEmails.reply)
    (typed : string) (leads : list lead) (max_leads : Z) (include_existing : bool) :
  gated (Py.lower (Py.strip typed) ∈ ["yes"; "y"])
    (FindEmails.main api_key api typed leads max_leads include_existing).
Proof.
  unfold FindEmails.main, FindEmails.ask_permission.
  destruct (bool_decide (leads = [])).
  { left. split; [done|by exists 1]. }
  unfold mbind, script_bind, emit, sys_exit, mret, script_ret.
  destruct (bool_decide (Py.lower (Py.strip typed) ∈ ["yes"; "y"])) eqn:Hyes; simpl.
  - right; right. apply bool_decide_eq_true in Hyes.
    destruct (FindEmails.enrich_leads _ _ _ _ _) as [t [code|r]]; simpl;
      eexists; split; done.
  - right; left. apply bool_decide_eq_false in Hyes. done.
Qed.

Lemma for_each_emit_value (items : list (nat * string)) :
  ∃ t, for_each items (λ (_ : unit) p, emit (ApiCall p.2)) tt = (t, inr tt).
Proof.
  induction items as [|p items [t IH]]; [by exists []|].
  exists (ApiCall p.2 :: t). cbn [for_each].
  unfold mbind, script_bind, emit in *. by rewrite IH.
Qed.

Lemma outscraper_gated (payload : Type) (merge : payload → lead → lead)
    (has_emails : payload → bool) (library_available : bool)
    (api_key : option string) (api : nat → option payload)
    (typed : string) (order : list nat) (leads : list lead) (max_leads : Z) :
  gated (Py.lower (Py.strip typed) = "yes")
    (OutscraperFindEmails.main payload merge has_emails library_available
       api_key api typed order leads max_leads).
Proof.
  unfold OutscraperFindEmails.main, OutscraperFindEmails.enrich_leads.
  destruct (bool_decide (leads = [])).
  { left. split; [done|by exists 1]. }
  destruct library_available; simpl.
  2: { left. split; [done|by exists 1]. }
  destruct api_key as [key|]; simpl.
  2: { left. split; [done|by exists 1]. }
  destruct (key =? "")%string; simpl.
  { left. split; [done|by exists 1]. }
  destruct (for_each_emit_value
              (Py.slice_to max_leads
                 (OutscraperFindEmails.leads_with_domains leads))) as [t Ht].
  unfold mbind, script_bind, emit, sys_exit, mret, script_ret in *.
  destruct (Py.lower (Py.strip typed) =? "yes")%string eqn:Hyes; simpl.
  - right; right. apply String.eqb_eq in Hyes.
    rewrite Ht. simpl. eexists; split; done.
  - right; left. by apply String.eqb_neq in Hyes.
Qed.

(** C5.  In [find_emails.py] and [outscraper_find_emails.py] every call of
    the paid API comes after the prompt, and only when the answer was an
    explicit yes ([yes] or [y] for the first script, [yes] for the second,
    blanks and case aside).  With any other answer the run makes no call,
    writes no output and exits. *)
Theorem C5_confirmation_gate
    (api_key : option string) (api : nat → FindEmails.reply)
    (payload : Type) (merge : payload → lead → lead)
    (has_emails : payload → bool) (library_available : bool)
    (outscraper_api : nat → option payload) (order : list nat)
    (typed : string) (leads : list lead) (max_leads : Z)
    (include_existing : bool) :
  let answer := Py.lower (Py.strip typed) in
  let run := FindEmails.main api_key api typed leads max_leads include_existing in
  let run' := OutscraperFindEmails.main payload merge has_emails
                library_available api_key outscraper_api typed order
                leads max_leads in
  (∀ pre key post, run.1 = pre ++ ApiCall key :: post →
     Prompt ∈ pre ∧ answer ∈ ["yes"; "y"])
  ∧ (answer ∉ ["yes"; "y"] →
     Forall (λ a, is_api_call a = false ∧ is_save a = false) run.1
     ∧ ∃ code, run.2 = inl code)
  ∧ (∀ pre key post, run'.1 = pre ++ ApiCall key :: post →
       Prompt ∈ pre ∧ answer = "yes")
  ∧ (answer ≠ "yes" →
     Forall (λ a, is_api_call a = false ∧ is_save a = false) run'.1
     ∧ ∃ code, run'.2 = inl code).
Proof.
  intros answer run run'.
  pose proof (find_emails_gated api_key api typed leads max_leads
                include_existing) as Hrun.
  pose proof (outscraper_gated payload merge has_emails library_available
                api_key outscraper_api typed order leads max_leads) as Hrun'.
  split; [|split; [|split]].
  - intros pre key post. by apply gated_calls_after_prompt.
  - by apply gated_declined.
  - intros pre key post. by apply gated_calls_after_prompt.
  - by apply gated_declined.
Qed.

(** * Further properties of the code *)

(** ** [validate_website]: requests, pauses and what a status tells *)

Section ValidateWebsiteMore.
Import ValidateWebsites.
Variable http_head http_get : Z → http_result.

Ltac vw_split :=
  rewrite validate_website_equation_1; cbv zeta;
  repeat match goal with
    | |- context [match fetch ?a ?b ?c ?d with _ => _ end] =>
        let E := fresh "Hfetch" in
        destruct (fetch a b c d) as [? [[]|]] eqn:E
    | |- context [match Z_lt_dec ?a ?b with _ => _ end] =>
        destruct (Z_lt_dec a b)
    | |- context [let '(_, _) := validate_website ?a ?b ?c ?d ?e ?f in _] =>
        let E := fresh "Hrec" in
        destruct (validate_website a b c d e f) as [? [? ?]] eqn:E
    | |- context [if ?b then _ else _] => destruct b eqn:?
    end.

Lemma count_get_backoff (rc : Z) : count_method "GET" (backoff rc) = 0%nat.
Proof. unfold backoff. by destruct (0 <? rc). Qed.

Lemma count_get_fetch (url : string) (rc : Z) :
  (count_method "GET" (fetch http_head http_get url rc).1 ≤ 1)%nat.
Proof.
  unfold fetch. destruct (http_head rc) as [e|r]; [by apply Nat.le_0_l|].
  destruct (status_code r =? 405); unfold count_method; simpl; lia.
Qed.

Lemma sleep_total_app (l1 l2 : list http_event) :
  sleep_total (l1 ++ l2) = sleep_total l1 + sleep_total l2.
Proof.
  induction l1 as [|[m u|ms] l1 IH]; simpl; [done|done|]. rewrite IH. lia.
Qed.

Lemma sleep_total_fetch (url : string) (rc : Z) :
  sleep_total (fetch http_head http_get url rc).1 = 0.
Proof.
  unfold fetch. destruct (http_head rc) as [e|r]; [done|].
  by destruct (status_code r =? 405).
Qed.

Lemma sleep_total_backoff (rc : Z) :
  0 ≤ rc → sleep_total (backoff rc) = 2000 * rc.
Proof.
  intros Hrc. unfold backoff.
  destruct (Z.ltb_spec 0 rc); simpl; lia.
Qed.

(** A GET request is only made after a HEAD request of the same attempt, so
    a call makes at most twice as many requests as it has attempts. *)
Lemma validate_website_gets_le (url : string) (timeout rc mr : Z) :
  (count_method "GET" (validate_website http_head http_get url timeout rc mr).1
   ≤ count_method "HEAD"
       (validate_website http_head http_get url timeout rc mr).1)%nat.
Proof.
  revert rc. apply (retry_ind mr). intros rc IH.
  pose proof (count_head_fetch http_head http_get url rc) as Hf.
  pose proof (count_get_fetch url rc) as Hg.
  pose proof (count_head_backoff rc) as Hb.
  pose proof (count_get_backoff rc) as Hgb.
  vw_split; simpl; try specialize (IH ltac:(lia));
    rewrite ?count_method_app; simpl in *;
    first [lia | change (count_method "HEAD" []) with 0%nat;
                 change (count_method "GET" []) with 0%nat; lia].
Qed.

End ValidateWebsiteMore.

(** X1.  Whatever the network does, a call of [validate_website] started
    within its budget makes at most [max_retries - retry_count + 1] HEAD
    requests, a GET request only after a HEAD request, and so at most
    [2 * (max_retries - retry_count + 1)] requests in all: 8 with the
    defaults. *)
Theorem X1_validate_website_request_bound
    (http_head http_get : Z → http_result) (url : string)
    (timeout rc mr : Z) :
  let log := (ValidateWebsites.validate_website
                http_head http_get url timeout rc mr).1 in
  (count_method "GET" log ≤ count_method "HEAD" log)%nat
  ∧ (count_method "HEAD" log ≤ Z.to_nat (mr - rc) + 1)%nat
  ∧ (count_method "HEAD" log + count_method "GET" log
     ≤ 2 * (Z.to_nat (mr - rc) + 1))%nat.
Proof.
  intros log.
  pose proof (validate_website_gets_le http_head http_get url timeout rc mr) as Hg.
  pose proof (validate_website_attempts_le http_head http_get url timeout rc mr) as Hh.
  fold log in Hg, Hh. lia.
Qed.

Ltac vw_branches :=
  rewrite ValidateWebsites.validate_website_equation_1; cbv zeta;
  repeat match goal with
    | |- context [match ValidateWebsites.fetch ?a ?b ?c ?d with _ => _ end] =>
        let E := fresh "Hfetch" in
        destruct (ValidateWebsites.fetch a b c d) as [? [[]|]] eqn:E
    | |- context [match Z_lt_dec ?a ?b with _ => _ end] =>
        destruct (Z_lt_dec a b)
    | |- context [let '(_, _) :=
                    ValidateWebsites.validate_website ?a ?b ?c ?d ?e ?f in _] =>
        let E := fresh "Hrec" in
        destruct (ValidateWebsites.validate_website a b c d e f)
          as [? [? ?]] eqn:E
    | |- context [if ?b then _ else _] => destruct b eqn:?
    end.

(** X2.  The pauses of a call of [validate_website] add up to 2 s times the
    sum of the numbers of its attempts: a call started at [retry_count >= 0]
    that makes [a] attempts pauses [a * (2 * retry_count + a - 1)] seconds.
    The delay grows by 2 s per retry (2 s, 4 s, 6 s), it does not double. *)
Theorem X2_validate_website_backoff_total
    (http_head http_get : Z → http_result) (url : string)
    (timeout rc mr : Z) :
  0 ≤ rc →
  let log := (ValidateWebsites.validate_website
                http_head http_get url timeout rc mr).1 in
  let a := Z.of_nat (count_method "HEAD" log) in
  sleep_total log = 1000 * (a * (2 * rc + a - 1)).
Proof.
  revert rc. apply (retry_ind mr (λ rc, 0 ≤ rc → _)). intros rc IH Hrc.
  pose proof (count_head_fetch http_head http_get url rc) as Hf.
  pose proof (count_head_backoff rc) as Hb.
  pose proof (sleep_total_fetch http_head http_get url rc) as Hsf.
  pose proof (sleep_total_backoff rc Hrc) as Hsb.
  vw_branches; simpl; try specialize (IH ltac:(lia) ltac:(lia));
    rewrite ?count_method_app, ?sleep_total_app; simpl in *;
    rewrite ?Hsb, ?Hsf, ?Hf, ?Hb, ?IH;
    try change (count_method "HEAD" []) with 0%nat;
    try change (sleep_total []) with 0;
    rewrite ?Nat2Z.inj_add; nia.
Qed.

(** X2 on a call with the defaults whose every attempt times out: four
    attempts, twelve seconds of pauses. *)
Lemma X2_validate_website_backoff_total_witness :
  sleep_total (ValidateWebsites.validate_website
                 (λ _, inl (Timeout "timed out")) (λ _, inl (Timeout "timed out"))
                 "https://acme.com" 10 0 3).1
  = 12000.
Proof.
  exact (X2_validate_website_backoff_total
           (λ _, inl (Timeout "timed out")) (λ _, inl (Timeout "timed out"))
           "https://acme.com" 10 0 3 ltac:(lia)).
Defined.

Ltac not_in_list H :=
  repeat (apply elem_of_cons in H as [H|H]; [discriminate|]);
  by apply elem_of_nil in H.

Lemma validate_website_no_url_iff (http_head http_get : Z → http_result)
    (url : string) (timeout rc mr : Z) :
  (ValidateWebsites.validate_website http_head http_get url timeout rc mr).2.1
  = "no_url" ↔ url = "".
Proof.
  split.
  - revert rc.
    apply (retry_ind mr
             (λ rc, (ValidateWebsites.validate_website
                       http_head http_get url timeout rc mr).2.1 = "no_url"
                    → url = "")).
    intros rc IH.
    vw_branches; simpl; try discriminate; try (apply IH; lia).
    all: intros _; by apply String.eqb_eq.
  - intros ->. by rewrite ValidateWebsites.validate_website_equation_1.
Qed.

Lemma validate_website_budget_used (http_head http_get : Z → http_result)
    (url : string) (timeout rc mr : Z) :
  rc ≤ mr →
  (ValidateWebsites.validate_website http_head http_get url timeout rc mr).2.1
    ∈ ["timeout"; "blocked"; "unknown"] →
  count_method "HEAD"
    (ValidateWebsites.validate_website http_head http_get url timeout rc mr).1
  = (Z.to_nat (mr - rc) + 1)%nat.
Proof.
  revert rc.
  apply (retry_ind mr
           (λ rc, rc ≤ mr →
                  (ValidateWebsites.validate_website
                     http_head http_get url timeout rc mr).2.1
                    ∈ ["timeout"; "blocked"; "unknown"] →
                  count_method "HEAD"
                    (ValidateWebsites.validate_website
                       http_head http_get url timeout rc mr).1
                  = (Z.to_nat (mr - rc) + 1)%nat)).
  intros rc IH Hle.
  pose proof (count_head_fetch http_head http_get url rc) as Hf.
  pose proof (count_head_backoff rc) as Hb.
  vw_branches; simpl; intros Hin;
    try (not_in_list Hin);
    try specialize (IH ltac:(lia) ltac:(lia) Hin);
    rewrite ?count_method_app; simpl in *; lia.
Qed.

Lemma validate_website_valid_sound (http_head http_get : Z → http_result)
    (url : string) (timeout rc mr : Z) :
  (ValidateWebsites.validate_website http_head http_get url timeout rc mr).2.1
  = "valid" →
  ∃ a reqs resp,
    rc ≤ a
    ∧ ValidateWebsites.fetch http_head http_get url a = (reqs, inr resp)
    ∧ 200 ≤ status_code resp < 300.
Proof.
  revert rc.
  apply (retry_ind mr
           (λ rc, (ValidateWebsites.validate_website
                     http_head http_get url timeout rc mr).2.1 = "valid"
                  → ∃ a reqs resp,
                      rc ≤ a
                      ∧ ValidateWebsites.fetch http_head http_get url a
                        = (reqs, inr resp)
                      ∧ 200 ≤ status_code resp < 300)).
  intros rc IH.
  vw_branches; simpl; try discriminate;
    try (intros Hv; destruct (IH ltac:(lia) Hv) as (a & reqs & resp & ? & ? & ?);
         exists a, reqs, resp; split; [lia|done]).
  all: intros _; eexists rc, _, _; split; [lia|split; [eassumption|lia]].
Qed.

Lemma validate_website_ssl_sound (http_head http_get : Z → http_result)
    (url : string) (timeout rc mr : Z) :
  (ValidateWebsites.validate_website http_head http_get url timeout rc mr).2.1
  = "ssl_error" →
  ∃ a reqs m,
    rc ≤ a
    ∧ ValidateWebsites.fetch http_head http_get url a = (reqs, inl (SSLError m)).
Proof.
  revert rc.
  apply (retry_ind mr
           (λ rc, (ValidateWebsites.validate_website
                     http_head http_get url timeout rc mr).2.1 = "ssl_error"
                  → ∃ a reqs m,
                      rc ≤ a
                      ∧ ValidateWebsites.fetch http_head http_get url a
                        = (reqs, inl (SSLError m)))).
  intros rc IH.
  vw_branches; simpl; try discriminate;
    try (intros Hv; destruct (IH ltac:(lia) Hv) as (a & reqs & m & ? & ?);
         exists a, reqs, m; split; [lia|done]).
  all: intros _; eexists rc, _, _; split; [lia|eassumption].
Qed.

(** X3.  What a status of [validate_website] tells.  ["no_url"] is returned
    exactly for the empty URL.  ["valid"] is returned only when some attempt
    was answered with a 2xx status, and ["ssl_error"] only when some attempt
    raised an SSL error.  ["timeout"], ["blocked"] and ["unknown"] are
    returned only after the whole retry budget is used:
    [max_retries - retry_count + 1] attempts. *)
Theorem X3_validate_website_status_meaning
    (http_head http_get : Z → http_result) (url : string)
    (timeout rc mr : Z) :
  rc ≤ mr →
  let r := ValidateWebsites.validate_website
             http_head http_get url timeout rc mr in
  (r.2.1 = "no_url" ↔ url = "")
  ∧ (r.2.1 = "valid" →
     ∃ a reqs resp,
       rc ≤ a
       ∧ ValidateWebsites.fetch http_head http_get url a = (reqs, inr resp)
       ∧ 200 ≤ status_code resp < 300)
  ∧ (r.2.1 = "ssl_error" →
     ∃ a reqs m,
       rc ≤ a
       ∧ ValidateWebsites.fetch http_head http_get url a
         = (reqs, inl (SSLError m)))
  ∧ (r.2.1 ∈ ["timeout"; "blocked"; "unknown"] →
     count_method "HEAD" r.1 = (Z.to_nat (mr - rc) + 1)%nat).
Proof.
  intros Hle r. split; [apply validate_website_no_url_iff|].
  split; [apply validate_website_valid_sound|].
  split; [apply validate_website_ssl_sound|].
  by apply validate_website_budget_used.
Qed.

(** X3 on a call with the defaults whose every attempt is a connection
    error: ["unknown"] after four attempts. *)
Lemma X3_validate_website_status_meaning_witness :
  count_method "HEAD"
    (ValidateWebsites.validate_website
       (λ _, inl (ConnectionError "reset")) (λ _, inl (ConnectionError "reset"))
       "https://acme.com" 10 0 3).1
  = 4%nat.
Proof.
  refine (proj2 (proj2 (proj2 (X3_validate_website_status_meaning
            (λ _, inl (ConnectionError "reset"))
            (λ _, inl (ConnectionError "reset"))
            "https://acme.com" 10 0 3 _))) _).
  - lia.
  - vm_compute. right; right; left.
Defined.

(** ** The shape of a resolved URL *)

Lemma string_app_cons (a : ascii) (s t : string) :
  String a s +:+ t = String a (s +:+ t).
Proof. done. Qed.

Lemma string_app_nil (t : string) : "" +:+ t = t.
Proof. done. Qed.

Ltac string_app := rewrite ?string_app_cons, ?string_app_nil.

Lemma string_app_assoc (s1 s2 s3 : string) :
  (s1 +:+ s2) +:+ s3 = s1 +:+ (s2 +:+ s3).
Proof.
  induction s1 as [|c s1 IH]; [done|]. string_app. by rewrite IH.
Qed.

Lemma string_app_empty_r (s : string) : s +:+ "" = s.
Proof. induction s as [|c s IH]; [done|]. string_app. by rewrite IH. Qed.

Lemma string_rev_app_spec (s1 s2 : string) :
  String.rev_app s1 s2 = String.rev s1 +:+ s2.
Proof.
  unfold String.rev. revert s2.
  induction s1 as [|c s1 IH]; intros s2; simpl; [done|].
  rewrite IH, (IH (String c "")).
  by rewrite string_app_assoc.
Qed.

Lemma string_rev_cons (c : ascii) (s : string) :
  String.rev (String c s) = String.rev s +:+ String c "".
Proof. unfold String.rev at 1. simpl. apply string_rev_app_spec. Qed.

Lemma string_rev_append (s1 s2 : string) :
  String.rev (s1 +:+ s2) = String.rev s2 +:+ String.rev s1.
Proof.
  induction s1 as [|c s1 IH]; string_app.
  - change (String.rev "") with "". by rewrite string_app_empty_r.
  - by rewrite !string_rev_cons, IH, string_app_assoc.
Qed.

Lemma string_rev_involutive (s : string) : String.rev (String.rev s) = s.
Proof.
  induction s as [|c s IH]; [done|].
  by rewrite string_rev_cons, string_rev_append, IH.
Qed.

(** A prefix test that succeeds splits the string. *)
Lemma prefix_split (p s : string) :
  String.prefix p s = true → ∃ r, s = p +:+ r.
Proof.
  revert s. induction p as [|a p IH]; intros s Hp.
  { by exists s. }
  destruct s as [|b s]; simpl in Hp; [done|].
  destruct (ascii_dec a b) as [->|]; [|done].
  destruct (IH s Hp) as [r ->]. by exists r.
Qed.

(** Stripping a character on the left of [a ++ b] leaves [b] whole when [b]
    begins with another character. *)
Lemma lstrip_char_app (ch c : ascii) (a b : string) :
  Ascii.eqb c ch = false →
  ∃ x, Py.lstrip_char ch (a +:+ String c b) = x +:+ String c b.
Proof.
  intros Hc. induction a as [|d a IH]; simpl.
  - rewrite Hc. by exists "".
  - destruct (Ascii.eqb d ch); [done|]. by exists (String d a).
Qed.

Lemma lstrip_char_head (ch : ascii) (s : string) :
  match Py.lstrip_char ch s with
  | String c _ => Ascii.eqb c ch = false
  | EmptyString => True
  end.
Proof.
  induction s as [|c s IH]; simpl; [done|].
  by destruct (Ascii.eqb c ch) eqn:E.
Qed.

Lemma rstrip_char_no_trailing (ch : ascii) (s : string) :
  ends_with_char ch (Py.rstrip_char ch s) = false.
Proof.
  unfold ends_with_char, Py.rstrip_char. rewrite string_rev_involutive.
  pose proof (lstrip_char_head ch (String.rev s)) as H.
  by destruct (Py.lstrip_char ch (String.rev s)).
Qed.

(** Stripping a character on the right keeps a prefix that ends with
    another character. *)
Lemma rstrip_char_keeps_prefix (ch c : ascii) (p s : string) :
  Ascii.eqb c ch = false →
  ∃ x, Py.rstrip_char ch ((p +:+ String c "") +:+ s)
       = (p +:+ String c "") +:+ x.
Proof.
  intros Hc. unfold Py.rstrip_char.
  rewrite !string_rev_append.
  change (String.rev (String c "")) with (String c ""). string_app.
  destruct (lstrip_char_app ch c (String.rev s) (String.rev p) Hc) as [x ->].
  exists (String.rev x).
  by rewrite string_rev_append, string_rev_cons, string_rev_involutive.
Qed.

Lemma with_scheme_keeps_http (website : string) :
  ∃ x, with_scheme website = "http" +:+ x ∧ x ≠ "".
Proof.
  assert (∀ s, ∃ x, Py.rstrip_char "/" ("https:" +:+ s) = "https:" +:+ x) as Hs.
  { intros s. apply (rstrip_char_keeps_prefix "/" ":" "https" s). done. }
  assert (∀ s, ∃ x, Py.rstrip_char "/" ("http:" +:+ s) = "http:" +:+ x) as Hp.
  { intros s. apply (rstrip_char_keeps_prefix "/" ":" "http" s). done. }
  unfold with_scheme.
  destruct (Py.startswith "http://" website) eqn:E1; simpl negb; cbv iota.
  { apply prefix_split in E1 as [r ->].
    destruct (Hp ("//" +:+ r)) as [x Hx].
    rewrite ?string_app_cons, ?string_app_nil in Hx. string_app.
    rewrite Hx. by exists (String ":" x). }
  destruct (Py.startswith "https://" website) eqn:E2; simpl negb; cbv iota.
  { apply prefix_split in E2 as [r ->].
    destruct (Hs ("//" +:+ r)) as [x Hx].
    rewrite ?string_app_cons, ?string_app_nil in Hx. string_app.
    rewrite Hx. by exists ("s:" +:+ x). }
  destruct (Hs ("//" +:+ website)) as [x Hx].
  rewrite ?string_app_cons, ?string_app_nil in Hx. string_app.
  rewrite Hx. by exists ("s:" +:+ x).
Qed.

Lemma as_https_shape (website : string) :
  as_https website = ""
  ∨ (Py.startswith "http" (as_https website) = true
     ∧ Py.startswith "http://" (as_https website) = false).
Proof.
  unfold as_https.
  destruct (Py.startswith "http://" website) eqn:E1.
  { right. simpl. done. }
  destruct (String.eqb_spec website "") as [->|Hne]; [by left|].
  simpl negb. simpl andb.
  destruct (Py.startswith "http" website) eqn:E2; simpl; right; done.
Qed.

(** X4.  The URL [get_website_from_lead] returns is never empty, begins
    with [http] and has no trailing slash, so that the test [if website] of
    its callers fails for [None] only.  The URL [get_website_url] returns is
    empty or begins with [http], and never with [http://]: a plain-HTTP
    address is always tried over HTTPS. *)
Theorem X4_resolved_url_shape (l : lead) :
  (∀ website, CheckGtmAdwords.get_website_from_lead l = Some website →
     website ≠ ""
     ∧ Py.startswith "http" website = true
     ∧ ends_with_char "/" website = false)
  ∧ (CheckGtmAdwords.has_website l = true
     ↔ is_Some (CheckGtmAdwords.get_website_from_lead l))
  ∧ (ValidateWebsites.get_website_url l = ""
     ∨ (Py.startswith "http" (ValidateWebsites.get_website_url l) = true
        ∧ Py.startswith "http://" (ValidateWebsites.get_website_url l) = false)).
Proof.
  assert (∀ website, CheckGtmAdwords.get_website_from_lead l = Some website →
            website ≠ ""
            ∧ Py.startswith "http" website = true
            ∧ ends_with_char "/" website = false) as Hshape.
  { intros website Hw. unfold CheckGtmAdwords.get_website_from_lead in Hw.
    rewrite first_website_first_non_blank in Hw.
    destruct (first_non_blank l CheckGtmAdwords.website_fields) as [t|];
      [|done].
    simpl in Hw. injection Hw as <-.
    destruct (with_scheme_keeps_http t) as (x & Hx & Hne).
    split; [|split].
    - rewrite Hx. done.
    - rewrite Hx. by destruct x.
    - apply rstrip_char_no_trailing. }
  split; [exact Hshape|split].
  - unfold CheckGtmAdwords.has_website.
    destruct (CheckGtmAdwords.get_website_from_lead l) as [w|] eqn:Hw.
    + destruct (Hshape w eq_refl) as (Hne & _).
      apply String.eqb_neq in Hne. rewrite Hne. simpl. split; [by eexists|done].
    + split; [done|by intros [? ?]].
  - rewrite get_website_url_first_truthy. apply as_https_shape.
Qed.

(** ** The tag detector: requests, pauses and what a status tells *)

Section DetectorMore.
Import CheckGtmAdwords.
Variable re_search : pattern → string → option string.
Variable http_get : nat → string → http_result.

Ltac loop_cases a url attempts :=
  cbn [attempt_loop];
  destruct (http_get a url) as [[m|m|m|m|m]|resp];
  [ destruct (http_get a (Py.replace "https://" "http://" url)) as [e|resp];
    [|destruct (status_code resp =? 200) eqn:Hcode];
    try destruct (attempt_loop re_search http_get url attempts _)
      as [log r] eqn:Hloop
  | destruct (attempt_loop re_search http_get url attempts _)
      as [log r] eqn:Hloop
  | | |
  | destruct (status_code resp =? 200) eqn:Hcode; cbn [negb];
    try destruct (attempt_loop re_search http_get url attempts _)
      as [log r] eqn:Hloop ].

Lemma analyze_html_status (r : detection) (html : string) :
  status (analyze_html re_search r html) = "analyzed".
Proof. done. Qed.

(** A loop that ends with the status it was started with has changed
    nothing. *)
Lemma attempt_loop_failed (url : string) (attempts : list nat)
    (result : detection) :
  status result = "failed" →
  status (attempt_loop re_search http_get url attempts result).2 = "failed" →
  (attempt_loop re_search http_get url attempts result).2 = result.
Proof.
  intros Hr. induction attempts as [|a attempts IH]; [done|].
  loop_cases a url attempts; cbn [snd] in *; try done.
Qed.

(** A loop that ends with [analyzed] has seen an answer 200. *)
Lemma attempt_loop_analyzed (url : string) (attempts : list nat)
    (result : detection) :
  status result = "failed" →
  status (attempt_loop re_search http_get url attempts result).2 = "analyzed" →
  ∃ attempt u resp,
    attempt ∈ attempts
    ∧ u ∈ [url; Py.replace "https://" "http://" url]
    ∧ http_get attempt u = inr resp ∧ status_code resp = 200.
Proof.
  intros Hr. induction attempts as [|a attempts IH].
  { simpl. rewrite Hr. done. }
  assert (∀ P : Prop,
            (P → ∃ attempt u resp,
                   attempt ∈ attempts
                   ∧ u ∈ [url; Py.replace "https://" "http://" url]
                   ∧ http_get attempt u = inr resp ∧ status_code resp = 200) →
            P → ∃ attempt u resp,
                  attempt ∈ a :: attempts
                  ∧ u ∈ [url; Py.replace "https://" "http://" url]
                  ∧ http_get attempt u = inr resp ∧ status_code resp = 200)
    as Hnext.
  { intros P HP HPp. destruct (HP HPp) as (k & u & resp & Hk & Hu).
    exists k, u, resp. split; [by right|done]. }
  cbn [attempt_loop].
  destruct (http_get a url) as [[m|m|m|m|m]|resp] eqn:Hfirst.
  - destruct (http_get a (Py.replace "https://" "http://" url))
      as [e|resp] eqn:Hsecond.
    + destruct (attempt_loop re_search http_get url attempts result)
        as [log r]. exact (Hnext _ IH).
    + destruct (status_code resp =? 200) eqn:Hcode.
      * intros _. exists a, (Py.replace "https://" "http://" url), resp.
        split; [by left|]. split; [right; by left|].
        split; [done|]. by apply Z.eqb_eq.
      * destruct (attempt_loop re_search http_get url attempts result)
          as [log r]. exact (Hnext _ IH).
  - destruct (attempt_loop re_search http_get url attempts result)
      as [log r]. exact (Hnext _ IH).
  - cbn [snd]. rewrite Hr. done.
  - cbn [snd]. rewrite Hr. done.
  - cbn [snd]. rewrite Hr. done.
  - destruct (status_code resp =? 200) eqn:Hcode; cbn [negb].
    + intros _. exists a, url, resp.
      split; [by left|]. split; [by left|].
      split; [done|]. by apply Z.eqb_eq.
    + destruct (attempt_loop re_search http_get url attempts result)
        as [log r]. exact (Hnext _ IH).
Qed.

(** Two requests at most for an attempt, and a pause after a timeout of
    the first attempt only. *)
Lemma attempt_loop_requests (url : string) (attempts : list nat)
    (result : detection) :
  let log := (attempt_loop re_search http_get url attempts result).1 in
  (count_method "GET" log ≤ 2 * length attempts)%nat
  ∧ 0 ≤ sleep_total log
         ≤ 1000 * Z.of_nat (length (filter (λ a, a < MAX_RETRIES - 1)%nat attempts)).
Proof.
  induction attempts as [|a attempts IH]; [done|].
  cbn zeta in *. rewrite filter_cons.
  assert (0 ≤ 1000 * Z.of_nat
                (length (filter (λ a, a < MAX_RETRIES - 1)%nat attempts)))
    as Hpos by lia.
  assert (∀ u log, count_method "GET" (Request "GET" u :: log)
                   = S (count_method "GET" log)) as Hget by done.
  assert (∀ n log, count_method "GET" (Sleep n :: log)
                   = count_method "GET" log) as Hskip by done.
  assert (∀ u log, sleep_total (Request "GET" u :: log) = sleep_total log)
    as Hreq by done.
  assert (∀ n log, sleep_total (Sleep n :: log) = n + sleep_total log)
    as Hsleep by done.
  assert (count_method "GET" [] = 0%nat) as Hnil by done.
  assert (sleep_total [] = 0) as Hnil' by done.
  loop_cases a url attempts; cbn [fst] in *;
    destruct (decide (a < MAX_RETRIES - 1)%nat) as [Ha|Ha];
    try (apply Nat.ltb_lt in Ha as Hb; rewrite Hb);
    try (apply Nat.ltb_nlt in Ha as Hb; rewrite Hb);
    cbn [app];
    rewrite ?Hget, ?Hskip, ?Hreq, ?Hsleep, ?Hget, ?Hreq, ?Hnil, ?Hnil';
    cbn [length]; lia.
Qed.

Lemma attempt_loop_requests_pos (url : string) (a : nat)
    (attempts : list nat) (result : detection) :
  (1 ≤ count_method "GET"
         (attempt_loop re_search http_get url (a :: attempts) result).1)%nat.
Proof.
  assert (∀ u log, count_method "GET" (Request "GET" u :: log)
                   = S (count_method "GET" log)) as Hget by done.
  loop_cases a url attempts; cbn [fst]; rewrite Hget; lia.
Qed.

End DetectorMore.

(** X5.  Whatever the network does, [detect_gtm_and_ads] makes between one
    and four requests and pauses for a second at most.  A result with the
    status [failed] is the initial dictionary, nothing detected; a result
    with the status [analyzed] comes from an answer 200 to one of the two
    attempts, at the address itself or at its plain-HTTP variant. *)
Theorem X5_detect_gtm_and_ads_requests_and_status
    (re_search : CheckGtmAdwords.pattern → string → option string)
    (http_get : nat → string → http_result) (url : string) :
  let run := CheckGtmAdwords.detect_gtm_and_ads re_search http_get url in
  (1 ≤ count_method "GET" run.1 ≤ 4)%nat
  ∧ 0 ≤ sleep_total run.1 ≤ 1000
  ∧ (CheckGtmAdwords.status run.2 = "failed" →
     run.2 = CheckGtmAdwords.initial_result)
  ∧ (CheckGtmAdwords.status run.2 = "analyzed" →
     ∃ attempt u resp,
       (attempt < 2)%nat
       ∧ u ∈ [url; Py.replace "https://" "http://" url]
       ∧ http_get attempt u = inr resp ∧ status_code resp = 200).
Proof.
  cbn zeta. unfold CheckGtmAdwords.detect_gtm_and_ads.
  pose proof (attempt_loop_requests re_search http_get url
                (seq 0 CheckGtmAdwords.MAX_RETRIES)
                CheckGtmAdwords.initial_result) as [Hcount Hsleep].
  split; [split; [|exact Hcount]|split; [exact Hsleep|split]].
  - apply attempt_loop_requests_pos.
  - by apply attempt_loop_failed.
  - intros Hst.
    destruct (attempt_loop_analyzed re_search http_get url
                (seq 0 CheckGtmAdwords.MAX_RETRIES)
                CheckGtmAdwords.initial_result eq_refl Hst)
      as (k & u & resp & Hk & Hu).
    exists k, u, resp. split; [|done].
    apply elem_of_seq in Hk. unfold CheckGtmAdwords.MAX_RETRIES in Hk. lia.
Qed.

(** ** The plain-HTTP fallback of the detector *)

Section DetectorFallback.
Import CheckGtmAdwords.
Variable re_search : pattern → string → option string.
Variable http_get : nat → string → http_result.

(** Without an answer 200 at the address itself, the loop leaves the
    detection fields as they were. *)
Lemma attempt_loop_no_direct_answer (url : string) (attempts : list nat)
    (result : detection) :
  (∀ attempt resp, http_get attempt url = inr resp → status_code resp ≠ 200) →
  let r := (attempt_loop re_search http_get url attempts result).2 in
  r = result ∨ r = set_analyzed result.
Proof.
  intros Hno. induction attempts as [|a attempts IH]; [by left|].
  cbn zeta in *. cbn [attempt_loop].
  destruct (http_get a url) as [[m|m|m|m|m]|resp] eqn:Hfirst.
  - destruct (http_get a (Py.replace "https://" "http://" url)) as [e|resp].
    + by destruct (attempt_loop re_search http_get url attempts result).
    + destruct (status_code resp =? 200); [by right|].
      by destruct (attempt_loop re_search http_get url attempts result).
  - by destruct (attempt_loop re_search http_get url attempts result).
  - by left.
  - by left.
  - by left.
  - destruct (status_code resp =? 200) eqn:Hcode; cbn [negb].
    + apply Z.eqb_eq in Hcode. by destruct (Hno a resp Hfirst).
    + by destruct (attempt_loop re_search http_get url attempts result).
Qed.

End DetectorFallback.

(** X6.  The detection runs on an answer 200 at the address itself only.
    When no attempt gets one, every detection field of the result is
    empty, also when the result is [analyzed]: that happens when the
    first attempt fails on the certificate and the plain-HTTP address
    answers 200, whatever the page holds. *)
Theorem X6_fallback_detects_nothing
    (re_search : CheckGtmAdwords.pattern → string → option string)
    (http_get : nat → string → http_result) (url : string) :
  (∀ attempt resp, http_get attempt url = inr resp → status_code resp ≠ 200) →
  let r := (CheckGtmAdwords.detect_gtm_and_ads re_search http_get url).2 in
  (CheckGtmAdwords.gtm_installed r = false
   ∧ CheckGtmAdwords.gtm_container_id r = None
   ∧ CheckGtmAdwords.google_ads_detected r = false
   ∧ CheckGtmAdwords.google_ads_account_id r = None
   ∧ CheckGtmAdwords.conversion_tracking r = false
   ∧ CheckGtmAdwords.remarketing_tag r = false)
  ∧ (∀ m resp,
       http_get 0%nat url = inl (SSLError m) →
       http_get 0%nat (Py.replace "https://" "http://" url) = inr resp →
       status_code resp = 200 →
       CheckGtmAdwords.status r = "analyzed").
Proof.
  intros Hno. cbn zeta. split.
  - unfold CheckGtmAdwords.detect_gtm_and_ads.
    by destruct (attempt_loop_no_direct_answer re_search http_get url
                   (seq 0 CheckGtmAdwords.MAX_RETRIES)
                   CheckGtmAdwords.initial_result Hno) as [-> | ->].
  - intros m resp Hfirst Hsecond Hcode.
    unfold CheckGtmAdwords.detect_gtm_and_ads.
    cbn [seq CheckGtmAdwords.MAX_RETRIES CheckGtmAdwords.attempt_loop].
    rewrite Hfirst, Hsecond, Hcode. done.
Qed.

Lemma X6_fallback_detects_nothing_witness :
  let http_get (attempt : nat) (u : string) : http_result :=
    if String.eqb u "https://acme.com" then inl (SSLError "bad certificate")
    else inr {| status_code := 200; reason := "OK";
                text := "googletagmanager.com/gtm.js?id=GTM-ABC123";
                server := None; cf_ray := false |} in
  let r := (CheckGtmAdwords.detect_gtm_and_ads (λ _ _, Some "gtm-abc123")
              http_get "https://acme.com").2 in
  CheckGtmAdwords.gtm_installed r = false
  ∧ CheckGtmAdwords.status r = "analyzed".
Proof.
  cbn zeta.
  pose proof (X6_fallback_detects_nothing (λ _ _, Some "gtm-abc123")
    (λ (attempt : nat) (u : string),
       if String.eqb u "https://acme.com"
       then inl (SSLError "bad certificate")
       else inr {| status_code := 200; reason := "OK";
                   text := "googletagmanager.com/gtm.js?id=GTM-ABC123";
                   server := None; cf_ray := false |})
    "https://acme.com") as H.
  cbn zeta in H.
  destruct H as [(Hgtm & _) Hst].
  { intros attempt resp Hr. vm_compute in Hr. discriminate. }
  split; [exact Hgtm|].
  by eapply Hst; vm_compute.
Defined.

(** ** One call of [analyze_pagespeed] *)

Section PagespeedCall.
Import AnalyzePagespeed.
Variable api : nat → Z * reply.

Ltac call_cases a url attempts :=
  cbn [attempt_loop];
  destruct (api a) as [took [[m|m|m|m|m]|code [[performance seo]|]]] eqn:Hapi;
  try (destruct (code =? 429) eqn:H429;
       [|destruct (code =? 200) eqn:H200; cbn [negb]]);
  try destruct (attempt_loop api url attempts) as [log res] eqn:Hloop.

(** A call that ends with [analyzed] has read the scores of an answer
    200. *)
Lemma pagespeed_attempt_loop_analyzed (url : string) (attempts : list nat) :
  let res := (attempt_loop api url attempts).2 in
  status res = "analyzed" →
  ∃ attempt took,
    attempt ∈ attempts
    ∧ api attempt
      = (took, Answer 200 (Some (performance_score res, seo_score res))).
Proof.
  induction attempts as [|a attempts IH]; [done|].
  cbn zeta in *.
  assert (∀ res' : result,
            (status res' = "analyzed" →
             ∃ attempt took,
               attempt ∈ attempts
               ∧ api attempt
                 = (took, Answer 200
                            (Some (performance_score res', seo_score res')))) →
            status res' = "analyzed" →
            ∃ attempt took,
              attempt ∈ a :: attempts
              ∧ api attempt
                = (took, Answer 200
                           (Some (performance_score res', seo_score res'))))
    as Hnext.
  { intros res' H Hst. destruct (H Hst) as (k & t & Hk & Hkt).
    exists k, t. split; [by right|done]. }
  call_cases a url attempts; cbn [snd] in *; try done;
    try (by apply Hnext).
  intros _. exists a, took. split; [by left|].
  apply Z.eqb_eq in H200 as ->. done.
Qed.

(** A call that ends with [failed] has no score. *)
Lemma pagespeed_attempt_loop_failed (url : string) (attempts : list nat) :
  let res := (attempt_loop api url attempts).2 in
  status res = "failed" → res = failed.
Proof.
  induction attempts as [|a attempts IH]; [done|].
  cbn zeta in *.
  call_cases a url attempts; cbn [snd] in *; done.
Qed.

(** One request for an attempt; the pause after an answer 429 doubles
    from two seconds on, the pause after a timeout is of two seconds. *)
Lemma pagespeed_attempt_loop_requests (url : string) (attempts : list nat) :
  let log := (attempt_loop api url attempts).1 in
  (gets log ≤ length attempts)%nat
  ∧ 0 ≤ pause_total log
         ≤ foldr (λ a acc, RETRY_DELAY * 2 ^ Z.of_nat a * 1000 + acc) 0 attempts.
Proof.
  induction attempts as [|a attempts IH]; [done|].
  cbn zeta in *. cbn [foldr].
  assert (1 ≤ 2 ^ Z.of_nat a) as Hpow.
  { apply (Z.pow_le_mono_r 2 0); lia. }
  assert (∀ u t log, gets (Get u t :: log) = S (gets log)) as Hget by done.
  assert (∀ n log, gets (Pause n :: log) = gets log) as Hskip by done.
  assert (∀ u t log, pause_total (Get u t :: log) = pause_total log)
    as Hreq by done.
  assert (∀ n log, pause_total (Pause n :: log) = n + pause_total log)
    as Hpause by done.
  assert (gets [] = 0%nat) as Hnil by done.
  assert (pause_total [] = 0) as Hnil' by done.
  call_cases a url attempts; cbn [fst] in *;
    try destruct (a <? MAX_RETRIES - 1)%nat;
    cbn [app]; unfold RETRY_DELAY in *;
    rewrite ?Hget, ?Hskip, ?Hreq, ?Hpause, ?Hget, ?Hreq, ?Hnil, ?Hnil';
    cbn [length]; lia.
Qed.

Lemma pagespeed_attempt_loop_requests_pos (url : string) (a : nat)
    (attempts : list nat) :
  (1 ≤ gets (attempt_loop api url (a :: attempts)).1)%nat.
Proof.
  assert (∀ u t log, gets (Get u t :: log) = S (gets log)) as Hget by done.
  call_cases a url attempts; cbn [fst]; rewrite Hget; lia.
Qed.

End PagespeedCall.

(** X7.  Whatever the API does, a call of [analyze_pagespeed] makes
    between one and three requests and spends at most 14 seconds in its
    pauses (2, 4 and 8 seconds after three answers 429).  A result with the
    status [analyzed] carries the two scores of an answer 200 whose body
    could be read; a result with the status [failed] carries no score. *)
Theorem X7_analyze_pagespeed_requests_and_status
    (api : nat → Z * AnalyzePagespeed.reply) (url : string) :
  let run := AnalyzePagespeed.analyze_pagespeed api url in
  (1 ≤ gets run.1 ≤ 3)%nat
  ∧ 0 ≤ pause_total run.1 ≤ 14000
  ∧ (AnalyzePagespeed.status run.2 = "analyzed" →
     ∃ attempt took,
       (attempt < 3)%nat
       ∧ api attempt
         = (took, AnalyzePagespeed.Answer 200
                    (Some (AnalyzePagespeed.performance_score run.2,
                           AnalyzePagespeed.seo_score run.2))))
  ∧ (AnalyzePagespeed.status run.2 = "failed" →
     AnalyzePagespeed.performance_score run.2 = None
     ∧ AnalyzePagespeed.seo_score run.2 = None).
Proof.
  cbn zeta. unfold AnalyzePagespeed.analyze_pagespeed.
  pose proof (pagespeed_attempt_loop_requests api url
                (seq 0 AnalyzePagespeed.MAX_RETRIES)) as [Hcount Hpause].
  split; [split; [|exact Hcount]|split; [exact Hpause|split]].
  - apply pagespeed_attempt_loop_requests_pos.
  - intros Hst.
    destruct (pagespeed_attempt_loop_analyzed api url
                (seq 0 AnalyzePagespeed.MAX_RETRIES) Hst)
      as (k & t & Hk & Hkt).
    exists k, t. split; [|done].
    apply elem_of_seq in Hk. unfold AnalyzePagespeed.MAX_RETRIES in Hk. lia.
  - intros Hst.
    by rewrite (pagespeed_attempt_loop_failed api url
                  (seq 0 AnalyzePagespeed.MAX_RETRIES) Hst).
Qed.

(** ** The pace of [analyze_leads] when every lead has a website *)

Lemma StronglySorted_filter {A} (R : relation A) (P : A → Prop)
    `{!∀ x, Decision (P x)} (l : list A) :
  StronglySorted R l → StronglySorted R (filter P l).
Proof.
  induction 1 as [|x l Hl IH Hx]; [constructor|].
  rewrite filter_cons. destruct (decide (P x)); [|done].
  constructor; [done|].
  apply Forall_forall. intros y [_ Hy]%list_elem_of_filter.
  rewrite Forall_forall in Hx. by apply Hx.
Qed.

(** Times at least [d] apart that lie in an interval: their number is
    bounded by the length of the interval. *)
Lemma spaced_in_interval (d lo hi : Z) (l : list Z) :
  StronglySorted (λ a b, a + d ≤ b) l →
  Forall (λ x, lo ≤ x < hi) l →
  l ≠ [] →
  d * (Z.of_nat (length l) - 1) < hi - lo.
Proof.
  intros Hs. revert lo.
  induction Hs as [|x l Hl IH Hx]; intros lo Hin Hne; [done|].
  apply Forall_cons in Hin as [Hxin Hin].
  destruct l as [|y l]; [simpl; lia|].
  assert (Forall (λ z, x + d ≤ z < hi) (y :: l)) as Hin'.
  { apply Forall_forall. intros z Hz.
    rewrite Forall_forall in Hx, Hin.
    specialize (Hx z Hz). specialize (Hin z Hz). simpl in *. lia. }
  specialize (IH (x + d) Hin' ltac:(done)).
  cbn [length] in *. lia.
Qed.

Lemma throttle_waits (current_time : Z) (times : list Z) :
  current_time ≤ (AnalyzePagespeed.throttle current_time times).1.
Proof.
  unfold AnalyzePagespeed.throttle.
  destruct (_ <=? _); cbn [fst]; [|lia].
  destruct (filter (λ t, current_time - t < AnalyzePagespeed.WINDOW) times)
    as [|t times'] eqn:Hf; cbn [head default].
  - unfold AnalyzePagespeed.WINDOW. lia.
  - assert (t ∈ filter (λ t, current_time - t < AnalyzePagespeed.WINDOW) times)
      as Ht by (rewrite Hf; by left).
    apply list_elem_of_filter in Ht as [Ht _]. simpl in Ht. unfold id. lia.
Qed.

Lemma pagespeed_duration_nonneg (api : nat → Z * AnalyzePagespeed.reply)
    (url : string) (attempts : list nat) :
  (∀ a, 0 ≤ (api a).1) →
  0 ≤ AnalyzePagespeed.duration
        (AnalyzePagespeed.attempt_loop api url attempts).1.
Proof.
  intros Hapi. induction attempts as [|a attempts IH]; [done|].
  cbn [AnalyzePagespeed.attempt_loop].
  pose proof (Hapi a) as Ha.
  assert (1 ≤ 2 ^ Z.of_nat a) as Hpow.
  { apply (Z.pow_le_mono_r 2 0); lia. }
  assert (∀ u t log, AnalyzePagespeed.duration (AnalyzePagespeed.Get u t :: log)
                     = t + AnalyzePagespeed.duration log) as Hget by done.
  assert (∀ t log, AnalyzePagespeed.duration (AnalyzePagespeed.Pause t :: log)
                   = t + AnalyzePagespeed.duration log) as Hpause by done.
  assert (AnalyzePagespeed.duration [] = 0) as Hnil by done.
  destruct (api a) as [took [[m|m|m|m|m]|code [[performance seo]|]]];
    cbn [fst] in Ha;
    try (destruct (code =? 429); [|destruct (code =? 200); cbn [negb]]);
    try destruct (AnalyzePagespeed.attempt_loop api url attempts)
      as [log res];
    try destruct (a <? AnalyzePagespeed.MAX_RETRIES - 1)%nat;
    cbn [fst app] in *;
    rewrite ?Hget, ?Hpause, ?Hget, ?Hnil;
    unfold AnalyzePagespeed.RETRY_DELAY; lia.
Qed.

Section Pace.
Import AnalyzePagespeed.
Variable api : nat → nat → Z * reply.
Variable leads : list lead.
Hypothesis every_lead_has_website : ∀ l, l ∈ leads → has_website l = true.
Hypothesis requests_take_time : ∀ i a, 0 ≤ (api i a).1.

(** The calls made so far are [SAFE_DELAY] apart, and the clock is
    [SAFE_DELAY] past the start of each of them while a lead is left. *)
Lemma pace_kept (rest pre : list lead) (n : nat) (st : state) :
  leads = pre ++ rest →
  n = length pre →
  StronglySorted spaced (dispatched st) →
  (rest ≠ [] → Forall (λ c, c.1 + SAFE_DELAY ≤ clock st) (dispatched st)) →
  StronglySorted spaced
    (dispatched
       (foldl (step api leads) st (imap (λ i l, (S (n + i), l)) rest))).
Proof.
  revert pre n st.
  induction rest as [|l rest IH]; intros pre n st Hleads Hn Hs Hc; [done|].
  rewrite imap_cons. cbn [foldl]. rewrite Nat.add_0_r.
  rewrite (imap_ext _ (λ i l, (S (S n + i), l))) by (intros; simpl; f_equal; lia).
  specialize (Hc ltac:(done)).
  assert (has_website l = true) as Hl.
  { apply every_lead_has_website. rewrite Hleads.
    apply elem_of_app; right; by left. }
  assert (leads !! S n = rest !! 0%nat) as Hnext.
  { rewrite Hleads, Hn.
    rewrite (lookup_app_r pre (l :: rest) (S (length pre))) by lia.
    by replace (S (length pre) - length pre)%nat with 1%nat by lia. }
  assert (length leads = (S n + length rest)%nat) as Hlen.
  { rewrite Hleads, length_app, Hn. simpl. lia. }
  apply (IH (pre ++ [l])).
  - by rewrite <-app_assoc.
  - rewrite length_app. simpl. lia.
  - unfold step. unfold has_website in Hl.
    destruct (get_website_from_lead l) as [w|]; [|done].
    rewrite Hl.
    pose proof (throttle_waits (clock st) (request_times st)) as Hw.
    destruct (throttle (clock st) (request_times st)) as [started times].
    destruct (analyze_pagespeed (api (S n)) w) as [log r].
    cbn [dispatched fst] in *.
    apply StronglySorted_app_2; [|done|repeat constructor].
    intros c d Hcin ->%list_elem_of_singleton.
    rewrite Forall_forall in Hc. specialize (Hc c Hcin).
    unfold spaced. cbn [fst]. lia.
  - intros Hrest. unfold step. unfold has_website in Hl.
    destruct (get_website_from_lead l) as [w|]; [|done].
    rewrite Hl.
    pose proof (throttle_waits (clock st) (request_times st)) as Hw.
    destruct (throttle (clock st) (request_times st)) as [started times].
    pose proof (pagespeed_duration_nonneg (api (S n)) w (seq 0 MAX_RETRIES)
                  (requests_take_time (S n))) as Hd.
    fold (analyze_pagespeed (api (S n)) w) in Hd.
    destruct (analyze_pagespeed (api (S n)) w) as [log r].
    destruct rest as [|l2 rest]; [done|].
    assert (has_website l2 = true) as Hl2.
    { apply every_lead_has_website. rewrite Hleads.
      apply elem_of_app; right; right; by left. }
    rewrite Hnext. cbn [lookup list_lookup]. rewrite Hl2.
    assert ((S n <? length leads)%nat = true) as ->.
    { apply Nat.ltb_lt. rewrite Hlen. simpl. lia. }
    cbn [andb dispatched clock fst] in *.
    apply Forall_app. split.
    + rewrite Forall_forall in Hc. apply Forall_forall. intros c Hcin.
      specialize (Hc c Hcin). unfold SAFE_DELAY in *. lia.
    + repeat constructor. cbn [fst]. lia.
Qed.

End Pace.

(** X8.  When every lead has a website and no request takes negative
    time, two successive calls of [analyze_pagespeed] start at least 0.67
    seconds apart, so that no 100 seconds hold the start of more than 150
    calls, far below the 400 of the API: the pause after each call, not
    the window check, is what keeps the pace. *)
Theorem X8_pace_kept_when_every_lead_has_website
    (api : nat → nat → Z * AnalyzePagespeed.reply)
    (leads : list lead) (start now : Z) :
  (∀ l, l ∈ leads → AnalyzePagespeed.has_website l = true) →
  (∀ i a, 0 ≤ (api i a).1) →
  let calls := AnalyzePagespeed.dispatched (AnalyzePagespeed.run api leads start) in
  StronglySorted spaced calls
  ∧ (AnalyzePagespeed.started_in_window now calls ≤ 150)%nat.
Proof.
  intros Hweb Htime. cbn zeta.
  assert (StronglySorted spaced
            (AnalyzePagespeed.dispatched (AnalyzePagespeed.run api leads start)))
    as Hs.
  { unfold AnalyzePagespeed.run.
    apply (pace_kept api leads Hweb Htime leads [] 0);
      first [done | constructor | by intros _; constructor]. }
  split; [done|].
  unfold AnalyzePagespeed.started_in_window.
  set (inside := filter _ _).
  assert (StronglySorted spaced inside) as Hin
    by by apply StronglySorted_filter.
  destruct inside as [|c inside'] eqn:Hinside; [simpl; lia|].
  assert (StronglySorted (λ a b, a + AnalyzePagespeed.SAFE_DELAY ≤ b)
            (fst <$> c :: inside')) as Hfst.
  { by apply (StronglySorted_fmap fst spaced). }
  pose proof (spaced_in_interval AnalyzePagespeed.SAFE_DELAY
                (now - AnalyzePagespeed.WINDOW + 1) (now + 1)
                (fst <$> c :: inside') Hfst) as Hbound.
  rewrite length_fmap in Hbound.
  unfold AnalyzePagespeed.SAFE_DELAY, AnalyzePagespeed.WINDOW in Hbound.
  enough (670 * (Z.of_nat (length (c :: inside')) - 1) < 100000) by lia.
  replace 100000 with (now + 1 - (now - 100000 + 1)) by lia.
  apply Hbound; [|done].
  apply Forall_fmap, Forall_forall. intros d Hd.
  assert (d ∈ filter (λ c, c.1 ≤ now ∧ now - c.1 < AnalyzePagespeed.WINDOW)
            (AnalyzePagespeed.dispatched (AnalyzePagespeed.run api leads start)))
    as Hd' by (fold inside; by rewrite Hinside).
  apply list_elem_of_filter in Hd' as [[? ?] _].
  unfold AnalyzePagespeed.WINDOW in *. simpl. lia.
Qed.

Lemma X8_pace_kept_when_every_lead_has_website_witness :
  let api (i a : nat) : Z * AnalyzePagespeed.reply :=
    (5, AnalyzePagespeed.Raised (ConnectionError "connection reset")) in
  (AnalyzePagespeed.started_in_window 1000
     (AnalyzePagespeed.dispatched
        (AnalyzePagespeed.run api (replicate 3 site_lead) 0)) ≤ 150)%nat.
Proof.
  cbn zeta.
  apply (X8_pace_kept_when_every_lead_has_website
           (λ i a, (5, AnalyzePagespeed.Raised (ConnectionError "connection reset")))
           (replicate 3 site_lead) 0 1000).
  - intros l Hl. apply elem_of_replicate in Hl as [-> _]. by vm_compute.
  - intros i a. simpl. lia.
Defined.

(** ** The output of [analyze_leads] of [analyze_pagespeed.py] *)

Section PagespeedOutput.
Import AnalyzePagespeed.
Variable api : nat → nat → Z * reply.
Variable leads : list lead.

Lemma pagespeed_step_output (st : state) (i : nat) (l : lead) :
  let st' := step api leads st (i, l) in
  analyzed_leads st' = analyzed_leads st ++ [scored api i l]
  ∧ length (dispatched st')
    = (length (dispatched st) + if has_website l then 1 else 0)%nat.
Proof.
  cbn zeta. unfold step, scored, has_website.
  destruct (get_website_from_lead l) as [w|]; [|by rewrite Nat.add_0_r].
  destruct (negb (w =? "")%string); [|by rewrite Nat.add_0_r].
  destruct (throttle (clock st) (request_times st)) as [started times].
  destruct (analyze_pagespeed (api i) w) as [log r].
  cbn [analyzed_leads dispatched snd]. by rewrite length_app.
Qed.

Lemma pagespeed_loop_output (items : list (nat * lead)) (st : state) :
  let st' := foldl (step api leads) st items in
  analyzed_leads st'
  = analyzed_leads st ++ ((λ il, scored api il.1 il.2) <$> items)
  ∧ length (dispatched st')
    = (length (dispatched st)
       + length (filter (λ il, has_website il.2 = true) items))%nat.
Proof.
  revert st. induction items as [|[i l] items IH]; intros st.
  { cbn. by rewrite app_nil_r, Nat.add_0_r. }
  cbn zeta in *. cbn [foldl].
  destruct (IH (step api leads st (i, l))) as [-> ->].
  destruct (pagespeed_step_output st i l) as [-> ->].
  rewrite <-app_assoc, filter_cons. cbn [fst snd fmap list_fmap app].
  split; [done|].
  destruct (has_website l); destruct (decide _); try done; simpl; lia.
Qed.

Lemma pagespeed_annotate_other (r : result) (k : string) (l : lead) :
  k ∉ pagespeed_fields → annotate r l !! k = l !! k.
Proof.
  intros Hk. unfold annotate.
  rewrite !lookup_insert_ne; [done|..]; intros <-; apply Hk;
    unfold pagespeed_fields; repeat first [by left | right].
Qed.

Lemma pagespeed_mark_other (k : string) (l : lead) :
  k ∉ pagespeed_fields → mark_no_website l !! k = l !! k.
Proof.
  intros Hk. unfold mark_no_website.
  rewrite !lookup_insert_ne; [done|..]; intros <-; apply Hk;
    unfold pagespeed_fields; repeat first [by left | right].
Qed.

Lemma filter_numbered_length (f : nat → nat) (ls : list lead) :
  length (filter (λ il : nat * lead, has_website il.2 = true)
            (imap (λ i l, (f i, l)) ls))
  = length (filter (λ l, has_website l = true) ls).
Proof.
  revert f. induction ls as [|l ls IH]; intros f; [done|].
  rewrite imap_cons, !filter_cons. cbn [snd].
  specialize (IH (f ∘ S)).
  destruct (decide (has_website l = true)); cbn [length]; by rewrite <-IH.
Qed.

End PagespeedOutput.

(** X9.  The loop of [analyze_pagespeed.py] gives the records back in the
    order of the input: the record at index [i] is the lead at index [i]
    with the three fields of its own call (the API as the lead numbered
    [i + 1] meets it), or with the no-website mark, every other field as
    it was; neither the clock nor the rate window has a part in it.  One
    call is made for each lead with a website, none for the others. *)
Theorem X9_pagespeed_output_in_input_order
    (api : nat → nat → Z * AnalyzePagespeed.reply)
    (leads : list lead) (start : Z) (i : nat) (l : lead) :
  leads !! i = Some l →
  AnalyzePagespeed.analyze_leads api leads start !! i
  = Some (scored api (S i) l)
  ∧ (∀ k, k ∉ pagespeed_fields → scored api (S i) l !! k = l !! k)
  ∧ length (AnalyzePagespeed.dispatched (AnalyzePagespeed.run api leads start))
    = length (filter (λ l, AnalyzePagespeed.has_website l = true) leads).
Proof.
  intros Hl. unfold AnalyzePagespeed.analyze_leads, AnalyzePagespeed.run.
  destruct (pagespeed_loop_output api leads (imap (λ i l, (S i, l)) leads)
              {| AnalyzePagespeed.clock := start;
                 AnalyzePagespeed.request_times := [];
                 AnalyzePagespeed.analyzed_leads := [];
                 AnalyzePagespeed.dispatched := [] |}) as [Hout Hcalls].
  cbn zeta in *. rewrite Hout, Hcalls. cbn [AnalyzePagespeed.analyzed_leads
    AnalyzePagespeed.dispatched app length Nat.add].
  split; [|split].
  - rewrite list_lookup_fmap, list_lookup_imap, Hl. done.
  - intros k Hk. unfold scored.
    destruct (AnalyzePagespeed.get_website_from_lead l) as [w|];
      [destruct (negb (w =? "")%string)|].
    + by apply pagespeed_annotate_other.
    + by apply pagespeed_mark_other.
    + by apply pagespeed_mark_other.
  - apply (filter_numbered_length S).
Qed.

Lemma X9_pagespeed_output_in_input_order_witness :
  AnalyzePagespeed.analyze_leads burst_api [bare_lead; site_lead] 0 !! 1%nat
  = Some (scored burst_api 2 site_lead).
Proof.
  apply (X9_pagespeed_output_in_input_order
           burst_api [bare_lead; site_lead] 0 1 site_lead).
  reflexivity.
Defined.

(** ** The counters and the cost of [find_emails.py] *)

Lemma api_calls_app (t1 t2 : list action) :
  api_calls (t1 ++ t2) = (api_calls t1 + api_calls t2)%nat.
Proof. unfold api_calls. by rewrite List.filter_app, length_app. Qed.

Section EnrichCounters.
Import FindEmails.
Variable api : nat → reply.
Variable skip_existing : bool.

(** What one turn of the loop adds to the counters and to the trace. *)
Lemma enrich_step_counters (acc : list lead) (s : stats) (i : nat) (l : lead) :
  ∃ t l' s',
    enrich_step api skip_existing (acc, s) (i, l) = (t, inr (acc ++ [l'], s'))
    ∧ total s' = total s
    ∧ processed s' = (processed s + api_calls t)%nat
    ∧ (emails_found s' + emails_not_found s'
       = emails_found s + emails_not_found s + api_calls t)%nat
    ∧ (skipped_existing s' + skipped_missing_fields s' + processed s'
       = skipped_existing s + skipped_missing_fields s + processed s + 1)%nat
    ∧ (skip_existing = false → skipped_existing s' = skipped_existing s)
    ∧ (api_calls t ≤ 1)%nat
    ∧ (skip_existing = true → ¬ without_email l → api_calls t = 0%nat).
Proof.
  unfold enrich_step, without_email.
  destruct (String.eqb_spec
              (get_field_value l ["email"; "personEmail"; "person_email"]) "")
    as [Hmail|Hmail]; cbn [negb].
  - rewrite andb_false_r.
    destruct (_ || _).
    { eexists _, l, _. split; [reflexivity|]. cbn.
      repeat split; first [lia | done]. }
    unfold mbind, script_bind, emit. simpl.
    destruct (find_email_anymailfinder (api i)) as [[email confidence] verified].
    destruct (Py.truthy email).
    + eexists _, _, _. split; [reflexivity|]. cbn.
      repeat split; first [lia | done].
    + eexists _, l, _. split; [reflexivity|]. cbn.
      repeat split; first [lia | done].
  - rewrite andb_true_r. destruct skip_existing.
    { eexists _, l, _. split; [reflexivity|]. cbn.
      repeat split; first [lia | done]. }
    destruct (_ || _).
    { eexists _, l, _. split; [reflexivity|]. cbn.
      repeat split; first [lia | done]. }
    unfold mbind, script_bind, emit. simpl.
    destruct (find_email_anymailfinder (api i)) as [[email confidence] verified].
    destruct (Py.truthy email).
    + eexists _, _, _. split; [reflexivity|]. cbn.
      repeat split; first [lia | done].
    + eexists _, l, _. split; [reflexivity|]. cbn.
      repeat split; first [lia | done].
Qed.

Lemma enrich_loop_counters (items : list (nat * lead)) (acc : list lead)
    (s : stats) :
  ∃ t out s',
    for_each items (enrich_step api skip_existing) (acc, s)
    = (t, inr (acc ++ out, s'))
    ∧ length out = length items
    ∧ total s' = total s
    ∧ processed s' = (processed s + api_calls t)%nat
    ∧ (emails_found s' + emails_not_found s'
       = emails_found s + emails_not_found s + api_calls t)%nat
    ∧ (skipped_existing s' + skipped_missing_fields s' + processed s'
       = skipped_existing s + skipped_missing_fields s + processed s
         + length items)%nat
    ∧ (skip_existing = false → skipped_existing s' = skipped_existing s)
    ∧ (api_calls t ≤ length items)%nat
    ∧ (skip_existing = true →
       (api_calls t ≤ length (filter (λ il, without_email il.2) items))%nat).
Proof.
  revert acc s. induction items as [|[i l] items IH]; intros acc s.
  { exists [], [], s. cbn. rewrite app_nil_r. repeat split; lia. }
  destruct (enrich_step_counters acc s i l)
    as (t & l' & s' & Hstep & H1 & H2 & H3 & H4 & H5 & H6 & H7).
  destruct (IH (acc ++ [l']) s')
    as (t' & out & s'' & Hloop & Hlen & G1 & G2 & G3 & G4 & G5 & G6 & G7).
  exists (t ++ t'), (l' :: out), s''. split.
  { cbn [for_each]. unfold mbind, script_bind. rewrite Hstep, Hloop.
    by rewrite <-app_assoc. }
  rewrite api_calls_app, filter_cons. cbn [length snd].
  repeat split; try lia.
  - intros Hskip. rewrite G5, H5; done.
  - intros Hskip. specialize (G7 Hskip). specialize (H7 Hskip).
    destruct (decide (without_email l)) as [Hw|Hw]; cbn [length].
    + lia.
    + rewrite (H7 Hw). lia.
Qed.

End EnrichCounters.

Lemma slice_to_length {A} (n : Z) (l : list A) :
  0 ≤ n → Z.of_nat (length (Py.slice_to n l)) = Z.min (Z.of_nat (length l)) n.
Proof.
  intros Hn. unfold Py.slice_to.
  destruct (Z.ltb_spec n 0); [lia|].
  rewrite length_firstn. lia.
Qed.



Lemma filter_numbered_without_email (f : nat → nat) (ls : list lead) :
  length (filter (λ il : nat * lead, without_email il.2)
            (imap (λ i l, (f i, l)) ls))
  = length (filter without_email ls).
Proof.
  revert f. induction ls as [|l ls IH]; intros f; [done|].
  rewrite imap_cons, !filter_cons. cbn [snd].
  specialize (IH (f ∘ S)).
  destruct (decide (without_email l)); cbn [length]; by rewrite <-IH.
Qed.

Lemma enrich_leads_calls_le (api_key : option string)
    (api : nat → FindEmails.reply) (leads : list lead) (max_leads : Z)
    (skip_existing : bool) :
  skip_existing = true ∨ 0 ≤ max_leads →
  Z.of_nat (api_calls
              (FindEmails.enrich_leads api_key api leads max_leads
                 skip_existing).1)
  ≤ will_process leads max_leads skip_existing.
Proof.
  intros Hcase.
  assert (0 ≤ will_process leads max_leads skip_existing) as Hpos.
  { unfold will_process. destruct skip_existing; [lia|].
    destruct Hcase as [|]; [done|lia]. }
  unfold FindEmails.enrich_leads.
  destruct api_key as [key|]; [|done].
  destruct (String.eqb key ""); [done|].
  destruct (enrich_loop_counters api skip_existing
              (imap (λ i l, (S i, l)) (Py.slice_to max_leads leads)) []
              {| FindEmails.total := length leads; FindEmails.processed := 0;
                 FindEmails.skipped_existing := 0;
                 FindEmails.skipped_missing_fields := 0;
                 FindEmails.emails_found := 0;
                 FindEmails.emails_not_found := 0 |})
    as (t & out & s & Hloop & _ & _ & _ & _ & _ & _ & Hle & Hskip).
  rewrite Hloop. cbn [fst]. rewrite length_imap in Hle.
  unfold will_process, leads_without_email. destruct skip_existing.
  - specialize (Hskip eq_refl).
    rewrite (filter_numbered_without_email S) in Hskip. lia.
  - destruct Hcase as [|Hmax]; [done|].
    rewrite <-(slice_to_length max_leads leads Hmax). lia.
Qed.

(** X11.  A run of [find_emails.py] never makes more calls of the paid
    API than the estimate [will_process] that [ask_permission] shows
    before the prompt, provided the limit is not negative or the leads
    with an address are skipped (the default).  With a negative limit and
    [--include-existing] the estimate is [min(len(leads), max_leads)], a
    negative number, while [leads[:max_leads]] still holds records. *)
Theorem X11_calls_within_estimate
    (api_key : option string) (api : nat → FindEmails.reply) (typed : string)
    (leads : list lead) (max_leads : Z) (include_existing : bool) :
  include_existing = false ∨ 0 ≤ max_leads →
  Z.of_nat (api_calls
              (FindEmails.main api_key api typed leads max_leads
                 include_existing).1)
  ≤ will_process leads max_leads (negb include_existing).
Proof.
  intros Hcase.
  assert (negb include_existing = true ∨ 0 ≤ max_leads) as Hcase'.
  { destruct Hcase as [->|]; [by left|by right]. }
  pose proof (enrich_leads_calls_le api_key api leads max_leads
                (negb include_existing) Hcase') as Hle.
  assert (0 ≤ will_process leads max_leads (negb include_existing)) as Hpos
    by lia.
  unfold FindEmails.main.
  destruct (bool_decide (leads = [])); [done|].
  unfold FindEmails.ask_permission.
  destruct (negb (bool_decide (Py.lower (Py.strip typed) ∈ ["yes"; "y"]))).
  { done. }
  destruct (FindEmails.enrich_leads api_key api leads max_leads
              (negb include_existing)) as [t [code|[out s]]];
    cbn [fst] in Hle; unfold mbind, script_bind, emit, mret, script_ret;
    cbn [fst app]; unfold api_calls in *;
    cbn [List.filter is_api_call] in *;
    rewrite ?List.filter_app, ?length_app; cbn [List.filter is_api_call length];
    lia.
Qed.

Lemma X11_calls_within_estimate_witness :
  Z.of_nat (api_calls
              (FindEmails.main (Some "secret")
                 (λ _, FindEmails.Raised (Timeout "read timed out")) "yes"
                 [bare_lead; site_lead] 1 false).1)
  ≤ will_process [bare_lead; site_lead] 1 true.
Proof.
  apply (X11_calls_within_estimate (Some "secret")
           (λ _, FindEmails.Raised (Timeout "read timed out")) "yes"
           [bare_lead; site_lead] 1 false).
  by left.
Defined.

(** ** The domain a paid call is made for *)

Lemma has_char_before (sep : ascii) (s : string) :
  Py.has_char sep (Py.before sep s) = false.
Proof.
  induction s as [|c s IH]; [done|]. simpl.
  destruct (Ascii.eqb c sep) eqn:E; [done|]. simpl. by rewrite E.
Qed.

Lemma has_char_before_other (ch sep : ascii) (s : string) :
  Py.has_char ch s = false → Py.has_char ch (Py.before sep s) = false.
Proof.
  induction s as [|c s IH]; [done|]. simpl.
  intros [Hc Hs]%orb_false_iff.
  destruct (Ascii.eqb c sep); [done|]. simpl. rewrite Hc. by apply IH.
Qed.

Lemma lower_char_idemp (c : ascii) :
  Py.lower_char (Py.lower_char c) = Py.lower_char c.
Proof. by destruct c as [[] [] [] [] [] [] [] []]. Qed.

Lemma lower_idemp (s : string) : Py.lower (Py.lower s) = Py.lower s.
Proof.
  induction s as [|c s IH]; [done|]. simpl. by rewrite lower_char_idemp, IH.
Qed.

Lemma lower_before (sep : ascii) (s : string) :
  Py.lower s = s → Py.lower (Py.before sep s) = Py.before sep s.
Proof.
  induction s as [|c s IH]; [done|]. simpl. intros [= Hc Hs].
  destruct (Ascii.eqb c sep); [done|]. simpl. by rewrite Hc, IH.
Qed.

(** Taking pieces out of a lower-case text leaves a lower-case text. *)
Lemma lower_replace_go (old : string) (skip : nat) (s : string) :
  Py.lower s = s →
  Py.lower (Py.replace_go old "" skip s) = Py.replace_go old "" skip s.
Proof.
  revert skip. induction s as [|c s IH]; intros skip H; [done|].
  cbn [Py.lower] in H. injection H as Hc Hs.
  destruct skip as [|k]; cbn [Py.replace_go]; [|by apply IH].
  destruct (String.prefix old (String c s)).
  - rewrite string_app_nil. by apply IH.
  - cbn [Py.lower]. by rewrite Hc, IH.
Qed.

Lemma extract_domain_shape (url : string) :
  let d := FindEmails.extract_domain url in
  Py.has_char "/" d = false ∧ Py.has_char "?" d = false ∧ Py.lower d = d.
Proof.
  cbn zeta. unfold FindEmails.extract_domain.
  destruct (String.eqb url ""); [done|].
  set (u := Py.replace "www." "" _).
  assert (Py.lower u = u) as Hu.
  { subst u. unfold Py.replace.
    do 3 apply lower_replace_go. apply lower_idemp. }
  set (v := if Py.has_char "/" u then Py.before "/" u else u).
  assert (Py.has_char "/" v = false ∧ Py.lower v = v) as [Hv Hv'].
  { subst v. destruct (Py.has_char "/" u) eqn:E; [|done].
    split; [apply has_char_before|by apply lower_before]. }
  destruct (Py.has_char "?" v) eqn:E; [|done].
  split; [by apply has_char_before_other|].
  split; [apply has_char_before|by apply lower_before].
Qed.

Section EnrichCalls.
Import FindEmails.
Variable api : nat → reply.
Variable skip_existing : bool.

Lemma enrich_loop_calls (items : list (nat * lead)) (acc : list lead)
    (s : stats) (key : string) :
  ApiCall key ∈ (for_each items (enrich_step api skip_existing) (acc, s)).1 →
  key ≠ ""
  ∧ ∃ il, il ∈ items
          ∧ key = extract_domain (get_field_value il.2 domain_fields).
Proof.
  revert acc s. induction items as [|[i l] items IH]; intros acc s.
  { cbn. by intros ?%elem_of_nil. }
  cbn [for_each]. unfold mbind at 1, script_bind at 1.
  destruct (enrich_step api skip_existing (acc, s) (i, l))
    as [t [code|[acc' s']]] eqn:Hstep.
  { destruct (enrich_step_spec api skip_existing acc s i l)
      as (? & ? & ? & Heq & _). rewrite Heq in Hstep. done. }
  destruct (for_each items (enrich_step api skip_existing) (acc', s'))
    as [t' r] eqn:Hloop.
  cbn [fst]. intros [Hin|Hin]%elem_of_app.
  - assert (key ≠ ""
            ∧ key = extract_domain (get_field_value l domain_fields))
      as [Hne Hkey].
    { revert Hstep Hin. unfold enrich_step.
      destruct (skip_existing && _).
      { intros [= <- _ _]. by intros ?%elem_of_nil. }
      change (extract_domain (get_field_value l _))
        with (extract_domain (get_field_value l domain_fields)).
      generalize (extract_domain (get_field_value l domain_fields)) as d.
      intros d. destruct (String.eqb_spec d "") as [He|He].
      { rewrite !orb_true_r. intros [= <- _ _]. by intros ?%elem_of_nil. }
      destruct (_ || _).
      { intros [= <- _ _]. by intros ?%elem_of_nil. }
      unfold mbind, script_bind, emit.
      destruct (find_email_anymailfinder (api i))
        as [[email confidence] verified].
      destruct (Py.truthy email); intros [= <- _ _];
        intros [= <-]%list_elem_of_singleton; done. }
    split; [done|]. exists (i, l). split; [by left|done].
  - specialize (IH acc' s'). rewrite Hloop in IH.
    destruct (IH Hin) as (Hne & il & Hil & Hkey).
    split; [done|]. exists il. split; [by right|done].
Qed.

End EnrichCalls.

(** X12.  [extract_domain] returns a lower-case text without [/] and
    without [?].  Every call of the paid API in a run of [enrich_leads] of
    [find_emails.py] is made for such a domain, never for an empty one,
    and the domain is the one extracted from the website fields of a
    record of [leads[:max_leads]]. *)
Theorem X12_calls_are_for_clean_domains
    (api_key : option string) (api : nat → FindEmails.reply)
    (leads : list lead) (max_leads : Z) (skip_existing : bool)
    (url key : string) :
  (Py.has_char "/" (FindEmails.extract_domain url) = false
   ∧ Py.has_char "?" (FindEmails.extract_domain url) = false
   ∧ Py.lower (FindEmails.extract_domain url) = FindEmails.extract_domain url)
  ∧ (ApiCall key
       ∈ (FindEmails.enrich_leads api_key api leads max_leads skip_existing).1 →
     key ≠ ""
     ∧ Py.has_char "/" key = false ∧ Py.has_char "?" key = false
     ∧ ∃ l, l ∈ Py.slice_to max_leads leads
            ∧ key = FindEmails.extract_domain
                      (FindEmails.get_field_value l domain_fields)).
Proof.
  split; [apply extract_domain_shape|].
  unfold FindEmails.enrich_leads.
  destruct api_key as [k|]; [|by intros ?%elem_of_nil].
  destruct (String.eqb k ""); [by intros ?%elem_of_nil|].
  intros Hin.
  apply enrich_loop_calls in Hin as (Hne & [i l] & Hil & ->).
  split; [done|].
  destruct (extract_domain_shape (FindEmails.get_field_value l domain_fields))
    as (Hslash & Hquery & _).
  split; [done|split; [done|]].
  exists l. split; [|done].
  apply elem_of_lookup_imap in Hil as (j & l' & [= _ ->] & Hj).
  by eapply list_elem_of_lookup_2.
Qed.

(** ** A confirmed run of [outscraper_find_emails.py] *)

Lemma slice_to_sublist {A} (n : Z) (l : list A) : Py.slice_to n l `sublist_of` l.
Proof.
  unfold Py.slice_to. destruct (n <? 0); apply sublist_take.
Qed.

Lemma slice_to_length_le {A} (n : Z) (l : list A) :
  0 ≤ n → Z.of_nat (length (Py.slice_to n l)) ≤ n.
Proof. intros Hn. rewrite slice_to_length by done. lia. Qed.

Lemma for_each_emit_trace (items : list (nat * string)) :
  for_each items (λ (_ : unit) p, emit (ApiCall p.2)) tt
  = ((λ p, ApiCall p.2) <$> items, inr tt).
Proof.
  induction items as [|p items IH]; [done|].
  cbn [for_each]. unfold mbind, script_bind, emit in *. by rewrite IH.
Qed.

Lemma omap_length_le {A B} (f : A → option B) (l : list A) :
  (length (omap f l) ≤ length l)%nat.
Proof.
  induction l as [|x l IH]; [done|].
  cbn [omap list_omap] in *. destruct (f x); cbn [length]; lia.
Qed.

Section OutscraperRun.
Import OutscraperFindEmails.
Variable payload : Type.
Variable merge : payload → lead → lead.
Variable has_emails : payload → bool.
Variable api : nat → option payload.

(** A lead with a domain: its number is in range and its domain is the one
    extracted from its website fields, not empty. *)
Lemma leads_with_domains_elem (leads : list lead) (p : nat * string) :
  p ∈ leads_with_domains leads →
  p.2 ≠ ""
  ∧ ∃ l, leads !! p.1 = Some l
         ∧ p.2 = extract_domain
                   (get_field_value l
                      ["companyWebsite"; "website"; "companyDomain"; "domain";
                       "company_website"; "company_domain"]).
Proof.
  unfold leads_with_domains. intros Hp.
  apply list_elem_of_omap in Hp as ([i l] & Hil & Hsome).
  apply elem_of_lookup_imap in Hil as (j & l' & [= -> ->] & Hj).
  cbn [fst snd] in Hsome.
  destruct (String.eqb_spec
              (extract_domain
                 (get_field_value l'
                    ["companyWebsite"; "website"; "companyDomain"; "domain";
                     "company_website"; "company_domain"])) "") as [He|He];
    cbn [negb] in Hsome; [done|].
  injection Hsome as <-. split; [done|]. by exists l'.
Qed.

Lemma leads_with_domains_length (leads : list lead) :
  (length (leads_with_domains leads) ≤ length leads)%nat.
Proof.
  unfold leads_with_domains.
  etrans; [apply omap_length_le|]. by rewrite length_imap.
Qed.

(** The loop over the futures keeps the counters in step and touches the
    objects of the submitted leads only. *)
Lemma complete_loop (to_process : list (nat * string)) (order : list nat)
    (st : pool_state) :
  let st' := foldl (complete payload merge has_emails api to_process) st order in
  total (counters st') = total (counters st)
  ∧ skipped_no_domain (counters st') = skipped_no_domain (counters st)
  ∧ (processed (counters st) = contacts_found (counters st)
                               + contacts_not_found (counters st) →
     processed (counters st') = contacts_found (counters st')
                                + contacts_not_found (counters st'))%nat
  ∧ (∀ i, i ∉ to_process.*1 → objects st' !! i = objects st !! i).
Proof.
  revert st. induction order as [|k order IH]; intros st; [done|].
  cbn zeta in *. cbn [foldl].
  destruct (IH (complete payload merge has_emails api to_process st k))
    as (-> & -> & Hsum & Hobj).
  unfold complete in *.
  destruct (to_process !! k) as [[ref domain]|] eqn:Hk; [|done].
  assert (ref ∈ to_process.*1) as Href.
  { apply list_elem_of_fmap. exists (ref, domain).
    split; [done|by eapply list_elem_of_lookup_2]. }
  destruct (api k) as [data|]; cbn [counters objects total skipped_no_domain
    processed contacts_found contacts_not_found] in *.
  - split; [done|split; [done|split]].
    + intros H. apply Hsum. destruct (has_emails data); lia.
    + intros i Hi. rewrite Hobj by done.
      apply list_lookup_alter_ne. by intros ->.
  - split; [done|split; [done|split]].
    + intros H. apply Hsum. lia.
    + intros i Hi. by rewrite Hobj.
Qed.

(** The second loop: every object of the store occurs, as a value, in what
    the function returns. *)
Lemma add_skipped_covers (store : list lead) (enriched : list nat) (n : nat)
    (i : nat) (l : lead) :
  (i < n)%nat → store !! i = Some l →
  l ∈ omap (λ r, store !! r) (add_skipped store enriched n).
Proof.
  unfold add_skipped. intros Hi Hl.
  assert (i ∈ seq 0 n) as Hin by (apply elem_of_seq; lia).
  assert (∀ todo acc,
            l ∈ omap (λ r, store !! r) acc →
            l ∈ omap (λ r, store !! r)
                  (foldl (λ acc i,
                            match store !! i with
                            | Some l =>
                                if bool_decide (l ∈ omap (λ r, store !! r) acc)
                                then acc else acc ++ [i]
                            | None => acc
                            end) acc todo)) as Hkeep.
  { intros todo. induction todo as [|j todo IH]; intros acc Hacc; [done|].
    cbn [foldl]. apply IH.
    destruct (store !! j) as [l'|]; [|done].
    destruct (bool_decide _); [done|].
    rewrite omap_app. apply elem_of_app. by left. }
  revert Hin. generalize (seq 0 n) as todo. intros todo. revert enriched.
  induction todo as [|j todo IH]; intros acc Hin.
  { by apply elem_of_nil in Hin. }
  cbn [foldl]. apply elem_of_cons in Hin as [<-|Hin]; [|by apply IH].
  apply Hkeep. rewrite Hl.
  destruct (bool_decide_reflect (l ∈ omap (λ r, store !! r) acc)); [done|].
  rewrite omap_app. apply elem_of_app. right.
  cbn [omap list_omap]. rewrite Hl. by left.
Qed.

End OutscraperRun.

(** X13.  A confirmed run of [enrich_leads] of [outscraper_find_emails.py]
    makes one call of the paid API for each of the first [max_leads] leads
    with a domain and no other, each for a non-empty domain without [/] and
    [?].  Its counters add up: [total] is the size of the input,
    [skipped_no_domain] the number of leads without a domain and
    [processed] the sum of [contacts_found] and [contacts_not_found].
    Whatever the order in which the pool completes, a lead that was not
    submitted occurs in the output as it came in. *)
Theorem X13_outscraper_confirmed_run
    (payload : Type) (merge : payload → lead → lead)
    (has_emails : payload → bool) (api : nat → option payload)
    (key typed : string) (order : list nat)
    (leads : list lead) (max_leads : Z) :
  key ≠ "" →
  Py.lower (Py.strip typed) = "yes" →
  let to_process :=
    Py.slice_to max_leads (OutscraperFindEmails.leads_with_domains leads) in
  ∃ out s,
    OutscraperFindEmails.enrich_leads payload merge has_emails true (Some key)
      api typed order leads max_leads
    = (Prompt :: ((λ p, ApiCall p.2) <$> to_process), inr (out, s))
    ∧ (0 ≤ max_leads → Z.of_nat (length to_process) ≤ max_leads)
    ∧ (∀ p, p ∈ to_process →
         p.2 ≠ "" ∧ Py.has_char "/" p.2 = false ∧ Py.has_char "?" p.2 = false)
    ∧ OutscraperFindEmails.total s = length leads
    ∧ (OutscraperFindEmails.skipped_no_domain s
       + length (OutscraperFindEmails.leads_with_domains leads)
       = length leads)%nat
    ∧ (OutscraperFindEmails.processed s
       = OutscraperFindEmails.contacts_found s
         + OutscraperFindEmails.contacts_not_found s)%nat
    ∧ (∀ i l, leads !! i = Some l → i ∉ to_process.*1 → l ∈ out).
Proof.
  intros Hkey Hyes to_process.
  unfold OutscraperFindEmails.enrich_leads.
  apply String.eqb_neq in Hkey. rewrite Hkey, Hyes, String.eqb_refl.
  fold to_process. rewrite for_each_emit_trace.
  unfold mbind, script_bind, emit, mret, script_ret. cbn [negb app].
  rewrite app_nil_r.
  set (st0 := {| OutscraperFindEmails.objects := leads |}).
  destruct (complete_loop payload merge has_emails api to_process order st0)
    as (Htotal & Hskip & Hsum & Hobj).
  set (st := foldl _ st0 order) in *.
  eexists _, _. split; [reflexivity|].
  split; [by apply slice_to_length_le|].
  split.
  { intros p Hp.
    assert (p ∈ OutscraperFindEmails.leads_with_domains leads) as Hp'.
    { eapply elem_of_sublist; [done|apply slice_to_sublist]. }
    apply leads_with_domains_elem in Hp' as (Hne & l & _ & Hdom).
    split; [done|]. rewrite Hdom.
    destruct (extract_domain_shape
                (OutscraperFindEmails.get_field_value l
                   ["companyWebsite"; "website"; "companyDomain"; "domain";
                    "company_website"; "company_domain"])) as (? & ? & _).
    done. }
  split; [by rewrite Htotal|].
  split.
  { rewrite Hskip. subst st0. cbn.
    pose proof (leads_with_domains_length leads). lia. }
  split; [by apply Hsum|].
  intros i l Hl Hi.
  apply (add_skipped_covers _ _ _ i); [by eapply lookup_lt_Some| ].
  by rewrite Hobj.
Qed.

Lemma X13_outscraper_confirmed_run_witness :
  ∃ out s,
    OutscraperFindEmails.enrich_leads unit (λ _ l, l) (λ _, false) true
      (Some "secret") (λ _, None) " YES " [0%nat] [site_lead; bare_lead] 5
    = ([Prompt; ApiCall "acme.com"], inr (out, s))
    ∧ OutscraperFindEmails.total s = 2%nat.
Proof.
  destruct (X13_outscraper_confirmed_run unit (λ _ l, l) (λ _, false)
              (λ _, None) "secret" " YES " [0%nat] [site_lead; bare_lead] 5)
    as (out & s & Hrun & _ & _ & Htotal & _).
  { done. }
  { by vm_compute. }
  by exists out, s.
Defined.

(** ** The leads read from a sheet *)

Lemma dict_of_from (pairs : list (string * string)) (d : lead) (h : string) :
  foldl (λ d p, <[p.1 := VStr p.2]> d) d pairs !! h
  = match last (filter (λ p, p.1 = h) pairs) with
    | Some p => Some (VStr p.2)
    | None => d !! h
    end.
Proof.
  revert d. induction pairs as [|[k v] pairs IH]; intros d; [done|].
  cbn [foldl]. rewrite IH, filter_cons. cbn [fst snd].
  destruct (decide (k = h)) as [->|Hk].
  - destruct (filter (λ p, p.1 = h) pairs) as [|q qs] eqn:Hf.
    + cbn [last]. rewrite lookup_insert_eq. reflexivity.
    + rewrite !last_cons. by destruct (last qs).
  - destruct (last (filter (λ p, p.1 = h) pairs)); [done|].
    by rewrite lookup_insert_ne.
Qed.

Lemma pad_length (headers row : list string) :
  (length headers ≤ length (Sheets.pad headers row))%nat.
Proof. unfold Sheets.pad. rewrite length_app, length_replicate. lia. Qed.

Lemma pad_lookup (headers row : list string) (j : nat) :
  (j < length headers)%nat →
  Sheets.pad headers row !! j = Some (default "" (row !! j)).
Proof.
  intros Hj. unfold Sheets.pad.
  destruct (row !! j) as [c|] eqn:Hrow.
  - by rewrite (lookup_app_l_Some _ _ _ _ Hrow).
  - apply lookup_ge_None in Hrow. rewrite lookup_app_r by done.
    apply lookup_replicate. split; [done|lia].
Qed.

Lemma zip_pad_lookup (headers row : list string) (j : nat) (h : string) :
  headers !! j = Some h →
  zip headers (Sheets.pad headers row) !! j
  = Some (h, default "" (row !! j)).
Proof.
  intros Hh. apply lookup_zip_with_Some.
  exists h, (default "" (row !! j)). split; [done|split; [done|]].
  apply pad_lookup. by eapply lookup_lt_Some.
Qed.

(** X14.  The leads [load_from_google_sheets] builds from the rows of a
    sheet: one lead for each row below the header row, in order; the keys
    of a lead are the headers, all of them; the value under a header is the
    cell of its column, the empty text when the row is too short to have
    one, and cells beyond the last header are left out.  When a header
    occurs twice, the column further right gives the value. *)
Theorem X14_leads_of_rows
    (headers : list string) (rows : list (list string))
    (r : nat) (row : list string) :
  rows !! r = Some row →
  length (Sheets.leads_of_rows (headers :: rows)) = length rows
  ∧ ∃ l, Sheets.leads_of_rows (headers :: rows) !! r = Some l
         ∧ (∀ h, is_Some (l !! h) ↔ h ∈ headers)
         ∧ (∀ j h, headers !! j = Some h →
                   (∀ j', (j < j')%nat → headers !! j' ≠ Some h) →
                   l !! h = Some (VStr (default "" (row !! j)))).
Proof.
  intros Hrow. cbn [Sheets.leads_of_rows].
  split; [by rewrite length_fmap|].
  exists (Sheets.lead_of_row headers row).
  split; [by rewrite list_lookup_fmap, Hrow|].
  unfold Sheets.lead_of_row, Sheets.dict_of.
  set (pairs := zip headers (Sheets.pad headers row)).
  assert (pairs.*1 = headers) as Hfst.
  { apply fst_zip. apply pad_length. }
  split.
  - intros h. rewrite dict_of_from, lookup_empty.
    destruct (last (filter (λ p, p.1 = h) pairs)) as [p|] eqn:Hlast.
    + split; [intros _|by eexists].
      apply last_Some_elem_of, list_elem_of_filter in Hlast as [Hp1 Hp].
      rewrite <-Hfst. apply list_elem_of_fmap. by exists p.
    + split; [by intros [? ?]|]. intros Hh.
      apply last_None in Hlast.
      rewrite <-Hfst in Hh. apply list_elem_of_fmap in Hh as (p & -> & Hp).
      assert (p ∈ filter (λ q, q.1 = p.1) pairs) as Hin
        by by apply list_elem_of_filter.
      rewrite Hlast in Hin. by apply elem_of_nil in Hin.
  - intros j h Hh Hlater. rewrite dict_of_from.
    pose proof (zip_pad_lookup headers row j h Hh) as Hj. fold pairs in Hj.
    rewrite <-(take_drop_middle pairs j _ Hj), filter_app, filter_cons.
    cbn [fst]. rewrite decide_True by done.
    assert (filter (λ p, p.1 = h) (drop (S j) pairs) = []) as ->.
    { apply elem_of_nil_inv. intros p [Hp1 Hp]%list_elem_of_filter.
      apply list_elem_of_lookup in Hp as [j' Hj'].
      rewrite lookup_drop in Hj'.
      apply (Hlater (S j + j')%nat); [lia|].
      rewrite <-Hfst, list_lookup_fmap, Hj'. cbn. by rewrite Hp1. }
    rewrite last_snoc. done.
Qed.

Lemma X14_leads_of_rows_witness :
  ∃ l, Sheets.leads_of_rows [["name"; "website"]; ["Acme"]] !! 0%nat = Some l
       ∧ l !! "website" = Some (VStr "").
Proof.
  destruct (X14_leads_of_rows ["name"; "website"] [["Acme"]] 0 ["Acme"])
    as (_ & l & Hl & _ & Hcell).
  { reflexivity. }
  exists l. split; [exact Hl|].
  apply (Hcell 1%nat "website"); [reflexivity|].
  intros [|[|[|j']]] Hj'; solve [lia | discriminate].
Defined.

(** ** The counters of [analyze_leads] of [check_gtm_adwords.py] *)

Section GtmCounters.
Import CheckGtmAdwords GtmStats.
Variable future_result : nat → string → Z → exn + detection.
Variable timeout : Z.
Variable pairs : list (nat * string * nat).

Lemma update_stats_counters (result : detection) (s : stats) :
  let s' := update_stats result s in
  (success_count s' + failed_count s' = success_count s + failed_count s + 1
   ∧ success_count s ≤ success_count s'
   ∧ gtm_count s' + success_count s ≤ gtm_count s + success_count s'
   ∧ ads_count s' + success_count s ≤ ads_count s + success_count s'
   ∧ conversion_count s' + success_count s
     ≤ conversion_count s + success_count s'
   ∧ remarketing_count s' + success_count s
     ≤ remarketing_count s + success_count s'
   ∧ gtm_only s' + ads_no_conversion s' + no_tracking s' + full_setup s'
     + (if left_out result then 1 else 0) + success_count s
     = gtm_only s + ads_no_conversion s + no_tracking s + full_setup s
       + success_count s')%nat.
Proof.
  cbn zeta. unfold update_stats, left_out.
  destruct (String.eqb (status result) "analyzed");
    [|cbn; repeat split; lia].
  destruct (gtm_installed result), (google_ads_detected result),
    (conversion_tracking result), (remarketing_tag result);
    cbn; repeat split; lia.
Qed.

Lemma stats_loop (order : list nat) (s : stats) :
  Forall (λ k, k < length pairs)%nat order →
  let s' := foldl (complete_stats future_result timeout pairs) s order in
  (success_count s' + failed_count s'
   = success_count s + failed_count s + length order
   ∧ success_count s ≤ success_count s'
   ∧ gtm_count s' + success_count s ≤ gtm_count s + success_count s'
   ∧ ads_count s' + success_count s ≤ ads_count s + success_count s'
   ∧ conversion_count s' + success_count s
     ≤ conversion_count s + success_count s'
   ∧ remarketing_count s' + success_count s
     ≤ remarketing_count s + success_count s'
   ∧ gtm_only s' + ads_no_conversion s' + no_tracking s' + full_setup s'
     + missed future_result timeout pairs order + success_count s
     = gtm_only s + ads_no_conversion s + no_tracking s + full_setup s
       + success_count s')%nat.
Proof.
  intros Horder. revert s.
  induction Horder as [|k order Hk Horder IH]; intros s.
  { cbn. repeat split; lia. }
  cbn zeta in *. cbn [foldl]. unfold missed in *. rewrite filter_cons.
  destruct (outcome future_result timeout pairs k) as [result|] eqn:Hout.
  2: { unfold outcome in Hout.
       apply lookup_lt_is_Some in Hk as [[[idx url] ref] Hp].
       by rewrite Hp in Hout. }
  assert (complete_stats future_result timeout pairs s k
          = update_stats result s) as Hs1.
  { unfold complete_stats. by rewrite Hout. }
  specialize (IH (complete_stats future_result timeout pairs s k)).
  rewrite Hs1 in IH |- *.
  pose proof (update_stats_counters result s) as Hstep. cbn zeta in Hstep.
  set (s1 := update_stats result s) in *.
  set (s' := foldl _ s1 order) in *.
  cbn [from_option length].
  destruct (left_out result);
    [rewrite decide_True by done|rewrite decide_False by done];
    cbn [length]; repeat split; lia.
Qed.

End GtmCounters.

Lemma with_site_count (f : nat → nat) (leads : list lead) :
  length (filter with_site (imap (λ i l, (f i, l)) leads))
  = length (filter (λ l, CheckGtmAdwords.has_website l = true) leads).
Proof.
  revert f. induction leads as [|l leads IH]; intros f; [done|].
  rewrite imap_cons, !filter_cons. unfold with_site at 1. cbn [snd].
  specialize (IH (f ∘ S)).
  destruct (decide (CheckGtmAdwords.has_website l = true));
    cbn [length]; by rewrite <-IH.
Qed.

Lemma scan_lengths (leads : list lead) :
  length (CheckGtmAdwords.url_lead_pairs (CheckGtmAdwords.scan leads))
  = length (filter (λ l, CheckGtmAdwords.has_website l = true) leads)
  ∧ (length (CheckGtmAdwords.url_lead_pairs (CheckGtmAdwords.scan leads))
     + length (CheckGtmAdwords.no_website_leads (CheckGtmAdwords.scan leads))
     = length leads)%nat.
Proof.
  rewrite scan_spec. cbn [CheckGtmAdwords.url_lead_pairs
                          CheckGtmAdwords.no_website_leads].
  rewrite !length_fmap. split.
  - apply (with_site_count id).
  - rewrite <-length_app, (filter_app_complement with_site (indexed leads)).
    unfold indexed. by rewrite length_imap.
Qed.

(** X15.  The counters [analyze_leads] of [check_gtm_adwords.py] prints,
    once every task has completed, in whatever order: the analysed and the
    failed sites together are the leads with a website, and with the leads
    without one they are all the leads; none of the four detection counts
    exceeds the number of analysed sites.  The four counts of the
    opportunity breakdown do not add up to the analysed sites in general:
    a site with Google Ads and conversion tracking but without GTM is
    counted in none of them, and these sites are exactly what is
    missing. *)
Theorem X15_gtm_counters
    (future_result : nat → string → Z → exn + CheckGtmAdwords.detection)
    (leads : list lead) (timeout : Z) (order : list nat) :
  order ≡ₚ seq 0 (length (CheckGtmAdwords.url_lead_pairs
                             (CheckGtmAdwords.scan leads))) →
  let pairs := CheckGtmAdwords.url_lead_pairs (CheckGtmAdwords.scan leads) in
  let s := GtmStats.final_stats future_result leads timeout order in
  (GtmStats.success_count s + GtmStats.failed_count s
   = length (filter (λ l, CheckGtmAdwords.has_website l = true) leads)
   ∧ GtmStats.success_count s + GtmStats.failed_count s
     + length (CheckGtmAdwords.no_website_leads (CheckGtmAdwords.scan leads))
     = length leads
   ∧ GtmStats.gtm_count s ≤ GtmStats.success_count s
   ∧ GtmStats.ads_count s ≤ GtmStats.success_count s
   ∧ GtmStats.conversion_count s ≤ GtmStats.success_count s
   ∧ GtmStats.remarketing_count s ≤ GtmStats.success_count s
   ∧ GtmStats.gtm_only s + GtmStats.ads_no_conversion s
     + GtmStats.no_tracking s + GtmStats.full_setup s
     + GtmStats.missed future_result timeout pairs order
     = GtmStats.success_count s)%nat.
Proof.
  intros Hperm. cbn zeta.
  destruct (scan_lengths leads) as [Hsites Hall].
  assert (Forall (λ k, k < length (CheckGtmAdwords.url_lead_pairs
                                     (CheckGtmAdwords.scan leads)))%nat order)
    as Hrange.
  { apply Forall_forall. intros k Hk. rewrite Hperm in Hk.
    apply elem_of_seq in Hk. lia. }
  assert (length order
          = length (CheckGtmAdwords.url_lead_pairs (CheckGtmAdwords.scan leads)))
    as Hlen by by rewrite Hperm, length_seq.
  pose proof (stats_loop future_result timeout _ order
                GtmStats.initial_stats Hrange) as Hloop.
  cbn zeta in Hloop. unfold GtmStats.final_stats.
  set (s := foldl _ GtmStats.initial_stats order) in *.
  cbn [GtmStats.initial_stats GtmStats.success_count GtmStats.failed_count
       GtmStats.gtm_count GtmStats.ads_count GtmStats.conversion_count
       GtmStats.remarketing_count GtmStats.gtm_only
       GtmStats.ads_no_conversion GtmStats.no_tracking GtmStats.full_setup]
    in Hloop.
  repeat split; lia.
Qed.

Lemma X15_gtm_counters_witness :
  let ads_only : CheckGtmAdwords.detection :=
    {| CheckGtmAdwords.gtm_installed := false;
       CheckGtmAdwords.gtm_container_id := None;
       CheckGtmAdwords.google_ads_detected := true;
       CheckGtmAdwords.google_ads_account_id := Some "AW-1";
       CheckGtmAdwords.conversion_tracking := true;
       CheckGtmAdwords.remarketing_tag := false;
       CheckGtmAdwords.status := "analyzed" |} in
  let s := GtmStats.final_stats (λ _ _ _, inr ads_only)
             [site_lead; bare_lead] 10 [0%nat] in
  GtmStats.success_count s = 1%nat
  ∧ (GtmStats.gtm_only s + GtmStats.ads_no_conversion s
     + GtmStats.no_tracking s + GtmStats.full_setup s = 0)%nat.
Proof.
  intros ads_only s.
  pose proof (X15_gtm_counters (λ _ _ _, inr ads_only)
                [site_lead; bare_lead] 10 [0%nat]) as H.
  cbn zeta in H. fold s in H.
  destruct H as (H1 & _ & _ & _ & _ & _ & H7).
  { by vm_compute. }
  assert (GtmStats.success_count s = 1%nat) as Hs by by vm_compute.
  split; [exact Hs|].
  change (GtmStats.missed _ _ _ _) with 1%nat in H7. lia.
Defined.

(** ** What the status written by a batch tells *)

(** X16.  In the output of [validate_websites_batch] a record has the
    status [no_url] exactly when no URL could be resolved from it, and the
    status [valid] only when a request to its own URL, in its own task,
    was answered with a 2xx status.  In the output of [analyze_leads] of
    [check_gtm_adwords.py] a record has the status [no_website] exactly
    when it has no website, and the status [analyzed] only when a request
    of its own task, to its own address or to the plain-HTTP variant of it,
    was answered 200.  This holds for every order in which the pool
    completes the tasks. *)
Theorem X16_batch_status_meaning
    (http_head http_get : nat → Z → http_result)
    (re_search : CheckGtmAdwords.pattern → string → option string)
    (gtm_get : nat → nat → string → http_result)
    (leads : list lead) (timeout : Z) (order order' : list nat)
    (i : nat) (l : lead) :
  order ≡ₚ seq 0 (length leads) →
  order' ≡ₚ seq 0 (length (CheckGtmAdwords.url_lead_pairs
                              (CheckGtmAdwords.scan leads))) →
  leads !! i = Some l →
  ∃ l1 l2,
    ValidateWebsites.validate_websites_batch
      http_head http_get leads timeout order !! i = Some l1
    ∧ CheckGtmAdwords.analyze_leads
        re_search gtm_get leads timeout order' !! i = Some l2
    ∧ (l1 !! "website_status" = Some (VStr "no_url")
       ↔ ValidateWebsites.get_website_url l = "")
    ∧ (l1 !! "website_status" = Some (VStr "valid") →
       ∃ a reqs resp,
         0 ≤ a
         ∧ ValidateWebsites.fetch (http_head i) (http_get i)
             (ValidateWebsites.get_website_url l) a = (reqs, inr resp)
         ∧ 200 ≤ status_code resp < 300)
    ∧ (l2 !! "tracking_analysis_status" = Some (VStr "no_website")
       ↔ CheckGtmAdwords.has_website l = false)
    ∧ (l2 !! "tracking_analysis_status" = Some (VStr "analyzed") →
       ∃ website attempt u resp,
         CheckGtmAdwords.get_website_from_lead l = Some website
         ∧ (attempt < 2)%nat
         ∧ u ∈ [website; Py.replace "https://" "http://" website]
         ∧ gtm_get (task_of leads i) attempt u = inr resp
         ∧ status_code resp = 200).
Proof.
  intros Hperm Hperm' Hl.
  rewrite scan_spec in Hperm'. simpl in Hperm'. fold (tasks leads) in Hperm'.
  exists (validated (ValidateWebsites.worker http_head http_get) timeout i l),
    (analyzed (CheckGtmAdwords.worker re_search gtm_get) timeout leads i l).
  split.
  { unfold ValidateWebsites.validate_websites_batch.
    rewrite validate_websites_batch_with_spec by done.
    by rewrite list_lookup_imap, Hl. }
  split.
  { unfold CheckGtmAdwords.analyze_leads.
    rewrite analyze_leads_with_spec by done.
    by rewrite list_lookup_imap, Hl. }
  assert (∀ s, validated (ValidateWebsites.worker http_head http_get)
                 timeout i l !! "website_status" = Some (VStr s)
               ↔ (ValidateWebsites.validate_website (http_head i) (http_get i)
                    (ValidateWebsites.get_website_url l) timeout 0 3).2.1 = s)
    as Hstatus.
  { intros s. unfold validated, stamp, ValidateWebsites.result_or_unknown,
      ValidateWebsites.worker, ValidateWebsites.annotate.
    rewrite lookup_insert_ne by done. rewrite lookup_insert_eq.
    split; [by intros [= ->]|by intros ->]. }
  split; [|split].
  { rewrite Hstatus. apply validate_website_no_url_iff. }
  { rewrite Hstatus. intros Hvalid.
    by apply validate_website_valid_sound in Hvalid. }
  unfold analyzed, CheckGtmAdwords.has_website.
  destruct (CheckGtmAdwords.get_website_from_lead l) as [website|] eqn:Hweb.
  2: { split; [split; [done|]|].
       - intros _. unfold CheckGtmAdwords.mark_no_website.
         by rewrite lookup_insert_eq.
       - unfold CheckGtmAdwords.mark_no_website.
         rewrite lookup_insert_eq. done. }
  destruct (negb (website =? "")%string) eqn:Hne.
  2: { split; [split; [done|]|].
       - intros _. unfold CheckGtmAdwords.mark_no_website.
         by rewrite lookup_insert_eq.
       - unfold CheckGtmAdwords.mark_no_website.
         rewrite lookup_insert_eq. done. }
  unfold CheckGtmAdwords.annotate, CheckGtmAdwords.result_or_failed,
    CheckGtmAdwords.worker. rewrite !lookup_insert_eq. cbn [default from_option].
  pose proof (attempt_loop_well_formed re_search (gtm_get (task_of leads i))
                website (seq 0 CheckGtmAdwords.MAX_RETRIES)
                CheckGtmAdwords.initial_result initial_result_well_formed)
    as (Hst & _).
  fold (CheckGtmAdwords.detect_gtm_and_ads re_search
          (gtm_get (task_of leads i)) website) in Hst.
  split.
  - split; [|done]. intros [= Heq]. rewrite Heq in Hst.
    repeat (apply elem_of_cons in Hst as [Hst|Hst]; [discriminate|]).
    by apply elem_of_nil in Hst.
  - intros [= Heq].
    destruct (attempt_loop_analyzed re_search (gtm_get (task_of leads i))
                website (seq 0 CheckGtmAdwords.MAX_RETRIES)
                CheckGtmAdwords.initial_result eq_refl Heq)
      as (k & u & resp & Hk & Hu & Hget & Hcode).
    exists website, k, u, resp. split; [done|].
    split; [|done].
    apply elem_of_seq in Hk. unfold CheckGtmAdwords.MAX_RETRIES in Hk. lia.
Qed.

Lemma X16_batch_status_meaning_witness :
  let ok := {| status_code := 200; reason := "OK"; text := "";
               server := None; cf_ray := false |} in
  ∃ l1,
    ValidateWebsites.validate_websites_batch
      (λ _ _, inr ok) (λ _ _, inr ok) [site_lead; bare_lead] 10 [1; 0]%nat
      !! 1%nat = Some l1
    ∧ l1 !! "website_status" = Some (VStr "no_url").
Proof.
  intros ok.
  destruct (X16_batch_status_meaning (λ _ _, inr ok) (λ _ _, inr ok)
              (λ _ _, None) (λ _ _ _, inr ok) [site_lead; bare_lead] 10
              [1; 0]%nat [0]%nat 1 bare_lead)
    as (l1 & l2 & H1 & _ & Hno & _).
  - simpl. apply Permutation_swap.
  - vm_compute. reflexivity.
  - reflexivity.
  - exists l1. split; [exact H1|]. apply Hno. by vm_compute.
Defined.

(** ** The records [enrich_leads] of [find_emails.py] returns *)

Section EnrichOutput.
Import FindEmails.
Variable api : nat → reply.
Variable skip_existing : bool.



End EnrichOutput.



(** ** The bookkeeping of the loop of [analyze_pagespeed.py] *)

Lemma throttle_sublist (current_time : Z) (times : list Z) :
  (AnalyzePagespeed.throttle current_time times).2 `sublist_of` times.
Proof.
  unfold AnalyzePagespeed.throttle.
  destruct (_ <=? _); cbn [snd].
  - apply sublist_nil_l.
  - apply sublist_filter.
Qed.

Section Bookkeeping.
Import AnalyzePagespeed.
Variable api : nat → nat → Z * reply.
Variable leads : list lead.
Variable start : Z.
Hypothesis requests_take_time : ∀ i a, 0 ≤ (api i a).1.

(** What every state of the loop satisfies. *)
Lemma bookkeeping_kept (items : list (nat * lead)) (st : state) :
  let inv (st : state) :=
    (length (request_times st) ≤ 390)%nat
    ∧ request_times st `sublist_of` (dispatched st).*2
    ∧ StronglySorted (λ c d, c.2 ≤ d.1) (dispatched st)
    ∧ Forall (λ c, start ≤ c.1 ∧ c.1 ≤ c.2 ∧ c.2 ≤ clock st) (dispatched st)
    ∧ start ≤ clock st in
  inv st → inv (foldl (step api leads) st items).
Proof.
  cbn zeta. revert st.
  induction items as [|[i l] items IH]; intros st Hst; [done|].
  cbn [foldl]. apply IH. clear IH.
  destruct Hst as (Hlen & Hsub & Hsorted & Hcalls & Hstart).
  unfold step.
  destruct (get_website_from_lead l) as [w|]; [|done].
  destruct (negb (w =? "")%string); [|done].
  pose proof (throttle_waits (clock st) (request_times st)) as Hwait.
  pose proof (throttle_bound (clock st) (request_times st)) as Hbound.
  pose proof (throttle_sublist (clock st) (request_times st)) as Hkept.
  destruct (throttle (clock st) (request_times st)) as [started times].
  pose proof (pagespeed_duration_nonneg (api i) w (seq 0 MAX_RETRIES)
                (requests_take_time i)) as Hd.
  fold (analyze_pagespeed (api i) w) in Hd.
  destruct (analyze_pagespeed (api i) w) as [log r].
  cbn [fst snd request_times dispatched clock] in *.
  assert (started + duration log
          ≤ (if (i <? length leads)%nat
                && match leads !! i with
                   | Some next => has_website next
                   | None => false
                   end
             then started + duration log + SAFE_DELAY
             else started + duration log)) as Hclock.
  { destruct (_ && _); unfold SAFE_DELAY; lia. }
  split; [|split; [|split; [|split]]].
  - rewrite length_app. cbn [length].
    unfold MAX_REQUESTS_PER_100_SEC in Hbound. lia.
  - rewrite fmap_app. apply sublist_app; [|done].
    by etrans.
  - apply StronglySorted_app_2; [|done|repeat constructor].
    intros c d Hc ->%list_elem_of_singleton.
    rewrite Forall_forall in Hcalls. specialize (Hcalls c Hc).
    cbn [fst]. lia.
  - apply Forall_app. split.
    + rewrite Forall_forall in Hcalls. apply Forall_forall. intros c Hc.
      specialize (Hcalls c Hc). lia.
    + repeat constructor; cbn [fst snd]; lia.
  - lia.
Qed.

End Bookkeeping.

(** X18.  The loop of [analyze_pagespeed.py] makes its calls one at a
    time: when no request takes negative time, a call starts after the
    one before it has returned, none before the loop began, and the clock
    never runs backwards.  The list [request_times] never holds more than
    390 times, and what it holds are return times of calls made, in their
    order; it need not hold them all. *)
Theorem X18_pagespeed_bookkeeping
    (api : nat → nat → Z * AnalyzePagespeed.reply)
    (leads : list lead) (start : Z) :
  (∀ i a, 0 ≤ (api i a).1) →
  let final := AnalyzePagespeed.run api leads start in
  (length (AnalyzePagespeed.request_times final) ≤ 390)%nat
  ∧ AnalyzePagespeed.request_times final
      `sublist_of` (AnalyzePagespeed.dispatched final).*2
  ∧ StronglySorted (λ c d, c.2 ≤ d.1) (AnalyzePagespeed.dispatched final)
  ∧ Forall (λ c, start ≤ c.1 ∧ c.1 ≤ c.2
                 ∧ c.2 ≤ AnalyzePagespeed.clock final)
      (AnalyzePagespeed.dispatched final)
  ∧ start ≤ AnalyzePagespeed.clock final.
Proof.
  intros Htime. unfold AnalyzePagespeed.run.
  apply (bookkeeping_kept api leads start Htime).
  cbn. split; [lia|]. split; [done|]. split; [constructor|].
  split; [constructor|lia].
Qed.

Lemma X18_pagespeed_bookkeeping_witness :
  0 ≤ AnalyzePagespeed.clock
        (AnalyzePagespeed.run burst_api [site_lead; site_lead] 0).
Proof.
  apply (X18_pagespeed_bookkeeping burst_api [site_lead; site_lead] 0).
  intros i a. unfold burst_api. destruct (i =? 3)%nat; simpl; lia.
Defined.

(** ** From the leads to a sheet and back *)

Lemma lead_of_row_lookup (headers row : list string) (h : string) :
  (is_Some (Sheets.lead_of_row headers row !! h) ↔ h ∈ headers)
  ∧ (∀ j, headers !! j = Some h →
          (∀ j', (j < j')%nat → headers !! j' ≠ Some h) →
          Sheets.lead_of_row headers row !! h
          = Some (VStr (default "" (row !! j)))).
Proof.
  unfold Sheets.lead_of_row, Sheets.dict_of.
  set (pairs := zip headers (Sheets.pad headers row)).
  assert (pairs.*1 = headers) as Hfst.
  { apply fst_zip. apply pad_length. }
  split.
  - rewrite dict_of_from, lookup_empty.
    destruct (last (filter (λ p, p.1 = h) pairs)) as [p|] eqn:Hlast.
    + split; [intros _|by eexists].
      apply last_Some_elem_of, list_elem_of_filter in Hlast as [Hp1 Hp].
      rewrite <-Hfst. apply list_elem_of_fmap. by exists p.
    + split; [by intros [? ?]|]. intros Hh.
      apply last_None in Hlast.
      rewrite <-Hfst in Hh. apply list_elem_of_fmap in Hh as (p & -> & Hp).
      assert (p ∈ filter (λ q, q.1 = p.1) pairs) as Hin
        by by apply list_elem_of_filter.
      rewrite Hlast in Hin. by apply elem_of_nil in Hin.
  - intros j Hh Hlater. rewrite dict_of_from.
    pose proof (zip_pad_lookup headers row j h Hh) as Hj. fold pairs in Hj.
    rewrite <-(take_drop_middle pairs j _ Hj), filter_app, filter_cons.
    cbn [fst]. rewrite decide_True by done.
    assert (filter (λ p, p.1 = h) (drop (S j) pairs) = []) as ->.
    { apply elem_of_nil_inv. intros p [Hp1 Hp]%list_elem_of_filter.
      apply list_elem_of_lookup in Hp as [j' Hj'].
      rewrite lookup_drop in Hj'.
      apply (Hlater (S j + j')%nat); [lia|].
      rewrite <-Hfst, list_lookup_fmap, Hj'. cbn. by rewrite Hp1. }
    rewrite last_snoc. done.
Qed.

Section RoundTrip.
Variable keys : lead → list string.
Hypothesis keys_NoDup : ∀ l, NoDup (keys l).
Hypothesis keys_dom : ∀ l k, k ∈ keys l ↔ is_Some (l !! k).

(** The lead read back from the row of [item], under the headers of
    [first]. *)
Lemma read_back (first item : lead) (k : string) :
  Sheets.lead_of_row (keys first) (ExportToSheets.cell item <$> keys first) !! k
  = if decide (k ∈ keys first) then Some (VStr (ExportToSheets.cell item k))
    else None.
Proof.
  destruct (lead_of_row_lookup (keys first)
              (ExportToSheets.cell item <$> keys first) k) as [Hdom Hcell].
  destruct (decide (k ∈ keys first)) as [Hk|Hk].
  - apply list_elem_of_lookup in Hk as [j Hj].
    rewrite (Hcell j Hj).
    + by rewrite list_lookup_fmap, Hj.
    + intros j' Hlt Hj'.
      pose proof (NoDup_lookup _ _ _ _ (keys_NoDup first) Hj Hj'). lia.
  - apply eq_None_not_Some. by rewrite Hdom.
Qed.

(** An item with the keys of [first] and texts under them is read back
    as it was. *)
Lemma read_back_same (first item : lead) :
  (∀ k, is_Some (item !! k) ↔ is_Some (first !! k)) →
  (∀ k v, item !! k = Some v → ∃ s, v = VStr s) →
  Sheets.lead_of_row (keys first) (ExportToSheets.cell item <$> keys first)
  = item.
Proof.
  intros Hsame Htext. apply map_eq. intros k. rewrite read_back.
  destruct (decide (k ∈ keys first)) as [Hk|Hk].
  - apply keys_dom, Hsame in Hk as [v Hv].
    destruct (Htext k v Hv) as [s ->].
    unfold ExportToSheets.cell. by rewrite Hv.
  - symmetry. apply eq_None_not_Some. rewrite Hsame, <-keys_dom. done.
Qed.

(** A list of such items is written and read back as it was. *)
Lemma round_trip (first : lead) (rest : list lead) :
  uniform first (first :: rest) →
  ∃ rows, ExportToSheets.rows_of keys (first :: rest) = Some rows
          ∧ Sheets.leads_of_rows rows = first :: rest.
Proof.
  intros Huniform. eexists. split; [reflexivity|].
  cbn [Sheets.leads_of_rows]. rewrite <-list_fmap_compose.
  rewrite <-(list_fmap_id (first :: rest)) at 2.
  apply list_fmap_ext. intros i item Hitem. cbn.
  destruct (Huniform item) as [Hsame Htext].
  { by eapply list_elem_of_lookup_2. }
  by apply read_back_same.
Qed.

End RoundTrip.

(** X19.  What [export_data_to_sheets] (and [save_to_google_sheets] of
    [find_emails.py]) writes and [load_from_google_sheets] reads back, the
    sheet giving back the rows it was given: the lead read from the row of
    an item has the keys of the first item, and under each of them the text
    [str(item.get(k, ""))].  So an item comes
    back as it was exactly when it has the keys of the first item and all
    its values are texts; a field whose key the first item lacks is lost,
    whatever item holds it. *)
Theorem X19_export_then_load
    (keys : lead → list string) (first : lead) (rest : list lead)
    (r : nat) (item : lead) :
  (∀ l, NoDup (keys l)) →
  (∀ l k, k ∈ keys l ↔ is_Some (l !! k)) →
  (first :: rest) !! r = Some item →
  ∃ rows l',
    ExportToSheets.rows_of keys (first :: rest) = Some rows
    ∧ Sheets.leads_of_rows rows !! r = Some l'
    ∧ (∀ k, is_Some (first !! k) →
            l' !! k = Some (VStr (ExportToSheets.cell item k)))
    ∧ (∀ k, first !! k = None → l' !! k = None)
    ∧ ((∀ k, is_Some (item !! k) ↔ is_Some (first !! k)) →
       (∀ k v, item !! k = Some v → ∃ s, v = VStr s) →
       l' = item).
Proof.
  intros Hnodup Hdom Hitem.
  exists (keys first :: ((λ item, ExportToSheets.cell item <$> keys first)
                         <$> (first :: rest))),
    (Sheets.lead_of_row (keys first) (ExportToSheets.cell item <$> keys first)).
  split; [done|].
  split.
  { cbn [Sheets.leads_of_rows].
    by rewrite !list_lookup_fmap, Hitem. }
  assert (∀ k, Sheets.lead_of_row (keys first)
                 (ExportToSheets.cell item <$> keys first) !! k
               = if decide (k ∈ keys first)
                 then Some (VStr (ExportToSheets.cell item k)) else None) as Hback.
  { intros k. by apply read_back. }
  split; [|split].
  - intros k Hk. rewrite Hback, decide_True; [done|]. by apply Hdom.
  - intros k Hk. rewrite Hback, decide_False; [done|].
    rewrite Hdom, Hk. by intros [? ?].
  - intros Hsame Htext. by apply read_back_same.
Qed.

Lemma X19_export_then_load_witness :
  let keys (l : lead) := (map_to_list l).*1 in
  ∃ rows l',
    ExportToSheets.rows_of keys [bare_lead; site_lead] = Some rows
    ∧ Sheets.leads_of_rows rows !! 1%nat = Some l'
    ∧ l' !! "website" = None.
Proof.
  intros keys.
  destruct (X19_export_then_load keys bare_lead [site_lead] 1 site_lead)
    as (rows & l' & Hrows & Hl' & _ & Hlost & _).
  - intros l. apply NoDup_fst_map_to_list.
  - intros l k. subst keys. cbn beta.
    rewrite list_elem_of_fmap. split.
    + intros ([k' v] & -> & Hkv). apply elem_of_map_to_list in Hkv.
      by exists v.
    + intros [v Hv]. exists (k, v). split; [done|].
      by apply elem_of_map_to_list.
  - reflexivity.
  - exists rows, l'. split; [exact Hrows|]. split; [exact Hl'|].
    apply Hlost. by vm_compute.
Defined.

Lemma insert_text (l : lead) (k s : string) :
  all_text l → all_text (<[k := VStr s]> l).
Proof.
  intros Htext k' v. destruct (decide (k = k')) as [->|Hk].
  - rewrite lookup_insert_eq. intros [= <-]. by eexists.
  - rewrite lookup_insert_ne by done. apply Htext.
Qed.

Lemma insert_keys (l : lead) (k k' : string) (v : value) :
  is_Some (<[k := v]> l !! k') ↔ k' = k ∨ is_Some (l !! k').
Proof.
  rewrite lookup_insert_is_Some. split.
  - intros [->|[_ H]]; [by left|by right].
  - intros [->|H]; [by left|].
    destruct (decide (k = k')); [by left|by right].
Qed.

Lemma id_or_empty_text (id : option string) :
  CheckGtmAdwords.id_or_empty id = VStr (default "" id).
Proof. by destruct id. Qed.

(** What the two thread-pool batches write keeps a list of leads
    uniform. *)
Lemma validated_uniform
    (future_result : nat → string → Z → exn + (string * string))
    (timeout : Z) (first l : lead) (i : nat) :
  same_keys l first → all_text l →
  same_keys (validated future_result timeout i l)
    (validated future_result timeout 0 first)
  ∧ all_text (validated future_result timeout i l).
Proof.
  intros Hsame Htext. unfold validated, stamp, ValidateWebsites.annotate.
  split.
  - intros k. rewrite !insert_keys. by rewrite (Hsame k).
  - by do 2 apply insert_text.
Qed.

Lemma analyzed_uniform
    (future_result : nat → string → Z → exn + CheckGtmAdwords.detection)
    (timeout : Z) (leads : list lead) (first l : lead) (i : nat) :
  same_keys l first → all_text l →
  same_keys (analyzed future_result timeout leads i l)
    (analyzed future_result timeout leads 0 first)
  ∧ all_text (analyzed future_result timeout leads i l).
Proof.
  intros Hsame Htext.
  assert (∀ r l', same_keys l' first →
            ∀ k, is_Some (CheckGtmAdwords.annotate r l' !! k)
                 ↔ k ∈ gtm_fields ∨ is_Some (first !! k)) as Hannotate.
  { intros r l' Hl' k. unfold CheckGtmAdwords.annotate, gtm_fields.
    rewrite !insert_keys, (Hl' k), !elem_of_cons, elem_of_nil. tauto. }
  assert (∀ l', same_keys l' first →
            ∀ k, is_Some (CheckGtmAdwords.mark_no_website l' !! k)
                 ↔ k ∈ gtm_fields ∨ is_Some (first !! k)) as Hmark.
  { intros l' Hl' k. unfold CheckGtmAdwords.mark_no_website, gtm_fields.
    rewrite !insert_keys, (Hl' k), !elem_of_cons, elem_of_nil. tauto. }
  assert (same_keys first first) as Hfirst by done.
  unfold analyzed. split.
  - intros k.
    destruct (CheckGtmAdwords.has_website l),
      (CheckGtmAdwords.has_website first);
      rewrite ?Hannotate, ?Hmark by done; done.
  - destruct (CheckGtmAdwords.has_website l).
    + unfold CheckGtmAdwords.annotate, CheckGtmAdwords.flag.
      rewrite !id_or_empty_text. by do 7 apply insert_text.
    + unfold CheckGtmAdwords.mark_no_website. by do 7 apply insert_text.
Qed.

(** X20.  Leads that come from a sheet (the same keys in each, texts
    under them) stay so through [validate_websites_batch] and through
    [analyze_leads] of [check_gtm_adwords.py]: the output of either,
    written by [export_data_to_sheets] and read by
    [load_from_google_sheets] from a sheet that gives back the rows it was
    given, is the output again, no record, field or status lost on the
    way. *)
Theorem X20_batch_output_round_trip
    (keys : lead → list string)
    (http_head http_get : nat → Z → http_result)
    (re_search : CheckGtmAdwords.pattern → string → option string)
    (gtm_get : nat → nat → string → http_result)
    (first : lead) (rest : list lead)
    (timeout : Z) (order order' : list nat) :
  (∀ l, NoDup (keys l)) →
  (∀ l k, k ∈ keys l ↔ is_Some (l !! k)) →
  order ≡ₚ seq 0 (length (first :: rest)) →
  order' ≡ₚ seq 0 (length (CheckGtmAdwords.url_lead_pairs
                              (CheckGtmAdwords.scan (first :: rest)))) →
  uniform first (first :: rest) →
  let out := ValidateWebsites.validate_websites_batch
               http_head http_get (first :: rest) timeout order in
  let out' := CheckGtmAdwords.analyze_leads
                re_search gtm_get (first :: rest) timeout order' in
  (∃ rows, ExportToSheets.rows_of keys out = Some rows
           ∧ Sheets.leads_of_rows rows = out)
  ∧ (∃ rows, ExportToSheets.rows_of keys out' = Some rows
             ∧ Sheets.leads_of_rows rows = out').
Proof.
  intros Hnodup Hdom Hperm Hperm' Huniform out out'.
  rewrite scan_spec in Hperm'. simpl in Hperm'.
  fold (tasks (first :: rest)) in Hperm'.
  split.
  - subst out. unfold ValidateWebsites.validate_websites_batch.
    rewrite validate_websites_batch_with_spec by done.
    rewrite imap_cons. apply (round_trip keys Hnodup Hdom).
    rewrite <-imap_cons. intros l' Hl'.
    apply elem_of_lookup_imap in Hl' as (i & l & -> & Hl).
    destruct (Huniform l) as [Hsame Htext];
      [by eapply list_elem_of_lookup_2|].
    by apply validated_uniform.
  - subst out'. unfold CheckGtmAdwords.analyze_leads.
    rewrite analyze_leads_with_spec by done.
    rewrite imap_cons. apply (round_trip keys Hnodup Hdom).
    rewrite <-imap_cons. intros l' Hl'.
    apply elem_of_lookup_imap in Hl' as (i & l & -> & Hl).
    destruct (Huniform l) as [Hsame Htext];
      [by eapply list_elem_of_lookup_2|].
    by apply analyzed_uniform.
Qed.

Lemma X20_batch_output_round_trip_witness :
  let keys (l : lead) := (map_to_list l).*1 in
  let ok := {| status_code := 200; reason := "OK"; text := "";
               server := None; cf_ray := false |} in
  let out := ValidateWebsites.validate_websites_batch
               (λ _ _, inr ok) (λ _ _, inr ok) [site_lead; site_lead] 10
               [1; 0]%nat in
  ∃ rows, ExportToSheets.rows_of keys out = Some rows
          ∧ Sheets.leads_of_rows rows = out.
Proof.
  intros keys ok out.
  refine (proj1 (X20_batch_output_round_trip keys
                   (λ _ _, inr ok) (λ _ _, inr ok) (λ _ _, None)
                   (λ _ _ _, inr ok) site_lead [site_lead] 10
                   [1; 0]%nat [1; 0]%nat _ _ _ _ _)).
  - intros l. apply NoDup_fst_map_to_list.
  - intros l k. subst keys. cbn beta.
    rewrite list_elem_of_fmap. split.
    + intros ([k' v] & -> & Hkv). apply elem_of_map_to_list in Hkv.
      by exists v.
    + intros [v Hv]. exists (k, v). split; [done|].
      by apply elem_of_map_to_list.
  - simpl. apply Permutation_swap.
  - vm_compute. apply Permutation_swap.
  - intros l Hl.
    assert (l = site_lead) as ->.
    { apply elem_of_cons in Hl as [->|Hl]; [done|].
      by apply list_elem_of_singleton in Hl. }
    split; [done|]. intros k v. unfold site_lead.
    destruct (decide (k = "website")) as [->|Hk].
    + rewrite lookup_insert_eq. intros [= <-]. by eexists.
    + rewrite lookup_insert_ne by done. by rewrite lookup_empty.
Defined.
